(** * AutoPas: a shallow embedding of the traversal and tuning core

    The development follows the sources file by file.  Part I holds the
    embedding (one module per source class), Part II the properties
    proved about it.

    Conventions.
    - [double] is the kernel's binary64 type, so comparisons and
      arithmetic on positions are the IEEE operations the C++ code runs.
    - [size_t] and [unsigned long] values are integers in [Z] reduced
      modulo [2^64] after every operation that can leave the range.
    - A C++ exception raised through [ExceptionHandler::exception], or by
      the standard library ([std::out_of_range]), is an explicit result:
      [Thrown msg].  *)

From Stdlib Require Import ZArith List Lia Bool String Floats Uint63.
From stdpp Require Import base option list gmap sorting.
Import ListNotations.

Local Open Scope Z_scope.

(** * Part I: the embedding *)

(** ** Machine integers *)

Definition wrap64 (z : Z) : Z := z mod 2 ^ 64.

(** [size_t] arithmetic. *)
Definition size_add (a b : Z) : Z := wrap64 (a + b).
Definition size_sub (a b : Z) : Z := wrap64 (a - b).
Definition size_mul (a b : Z) : Z := wrap64 (a * b).

(** The number of elements of a [std::vector]. *)
Definition vsize {A : Type} (l : list A) : Z := Z.of_nat (length l).

(** ** Results of calls that may throw *)

Inductive outcome (A : Type) : Type :=
| Done (a : A)
| Thrown (what : string)
| Undefined.
Arguments Done {A} a.
Arguments Thrown {A} what.
Arguments Undefined {A}.

(** [Undefined] stands for undefined behaviour: reading past the end of a
    vector with [operator[]], dereferencing [end()], dividing by zero. *)
Definition bind_outcome {A B : Type} (x : outcome A) (f : A -> outcome B)
    : outcome B :=
  match x with
  | Done a => f a
  | Thrown what => Thrown what
  | Undefined => Undefined
  end.

Definition defined {A : Type} (x : option A) : outcome A :=
  match x with Some a => Done a | None => Undefined end.

(** ** Particles *)

Definition double : Set := float.

(** [std::array<double, 3>] *)
Definition array3 : Set := (double * double * double)%type.

Inductive OwnershipState : Set := dummy | owned | halo.

Record Particle : Set := mkParticle {
  getR : array3;
  getV : array3;
  getID : Z;
  ownershipState : OwnershipState
}.

Definition setR (p : Particle) (r : array3) : Particle :=
  {| getR := r; getV := getV p; getID := getID p;
     ownershipState := ownershipState p |}.

Definition isDummy (p : Particle) : bool :=
  match ownershipState p with dummy => true | _ => false end.

Definition isOwned (p : Particle) : bool :=
  match ownershipState p with owned => true | _ => false end.

(** Modelled from the spec: the constructor [Particle(r, v, id)] of the
    particle capability (its class is not part of the sources); a freshly
    constructed particle is owned. *)
Definition newParticle (r v : array3) (id : Z) : Particle :=
  {| getR := r; getV := v; getID := id; ownershipState := owned |}.

(** Modelled from the spec: [autopas::utils::inBox] (utils/inBox.h is not
    part of the sources): the half-open box test [low <= position < high]
    in every dimension. *)
Definition inBox (position low high : array3) : bool :=
  let '(p0, p1, p2) := position in
  let '(l0, l1, l2) := low in
  let '(h0, h1, h2) := high in
  (PrimFloat.leb l0 p0 && PrimFloat.ltb p0 h0) &&
  (PrimFloat.leb l1 p1 && PrimFloat.ltb p1 h1) &&
  (PrimFloat.leb l2 p2 && PrimFloat.ltb p2 h2).

Definition notInBox (position low high : array3) : bool :=
  negb (inBox position low high).

(** Modelled from the spec: [utils::ArrayMath::sub] and [dot]
    (utils/ArrayMath.h is not part of the sources): element-wise
    difference, and the scalar product accumulated from [0.] in index
    order. *)
Module ArrayMath.
Definition sub (a b : array3) : array3 :=
  let '(a0, a1, a2) := a in
  let '(b0, b1, b2) := b in
  (PrimFloat.sub a0 b0, PrimFloat.sub a1 b1, PrimFloat.sub a2 b2).

Definition dot (a b : array3) : double :=
  let '(a0, a1, a2) := a in
  let '(b0, b1, b2) := b in
  PrimFloat.add
    (PrimFloat.add (PrimFloat.add PrimFloat.zero (PrimFloat.mul a0 b0))
                   (PrimFloat.mul a1 b1))
    (PrimFloat.mul a2 b2).
End ArrayMath.

(** ** FlopCounterFunctor *)

Module FlopCounterFunctor.

Record t : Set := mk {
  _cutoffSquare : double;
  _distanceCalculations : Z;
  _kernelCalls : Z
}.

(** [explicit FlopCounterFunctor(double cutoffRadius)] *)
Definition make (cutoffRadius : double) : t :=
  {| _cutoffSquare := PrimFloat.mul cutoffRadius cutoffRadius;
     _distanceCalculations := 0;
     _kernelCalls := 0 |}.

(** [std::atomic<size_t>::fetch_add]: the new value of the counter. *)
Definition fetch_add (counter n : Z) : Z := size_add counter n.

Definition getDistanceCalculations (f : t) : Z := _distanceCalculations f.
Definition getKernelCalls (f : t) : Z := _kernelCalls f.

(** The squared distance the functor computes for a pair. *)
Definition dr2 (i j : Particle) : double :=
  let dr := ArrayMath.sub (getR i) (getR j) in
  ArrayMath.dot dr dr.

Definition AoSFunctor (f : t) (i j : Particle) (newton3 : bool) : t :=
  if isDummy i || isDummy j then f
  else
    let d2 := dr2 i j in
    let f1 :=
      {| _cutoffSquare := _cutoffSquare f;
         _distanceCalculations := fetch_add (_distanceCalculations f) 1;
         _kernelCalls := _kernelCalls f |} in
    if PrimFloat.leb d2 (_cutoffSquare f1) then
      {| _cutoffSquare := _cutoffSquare f1;
         _distanceCalculations := _distanceCalculations f1;
         _kernelCalls := fetch_add (_kernelCalls f1) 1 |}
    else f1.

(** The SoA functors read the three position arrays of a view; a view
    is here the list of the positions of its particles, for a particle
    type whose SoA precision is [double].

    The squared distance as the SoA functors compute it. *)
Definition soa_dr2 (r1 r2 : array3) : double :=
  let '(x1, y1, z1) := r1 in
  let '(x2, y2, z2) := r2 in
  let drx := PrimFloat.sub x1 x2 in
  let dry := PrimFloat.sub y1 y2 in
  let drz := PrimFloat.sub z1 z2 in
  let drx2 := PrimFloat.mul drx drx in
  let dry2 := PrimFloat.mul dry dry in
  let drz2 := PrimFloat.mul drz drz in
  PrimFloat.add (PrimFloat.add drx2 dry2) drz2.

(** The body of an inner loop: the two accumulators
    [(distanceCalculationsAcc, kernelCallsAcc)] after the particle at
    [rj]. *)
Definition accumulate (cutoffSquare : double) (ri : array3) (acc : Z * Z)
    (rj : array3) : Z * Z :=
  let '(distanceCalculationsAcc, kernelCallsAcc) := acc in
  (size_add distanceCalculationsAcc 1,
   if PrimFloat.leb (soa_dr2 ri rj) cutoffSquare
   then size_add kernelCallsAcc 1 else kernelCallsAcc).

(** The two [fetch_add]s that end a round of an outer loop. *)
Definition addAccumulators (f : t) (acc : Z * Z) : t :=
  {| _cutoffSquare := _cutoffSquare f;
     _distanceCalculations := fetch_add (_distanceCalculations f) (fst acc);
     _kernelCalls := fetch_add (_kernelCalls f) (snd acc) |}.

(** The outer loop of [SoAFunctorSingle]: particle [i] against the
    particles after it. *)
Fixpoint singleLoop (soa : list array3) (f : t) : t :=
  match soa with
  | [] => f
  | ri :: rest =>
      singleLoop rest
        (addAccumulators f
           (fold_left (accumulate (_cutoffSquare f) ri) rest (0, 0)))
  end.

Definition SoAFunctorSingle (f : t) (soa : list array3) (newton3 : bool) : t :=
  if vsize soa =? 0 then f else singleLoop soa f.

Definition SoAFunctorPair (f : t) (soa1 soa2 : list array3) (newton3 : bool)
    : t :=
  fold_left
    (fun f ri =>
       addAccumulators f
         (fold_left (accumulate (_cutoffSquare f) ri) soa2 (0, 0)))
    soa1 f.

(** [SoAFunctorVerlet]: the neighbour list is read in blocks of
    [vecsize] indices and then index by index.  A position is read
    through a raw pointer: an index that is not one of the view is
    undefined, [None]. *)
Definition vecsize : Z := 12.

Definition gather (soa : list array3) (indices : list Z) : option (list array3) :=
  mapM (fun j => soa !! Z.to_nat j) indices.

Definition verletBlock (soa : list array3) (indexFirst : Z)
    (neighborList : list Z) (acc : option t) (block : Z) : option t :=
  f ← acc;
  ri ← soa !! Z.to_nat indexFirst;
  positions ←
    gather soa (take (Z.to_nat vecsize)
                     (drop (Z.to_nat (size_mul block vecsize)) neighborList));
  Some (addAccumulators f
          (fold_left (accumulate (_cutoffSquare f) ri) positions (0, 0))).

Definition verletRemainder (cutoffSquare : double) (soa : list array3)
    (indexFirst : Z) (acc : option (Z * Z)) (j : Z) : option (Z * Z) :=
  acc ← acc;
  if indexFirst =? j then Some acc
  else
    ri ← soa !! Z.to_nat indexFirst;
    rj ← soa !! Z.to_nat j;
    Some (accumulate cutoffSquare ri acc rj).

Definition SoAFunctorVerlet (f : t) (soa : list array3) (indexFirst : Z)
    (neighborList : list Z) (newton3 : bool) : option t :=
  if vsize soa =? 0 then Some f
  else
    let listSizeI := vsize neighborList in
    let blocks := if vecsize <=? listSizeI then listSizeI / vecsize else 0 in
    f1 ← fold_left (verletBlock soa indexFirst neighborList)
                   (seqZ 0 blocks) (Some f);
    let joff := size_mul blocks vecsize in
    acc ← fold_left (verletRemainder (_cutoffSquare f1) soa indexFirst)
                    (drop (Z.to_nat joff) neighborList) (Some (0, 0));
    Some (addAccumulators f1 acc).

End FlopCounterFunctor.

(** ** ParticleClassLibrary *)

Module ParticleClassLibrary.

(** [map<unsigned long, double>] members; [map::at] throws
    [std::out_of_range] on a missing key, which is [None] here. *)
Record t : Type := mk {
  Epsilon : gmap Z double;
  Sigma : gmap Z double;
  Mass : gmap Z double
}.

Definition at_ (m : gmap Z double) (i : Z) : option double := m !! i.

(** The [int] literal 24 converted to [double]. *)
Definition twentyfour : double := 24%float.

Definition mixingE (lib : t) (i j : Z) : option double :=
  ei ← at_ (Epsilon lib) i;
  ej ← at_ (Epsilon lib) j;
  Some (PrimFloat.sqrt (PrimFloat.add ei ej)).

Definition mixing24E (lib : t) (i j : Z) : option double :=
  ei ← at_ (Epsilon lib) i;
  ej ← at_ (Epsilon lib) j;
  Some (PrimFloat.mul twentyfour (PrimFloat.sqrt (PrimFloat.add ei ej))).

Definition get24Epsilon (lib : t) (i : Z) : option double :=
  ei ← at_ (Epsilon lib) i;
  Some (PrimFloat.mul twentyfour ei).

(** The [int] literal 2 converted to [double]. *)
Definition two : double := 2%float.

Definition getEpsilon (lib : t) (i : Particle) : option double :=
  at_ (Epsilon lib) (getID i).

Definition getSigma (lib : t) (i : Particle) : option double :=
  at_ (Sigma lib) (getID i).

Definition getSSigma (lib : t) (i : Z) : option double :=
  sigma ← at_ (Sigma lib) i;
  Some (PrimFloat.mul sigma sigma).

Definition getMass (lib : t) (i : Particle) : option double :=
  at_ (Mass lib) (getID i).

Definition mixingS (lib : t) (i j : Particle) : option double :=
  si ← at_ (Sigma lib) (getID i);
  sj ← at_ (Sigma lib) (getID j);
  Some (PrimFloat.div (PrimFloat.add si sj) two).

Definition mixingSS (lib : t) (i j : Z) : option double :=
  si ← at_ (Sigma lib) i;
  sj ← at_ (Sigma lib) j;
  let mixingS := PrimFloat.div (PrimFloat.add si sj) two in
  Some (PrimFloat.mul mixingS mixingS).

End ParticleClassLibrary.

(** The reference rule of ParticlePropertiesLibraryTest.cpp. *)
Module ParticlePropertiesLibraryTest.
Definition mixingE (e1 e2 : double) : double :=
  PrimFloat.sqrt (PrimFloat.mul e1 e2).
End ParticlePropertiesLibraryTest.

(** ** DirectSum *)

Module DirectSum.

(** [FullParticleCell]: [addParticle] appends to the cell's vector. *)
Definition ParticleCell : Set := list Particle.

Definition cell_addParticle (c : ParticleCell) (p : Particle) : ParticleCell :=
  c ++ [p].

(** The constructor resizes [_cells] to two cells and nothing changes that
    length afterwards; [getCell] is [_cells.at(0)] and [getHaloCell] is
    [_cells.at(1)]. *)
Record t : Set := mk {
  getBoxMin : array3;
  getBoxMax : array3;
  getCutoff : double;
  getCell : ParticleCell;
  getHaloCell : ParticleCell
}.

Definition make (boxMin boxMax : array3) (cutoff : double) : t :=
  {| getBoxMin := boxMin; getBoxMax := boxMax; getCutoff := cutoff;
     getCell := []; getHaloCell := [] |}.

(** A call leaves a container behind and may have raised: the exception
    is thrown before anything is written. *)
Record result : Set := mkResult {
  container : t;
  raised : option string
}.

Definition addParticle (c : t) (p : Particle) : result :=
  let inBox := inBox (getR p) (getBoxMin c) (getBoxMax c) in
  if inBox then
    {| container :=
         {| getBoxMin := getBoxMin c; getBoxMax := getBoxMax c;
            getCutoff := getCutoff c;
            getCell := cell_addParticle (getCell c) p;
            getHaloCell := getHaloCell c |};
       raised := None |}
  else
    {| container := c;
       raised :=
         Some "DirectSum: trying to add particle that is not in the bounding box"%string |}.

Definition addHaloParticle (c : t) (p : Particle) : result :=
  let inBox := inBox (getR p) (getBoxMin c) (getBoxMax c) in
  if negb inBox then
    {| container :=
         {| getBoxMin := getBoxMin c; getBoxMax := getBoxMax c;
            getCutoff := getCutoff c;
            getCell := getCell c;
            getHaloCell := cell_addParticle (getHaloCell c) p |};
       raised := None |}
  else
    {| container := c;
       raised :=
         Some "DirectSum: trying to add particle that is not OUTSIDE of the bounding box"%string |}.

End DirectSum.

(** ** ClusterTower *)

Module ClusterTower.

Definition clusterSize : Z := 4.

(** [std::numeric_limits<double>::max()] *)
Definition DBL_MAX : double := 0x1.fffffffffffffp+1023%float.

(** The prototype of a dummy particle. *)
Definition dummy : Particle :=
  newParticle (DBL_MAX, DBL_MAX, DBL_MAX) (0, 0, 0)%float 0.

(** A [Cluster] is built from the address of its first particle,
    [&_particles[clusterSize * index]]: here the index of that particle
    in the tower's particle vector. *)
Record Cluster : Set := mkCluster { firstParticle : Z }.

Record t : Set := mk {
  _clusters : list Cluster;
  _particles : list Particle;
  _numDummyParticles : Z
}.

Definition addParticle (tw : t) (particle : Particle) : t :=
  {| _clusters := _clusters tw;
     _particles := _particles tw ++ [particle];
     _numDummyParticles := _numDummyParticles tw |}.

Definition clear (tw : t) : t :=
  {| _clusters := []; _particles := []; _numDummyParticles := 0 |}.

Definition getNumDummyParticles (tw : t) : Z := _numDummyParticles tw.

Definition getNumActualParticles (tw : t) : Z :=
  size_sub (vsize (_particles tw)) (_numDummyParticles tw).

Definition getNumClusters (tw : t) : Z := vsize (_clusters tw).

Definition coordinate (r : array3) (dim : Z) : double :=
  let '(r0, r1, r2) := r in
  if dim =? 0 then r0 else if dim =? 1 then r1 else r2.

(** Modelled from the spec: [FullParticleCell::sortByDim] (the cell class
    is not part of the sources): the particles ordered by one coordinate,
    ascending, equal keys keeping their order; membership is unchanged. *)
Fixpoint insertByDim (dim : Z) (p : Particle) (l : list Particle)
    : list Particle :=
  match l with
  | [] => [p]
  | q :: l' =>
      if PrimFloat.ltb (coordinate (getR p) dim) (coordinate (getR q) dim)
      then p :: q :: l'
      else q :: insertByDim dim p l'
  end.

Definition sortByDim (dim : Z) (l : list Particle) : list Particle :=
  fold_left (fun acc p => insertByDim dim p acc) l [].

(** [generateClusters] returns the number of clusters; [None] stands for
    the undefined behaviour of [_particles[numParticles() - 1]] on an
    empty vector. *)
Definition generateClusters (tw : t) : option (t * Z) :=
  if 0 <? getNumActualParticles tw then
    let sorted := sortByDim 2 (_particles tw) in
    let sizeLastCluster := vsize sorted mod clusterSize in
    let numDummy :=
      if negb (sizeLastCluster =? 0) then size_sub clusterSize sizeLastCluster
      else 0 in
    lastParticle ← sorted !! Z.to_nat (size_sub (vsize sorted) 1);
    let padded := sorted ++ replicate (Z.to_nat numDummy) lastParticle in
    let numClusters := vsize padded / clusterSize in
    let clusters :=
      _clusters tw ++
      map (fun index => mkCluster (size_mul clusterSize index))
          (seqZ 0 numClusters) in
    let tw' :=
      {| _clusters := clusters; _particles := padded;
         _numDummyParticles := numDummy |} in
    Some (tw', getNumClusters tw')
  else Some (tw, getNumClusters tw).

(** The [size_t] loop counter converted to [double]. *)
Definition to_double (index : Z) : double :=
  PrimFloat.of_uint63 (Uint63.of_Z index).

(** One round of the loop of [fillUpWithDummyParticles]: the slot
    [clusterSize - index] of the last cluster becomes the dummy prototype
    and then gets its position.  [None]: the slot is outside the vector. *)
Definition fillSlot (lastCluster : Cluster) (dummyStartX dummyDistZ : double)
    (particles : option (list Particle)) (index : Z)
    : option (list Particle) :=
  ps ← particles;
  let slot := Z.to_nat (size_add (firstParticle lastCluster)
                                 (size_sub clusterSize index)) in
  _ ← ps !! slot;
  let ps1 := <[slot := dummy]> ps in
  d ← ps1 !! slot;
  Some (<[slot := setR d (dummyStartX, 0%float,
                          PrimFloat.mul dummyDistZ (to_double index))]> ps1).

(** With no dummy to write the loop body never runs and the reference to
    the last cluster is never used. *)
Definition fillUpWithDummyParticles (tw : t) (dummyStartX dummyDistZ : double)
    : option t :=
  if _numDummyParticles tw =? 0 then Some tw
  else
    lastCluster ← _clusters tw !! Z.to_nat (size_sub (getNumClusters tw) 1);
    ps ← fold_left (fillSlot lastCluster dummyStartX dummyDistZ)
                   (seqZ 1 (_numDummyParticles tw)) (Some (_particles tw));
    Some {| _clusters := _clusters tw; _particles := ps;
            _numDummyParticles := _numDummyParticles tw |}.

(** A tower filled with the particles [ps] after [clear]. *)
Definition filled (tw0 : t) (ps : list Particle) : t :=
  fold_left addParticle ps (clear tw0).

(** [deleteByIndex]: not supported by the tower. *)
Definition deleteByIndex (tw : t) (index : Z) : outcome t :=
  Thrown "Not supported!"%string.

(** [collectAllActualParticles]: the particle vector cut down to the
    actual particles and moved out.  A [resize] to more than the vector
    holds would append default-constructed particles, whose constructor
    is not part of the sources: [None] then. *)
Definition collectAllActualParticles (tw : t) : option (list Particle) :=
  if getNumActualParticles tw <=? vsize (_particles tw) then
    Some (take (Z.to_nat (getNumActualParticles tw)) (_particles tw))
  else None.

Definition numParticles (tw : t) : Z := getNumActualParticles tw.

Definition isNotEmpty (tw : t) : bool := 0 <? getNumActualParticles tw.

End ClusterTower.

(** ** VerletClusterLists *)

Module VerletClusterLists.

Record t : Set := mk {
  getBoxMin : array3;
  getBoxMax : array3;
  _towers : list ClusterTower.t;
  _particlesToAdd : list Particle
}.

Definition addParticleImpl (c : t) (p : Particle) : t :=
  {| getBoxMin := getBoxMin c; getBoxMax := getBoxMax c;
     _towers := _towers c; _particlesToAdd := _particlesToAdd c ++ [p] |}.

(** Modelled from the spec: the iterator [begin] returns
    (ParticleIterator.h and SingleCellIterator.h are not part of the
    sources).  [begin] hands it the towers and nothing else, so it walks
    the towers in order and in each tower the particles [at(0)] to
    [at(numParticles() - 1)], the particles that are not dummies, whatever
    the behaviour asked for. *)
Definition towerParticles (tw : ClusterTower.t) : list (Z * Particle) :=
  let actual :=
    take (Z.to_nat (ClusterTower.getNumActualParticles tw))
         (ClusterTower._particles tw) in
  zip (seqZ 0 (vsize actual)) actual.

Definition visited (towers : list ClusterTower.t) : list (nat * Z * Particle) :=
  '(tower, tw) ← zip (seq 0 (length towers)) towers;
  '(index, p) ← towerParticles tw;
  [(tower, index, p)].

(** Modelled from the spec: [internal::deleteParticle(iter)] (same
    headers): the particle the iterator stands on is deleted through the
    one deleting member of the cell interface, [deleteByIndex] of its
    tower. *)
Definition deleteParticle (c : t) (tower : nat) (index : Z) : outcome t :=
  bind_outcome (defined (_towers c !! tower)) (fun tw =>
  bind_outcome (ClusterTower.deleteByIndex tw index) (fun tw' =>
    Done {| getBoxMin := getBoxMin c; getBoxMax := getBoxMax c;
            _towers := <[tower := tw']> (_towers c);
            _particlesToAdd := _particlesToAdd c |})).

(** The two loops walk the particles found when the loop starts: a
    deletion that returned would go on from the same place, and
    [deleteByIndex] of a tower never returns. *)
Definition deleteHaloParticles (c : t) : outcome t :=
  fold_left
    (fun acc '(tower, index, p) =>
       bind_outcome acc (fun c' =>
         if negb (isOwned p) then deleteParticle c' tower index
         else Done c'))
    (visited (_towers c)) (Done c).

Definition updateContainer (c : t) : outcome (list Particle * t) :=
  bind_outcome (deleteHaloParticles c) (fun c1 =>
    fold_left
      (fun acc '(tower, index, p) =>
         bind_outcome acc (fun '(invalidParticles, c') =>
           if negb (inBox (getR p) (getBoxMin c') (getBoxMax c')) then
             bind_outcome (deleteParticle c' tower index) (fun c'' =>
               Done (invalidParticles ++ [p], c''))
           else Done (invalidParticles, c')))
      (visited (_towers c1)) (Done ([], c1))).

(** [getNumParticles]: the actual particles of all towers. *)
Definition getNumParticles (c : t) : Z :=
  fold_left (fun sum tw => size_add sum (ClusterTower.getNumActualParticles tw))
            (_towers c) 0.

(** [towerIndex2DTo1D(x, y, towersPerDim)] *)
Definition towerIndex2DTo1D (x y : Z) (towersPerDim : Z * Z) : Z :=
  size_add x (size_mul y (fst towersPerDim)).

(** [traverseClustersSequential], for the grid [_towersPerDim]: the
    clusters the loop body is called on, each with the index of its
    tower, in the order of the calls.  [getTowerAtCoordinates] reads
    [_towers[index]]: past the end of the vector that is undefined,
    [None].  [getClusters] is [ClusterTower::getClusters]. *)
Definition traverseClustersSequential {Tower Cluster : Type}
    (getClusters : Tower -> list Cluster) (towersPerDim : Z * Z)
    (towers : list Tower) : option (list (Z * Cluster)) :=
  fold_left
    (fun acc x =>
       fold_left
         (fun acc y =>
            called ← acc;
            let index := towerIndex2DTo1D x y towersPerDim in
            tower ← towers !! Z.to_nat index;
            Some (called ++ map (pair index) (getClusters tower)))
         (seqZ 0 (snd towersPerDim)) acc)
    (seqZ 0 (fst towersPerDim)) (Some []).

(** [struct ClusterRange] *)
Record ClusterRange : Set := mkClusterRange {
  startTowerIndex : Z;
  startIndexInTower : Z;
  numClusters : Z
}.

Definition setNumClusters (r : ClusterRange) (n : Z) : ClusterRange :=
  {| startTowerIndex := startTowerIndex r;
     startIndexInTower := startIndexInTower r;
     numClusters := n |}.

(** [_clusterThreadPartition.resize(numThreads)]: the first elements
    stay, new ones are value-initialized. *)
Definition resize (n : Z) (partition : list ClusterRange) : list ClusterRange :=
  take (Z.to_nat n) partition ++
  replicate (Z.to_nat n - length partition) (mkClusterRange 0 0 0).

(** A write through [_clusterThreadPartition[index]]: undefined past the
    end of the vector. *)
Definition assign (partition : list ClusterRange) (index : Z)
    (f : ClusterRange -> ClusterRange) : option (list ClusterRange) :=
  range ← partition !! Z.to_nat index;
  Some (<[Z.to_nat index := f range]> partition).

(** The local variables of [fillClusterRanges]. *)
Record fillState : Set := mkFillState {
  partition : list ClusterRange;
  currentThread : Z;
  numClustersThisThread : Z;
  numClusterPairsTotal : Z
}.

(** The body of the inner loop, for the cluster [currentClusterInTower]
    of the tower [currentTowerIndex] whose neighbour list has [neighbors]
    entries. *)
Definition fillStep (numClusterPairsPerThread : Z) (st : fillState)
    (currentTowerIndex currentClusterInTower neighbors : Z) : option fillState :=
  started ←
    (if numClustersThisThread st =? 0 then
       assign (partition st) (currentThread st)
              (fun _ => mkClusterRange currentTowerIndex currentClusterInTower 0)
     else Some (partition st));
  let numClustersThisThread' := size_add (numClustersThisThread st) 1 in
  let numClusterPairsTotal' := size_add (numClusterPairsTotal st) neighbors in
  if size_mul numClusterPairsPerThread (size_add (currentThread st) 1)
       <=? numClusterPairsTotal' then
    finished ←
      assign started (currentThread st)
             (fun r => setNumClusters r numClustersThisThread');
    Some {| partition := finished;
            currentThread := size_add (currentThread st) 1;
            numClustersThisThread := 0;
            numClusterPairsTotal := numClusterPairsTotal' |}
  else
    Some {| partition := started;
            currentThread := currentThread st;
            numClustersThisThread := numClustersThisThread';
            numClusterPairsTotal := numClusterPairsTotal' |}.

(** The clusters in the order the two loops meet them: the index of the
    tower, the index in the tower, and the size of the cluster's
    neighbour list.  Of a tower the function reads nothing but these
    sizes ([Cluster::getNeighbors] is declared in Cluster.h, which is not
    part of the sources): a tower is here the list of the sizes of its
    clusters' neighbour lists. *)
Definition clustersInOrder (towers : list (list Z)) : list (Z * Z * Z) :=
  '(currentTowerIndex, currentTower) ← zip (seqZ 0 (vsize towers)) towers;
  '(currentClusterInTower, neighbors) ←
    zip (seqZ 0 (vsize currentTower)) currentTower;
  [(currentTowerIndex, currentClusterInTower, neighbors)].

(** [fillClusterRanges(numClusterPairsPerThread, numThreads)] on the
    partition vector [old] of the previous call; the [int] argument
    meets [size_t] values as [wrap64 numThreads]. *)
Definition fillClusterRanges (numClusterPairsPerThread numThreads : Z)
    (old : list ClusterRange) (towers : list (list Z))
    : option (list ClusterRange) :=
  let start :=
    {| partition := resize (wrap64 numThreads) old;
       currentThread := 0;
       numClustersThisThread := 0;
       numClusterPairsTotal := 0 |} in
  st ← fold_left
         (fun acc '(currentTowerIndex, currentClusterInTower, neighbors) =>
            st ← acc;
            fillStep numClusterPairsPerThread st
                     currentTowerIndex currentClusterInTower neighbors)
         (clustersInOrder towers) (Some start);
  rest ←
    (if negb (numClustersThisThread st =? 0) then
       assign (partition st) (currentThread st)
              (fun r => setNumClusters r (numClustersThisThread st))
     else Some (partition st));
  fold_left
    (fun acc thread =>
       partition ← acc;
       assign partition thread (fun r => setNumClusters r 0))
    (seqZ (size_add (currentThread st) 1)
          (wrap64 numThreads - size_add (currentThread st) 1))
    (Some rest).

(** [static_cast<int>] of a [size_t] value, and [std::clamp]. *)
Definition static_cast_int (z : Z) : Z := (z + 2 ^ 31) mod 2 ^ 32 - 2 ^ 31.

Definition clamp (v lo hi : Z) : Z :=
  if v <? lo then lo else if hi <? v then hi else v.

(** [calculateClusterThreadPartition], with [maxThreads] the value of
    [autopas_get_max_threads()]; the neighbour pairs are counted along
    [traverseClusters<false>]. *)
Definition calculateClusterThreadPartition (maxThreads : Z)
    (towersPerDim : Z * Z) (old : list ClusterRange) (towers : list (list Z))
    : option (list ClusterRange) :=
  called ← traverseClustersSequential (fun tower => tower) towersPerDim towers;
  let numClusterPairs :=
    fold_left (fun sum '(_, neighbors) => size_add sum neighbors) called 0 in
  let minNumClusterPairsPerThread := 1000 in
  let numThreads :=
    clamp (static_cast_int (numClusterPairs / minNumClusterPairsPerThread))
          1 maxThreads in
  if wrap64 numThreads =? 0 then None
  else
    let numClusterPairsPerThread := numClusterPairs / wrap64 numThreads in
    fillClusterRanges numClusterPairsPerThread numThreads old towers.

End VerletClusterLists.

(** ** ParticleView *)

Module ParticleView.
Section ParticleView.

(** The value of a value-initialised element of a [Kokkos::View]. *)
Variable defaultParticle : Particle.

(** [_particleViewImp] is the list of the elements of the view; its
    length is the extent of the view. *)
Record t : Set := mk {
  _capacity : Z;
  _size : Z;
  _particleViewImp : list Particle
}.

Definition make : t :=
  {| _capacity := 8; _size := 0;
     _particleViewImp := replicate 8 defaultParticle |}.

(** [Kokkos::resize]: the elements below both extents are kept. *)
Definition resize (view : list Particle) (n : Z) : list Particle :=
  take (Z.to_nat n) view
  ++ replicate (Z.to_nat n - length view) defaultParticle.

(** [addParticle]; a subview past the extent of the view is undefined,
    [None]. *)
Definition addParticle (v : t) (p : Particle) : option t :=
  let v1 :=
    if _size v =? _capacity v then
      let capacity := size_mul (_capacity v) 2 in
      {| _capacity := capacity; _size := _size v;
         _particleViewImp := resize (_particleViewImp v) capacity |}
    else v in
  if _size v1 <? vsize (_particleViewImp v1) then
    Some {| _capacity := _capacity v1;
            _size := size_add (_size v1) 1;
            _particleViewImp :=
              <[Z.to_nat (_size v1) := p]> (_particleViewImp v1) |}
  else None.

Definition addHaloParticle (v : t) (p : Particle) : option t :=
  addParticle v p.

Definition deleteAll (v : t) : t :=
  {| _capacity := _capacity v; _size := 0;
     _particleViewImp := _particleViewImp v |}.

Definition getSize (v : t) : Z := _size v.
Definition getCapacity (v : t) : Z := _capacity v.
Definition getParticles (v : t) : list Particle := _particleViewImp v.

End ParticleView.
End ParticleView.

(** ** Tuning: configurations and FullSearchMPI *)

(** [enum ContainerOption] of ContainerOption.h. *)
Inductive ContainerOption : Set :=
| directSum | linkedCells | verletLists | verletListsCells | verletClusterLists.

#[global] Instance ContainerOption_eq_dec : EqDecision ContainerOption.
Proof. solve_decision. Defined.

(** Equality of two [double] values as set keys. *)
#[global] Instance double_eq_dec : EqDecision double.
Proof.
  intros x y. destruct (PrimFloat.Leibniz.eqb x y) eqn:E.
  - left. apply FloatAxioms.Leibniz.eqb_spec. exact E.
  - right. intros H. apply FloatAxioms.Leibniz.eqb_spec in H. congruence.
Defined.

(** The conversion of an integer value to [int]. *)
Definition to_int (z : Z) : Z := (z + 2 ^ 31) mod 2 ^ 32 - 2 ^ 31.

Module FullSearchMPI.
Section FullSearchMPI.

(** The option enumerations whose headers are not part of the sources,
    and the table [compatibleTraversals::allCompatibleTraversals]. *)
Context {TraversalOption DataLayoutOption Newton3Option : Type}.
Context `{EqDecision TraversalOption} `{EqDecision DataLayoutOption}
        `{EqDecision Newton3Option}.
Variable allCompatibleTraversals : ContainerOption -> list TraversalOption.

Record Configuration : Type := mkConfiguration {
  container : ContainerOption;
  cellSizeFactor : double;
  traversal : TraversalOption;
  dataLayout : DataLayoutOption;
  newton3 : Newton3Option
}.

#[global] Instance Configuration_eq_dec : EqDecision Configuration.
Proof. solve_decision. Defined.

(** A [std::set] argument is the list of its elements in iteration
    order.  [std::set_intersection] into a set keeps the elements of the
    first range that occur in the second. *)
Definition set_intersection (allowed compatible : list TraversalOption)
    : list TraversalOption :=
  filter (fun t => t ∈ compatible) allowed.

(** [_searchSpace.emplace]: a set holds an element once. *)
Definition emplace (c : Configuration) (searchSpace : list Configuration)
    : list Configuration :=
  if decide (c ∈ searchSpace) then searchSpace else searchSpace ++ [c].

(** The options the constructor is called with. *)
Record Options : Type := mkOptions {
  allowedContainerOptions : list ContainerOption;
  allowedCellSizeFactors : list double;
  allowedTraversalOptions : list TraversalOption;
  allowedDataLayoutOptions : list DataLayoutOption;
  allowedNewton3Options : list Newton3Option
}.

(** The first loop of the constructor: [totalNumConfigs], an [int] to
    which a [size_t] product is added for every container. *)
Definition totalNumConfigs (o : Options) : Z :=
  fold_left
    (fun total containerOption =>
       let allowedAndApplicable :=
         set_intersection (allowedTraversalOptions o)
                          (allCompatibleTraversals containerOption) in
       to_int
         (size_add total
            (size_mul
               (size_mul
                  (size_mul (vsize (allowedCellSizeFactors o))
                            (vsize allowedAndApplicable))
                  (vsize (allowedDataLayoutOptions o)))
               (vsize (allowedNewton3Options o)))))
    (allowedContainerOptions o) 0.

(** The block of rank [worldRank]: [(start, startNext)]. *)
Definition block (totalNumConfigs worldSize worldRank : Z) : Z * Z :=
  let blockSize := Z.quot totalNumConfigs worldSize in
  let remainder := Z.rem totalNumConfigs worldSize in
  let start := to_int (blockSize * worldRank) in
  let startNext := to_int (blockSize * (worldRank + 1)) in
  if worldRank <? remainder then
    (to_int (start + worldRank), to_int (startNext + (worldRank + 1)))
  else
    (to_int (start + remainder), to_int (startNext + remainder)).

(** The configurations the five nested loops of [populateSearchSpace]
    visit, in the order they visit them. *)
Definition enumeration (o : Options) : list Configuration :=
  containerOption ← allowedContainerOptions o;
  let allowedAndApplicable :=
    set_intersection (allowedTraversalOptions o)
                     (allCompatibleTraversals containerOption) in
  cellSizeFactor ← allowedCellSizeFactors o;
  traversalOption ← allowedAndApplicable;
  dataLayoutOption ← allowedDataLayoutOptions o;
  newton3Option ← allowedNewton3Options o;
  [mkConfiguration containerOption cellSizeFactor traversalOption
                   dataLayoutOption newton3Option].

(** The body of the innermost loop, run along the enumeration with the
    counter [i]: skip below [start], return at [startNext], emplace
    otherwise. *)
Fixpoint populateLoop (visited : list Configuration) (i start startNext : Z)
    (searchSpace : list Configuration) : list Configuration :=
  match visited with
  | [] => searchSpace
  | c :: rest =>
      if i <? start then
        populateLoop rest (to_int (i + 1)) start startNext searchSpace
      else if i =? startNext then searchSpace
      else populateLoop rest (to_int (i + 1)) start startNext
                        (emplace c searchSpace)
  end.

Definition populateSearchSpace (o : Options) (start startNext : Z)
    (searchSpace : list Configuration) : list Configuration :=
  populateLoop (enumeration o) 0 start startNext searchSpace.

(** The constructor, for the rank [worldRank] of [worldSize]: the search
    space of the rank, or the exception of an empty search space. *)
Definition make (o : Options) (worldSize worldRank : Z)
    : outcome (list Configuration) :=
  let total := totalNumConfigs o in
  let '(start, startNext) := block total worldSize worldRank in
  let searchSpace := populateSearchSpace o start startNext [] in
  match searchSpace with
  | [] =>
      match populateSearchSpace o 0 total searchSpace with
      | [] => Thrown "No valid configuration could be generated"%string
      | searchSpace' => Done searchSpace'
      end
  | _ => Done searchSpace
  end.

(** The members [removeN3Option] and [getCurrentConfiguration] work on.
    [_searchSpace] is the list of the elements of the set in iteration
    order, without repetition; an iterator of the set is the element it
    points at, [None] for [end()]. *)
Record state : Type := mkState {
  _searchSpace : list Configuration;
  _tuningConfig : option Configuration;
  _optimalConfig : Configuration
}.

Definition searchSpaceIsTrivial (st : state) : bool :=
  vsize (_searchSpace st) =? 1.

Definition searchSpaceIsEmpty (st : state) : bool :=
  match _searchSpace st with [] => true | _ => false end.

(** [getCurrentConfiguration]; dereferencing [end()] is undefined,
    [None]. *)
Definition getCurrentConfiguration (st : state) : option Configuration :=
  if PrimFloat.eqb (cellSizeFactor (_optimalConfig st)) (-1)%float
  then _tuningConfig st
  else Some (_optimalConfig st).

(** The loop of [removeN3Option].  [rest] holds the elements from
    [ssIter] on and [kept] the elements before it, so that the set is
    [kept ++ rest]; [erase] returns the iterator to the element after
    the erased one. *)
Fixpoint removeN3Option_loop (badNewton3Option : Newton3Option)
    (kept rest : list Configuration) (tuningConfig : option Configuration)
    : list Configuration * option Configuration :=
  match rest with
  | [] => (kept, tuningConfig)
  | c :: rest' =>
      if decide (newton3 c = badNewton3Option) then
        if decide (Some c = tuningConfig) then
          removeN3Option_loop badNewton3Option kept rest' (head rest')
        else
          removeN3Option_loop badNewton3Option kept rest' tuningConfig
      else
        removeN3Option_loop badNewton3Option (kept ++ [c]) rest' tuningConfig
  end.

(** [removeN3Option]: the strategy it leaves behind and the exception
    it ends with, if any. *)
Definition removeN3Option (st : state) (badNewton3Option : Newton3Option)
    : state * option string :=
  let '(searchSpace, tuningConfig) :=
    removeN3Option_loop badNewton3Option [] (_searchSpace st)
                        (_tuningConfig st) in
  let st' :=
    {| _searchSpace := searchSpace; _tuningConfig := tuningConfig;
       _optimalConfig := _optimalConfig st |} in
  (st',
   if searchSpaceIsEmpty st' then
     Some "Removing all configurations with Newton 3 {} caused the search space to be empty!"%string
   else None).

End FullSearchMPI.
End FullSearchMPI.

(** ** PredictiveTuning *)

Definition wrap32 (z : Z) : Z := z mod 2 ^ 32.

(** Single precision: the value [(float)z] of an unsigned integer,
    the quotient of two [float]s, and the promotion of a [float] to
    [double], all to nearest-even as the hardware does them. *)
Definition float_of_size_t (z : Z) : spec_float :=
  binary_normalize 24 128 z 0 false.

Definition float_div (x y : spec_float) : spec_float := SFdiv 24 128 x y.

Definition double_of_float (x : spec_float) : double := SF2Prim x.

Module PredictiveTuning.
Section PredictiveTuning.

(** A configuration is a key here: the strategy never looks inside one.
    [config_less] is its [operator<], the order of a
    [std::set<Configuration>]. *)
Context {Configuration : Type} `{Countable Configuration}.
Variable config_less : Configuration -> Configuration -> bool.

(** A [std::set<Configuration>] is the list of its elements in iteration
    order; [emplace] keeps the order and adds no element twice. *)
Fixpoint set_emplace (c : Configuration) (s : list Configuration)
    : list Configuration :=
  match s with
  | [] => [c]
  | x :: s' =>
      if decide (c = x) then s
      else if config_less c x then c :: s
      else x :: set_emplace c s'
  end.

(** An iterator into one of the three sets the strategy walks. *)
Inductive SetName : Set :=
| searchSpace | optimalSearchSpace | tooLongNotTestedSearchSpace.

Record iterator : Set := mkIterator { host : SetName; position : nat }.

Definition begin (s : SetName) : iterator := mkIterator s 0.

Record t : Type := mk {
  _searchSpace : list Configuration;
  _currentConfig : iterator;
  _traversalTimesStorage : gmap Configuration (list (Z * Z));
  _configurationPredictions : gmap Configuration Z;
  _optimalSearchSpace : list Configuration;
  _tooLongNotTestedSearchSpace : list Configuration;
  _validSearchSpace : list Configuration;
  _lastTest : gmap Configuration Z;
  _tuningIterationsCounter : Z;
  _iterationBeginTuningPhase : Z;
  _validConfigurationFound : bool;
  _relativeOptimumRange : double;
  _maxTuningIterationsWithoutTest : Z
}.

(** [operator[]] of the two [unordered_map]s with integer values: a
    missing key is inserted with the value 0. *)
Definition index (m : gmap Configuration Z) (c : Configuration)
    : Z * gmap Configuration Z :=
  match m !! c with
  | Some v => (v, m)
  | None => (0, <[c := 0]> m)
  end.

(** Modelled from the spec: [getOptimum] (declared in
    SetSearchSpaceBasedTuningStrategy.h, not part of the sources): the
    entry with the smallest value, the first such in the iteration order
    of the map, as [std::min_element] finds it; [FullSearchMPI] spells
    the same search out.  On an empty map: [end()]. *)
Definition min_element (l : list (Configuration * Z))
    : option (Configuration * Z) :=
  match l with
  | [] => None
  | x :: l' =>
      Some (fold_left (fun best y => if snd y <? snd best then y else best) l' x)
  end.

Definition getOptimum (m : gmap Configuration Z) : option (Configuration * Z) :=
  min_element (map_to_list m).

(** The body of the loop of [linePrediction] for one configuration with
    the samples [vector], each an (iteration, time) pair.  The difference
    of the two times is a [long]; divided by a [size_t] it is converted
    to [unsigned long] first, and so is the time the product is added
    to. *)
Definition predict (vector : list (Z * Z)) (iterationBeginTuningPhase : Z)
    : option Z :=
  traversal1 ← vector !! Z.to_nat (size_sub (vsize vector) 1);
  traversal2 ← vector !! Z.to_nat (size_sub (vsize vector) 2);
  let divisor := size_sub (fst traversal1) (fst traversal2) in
  if divisor =? 0 then None
  else
    let gradient := wrap64 (snd traversal1 - snd traversal2) / divisor in
    let delta := size_sub iterationBeginTuningPhase (fst traversal1) in
    Some (size_add (wrap64 (snd traversal1)) (size_mul gradient delta)).

Definition setPredictions (st : t) (m : gmap Configuration Z) : t :=
  {| _searchSpace := _searchSpace st;
     _currentConfig := _currentConfig st;
     _traversalTimesStorage := _traversalTimesStorage st;
     _configurationPredictions := m;
     _optimalSearchSpace := _optimalSearchSpace st;
     _tooLongNotTestedSearchSpace := _tooLongNotTestedSearchSpace st;
     _validSearchSpace := _validSearchSpace st;
     _lastTest := _lastTest st;
     _tuningIterationsCounter := _tuningIterationsCounter st;
     _iterationBeginTuningPhase := _iterationBeginTuningPhase st;
     _validConfigurationFound := _validConfigurationFound st;
     _relativeOptimumRange := _relativeOptimumRange st;
     _maxTuningIterationsWithoutTest := _maxTuningIterationsWithoutTest st |}.

(** [_traversalTimesStorage[configuration]] of a configuration without
    samples is the empty vector, on which [predict] is undefined. *)
Definition linePrediction (st : t) : outcome t :=
  fold_left
    (fun acc configuration =>
       bind_outcome acc (fun st' =>
         let vector :=
           default [] (_traversalTimesStorage st' !! configuration) in
         bind_outcome
           (defined (predict vector (_iterationBeginTuningPhase st')))
           (fun prediction =>
              Done (setPredictions st'
                      (<[configuration := prediction]>
                         (_configurationPredictions st'))))))
    (_searchSpace st) (Done st).

Definition calculatePredictions (st : t) : outcome t := linePrediction st.

(** The test [(float)prediction / optimum <= _relativeOptimumRange]. *)
Definition withinRange (prediction optimum : Z) (relativeOptimumRange : double)
    : bool :=
  PrimFloat.leb
    (double_of_float
       (float_div (float_of_size_t prediction) (float_of_size_t optimum)))
    relativeOptimumRange.

(** The test
    [_tuningIterationsCounter - _lastTest[c] > _maxTuningIterationsWithoutTest]. *)
Definition tooLongNotTested (counter lastTest maxWithout : Z) : bool :=
  maxWithout <? size_sub counter lastTest.

(** The sets and maps the selection loop updates. *)
Record selection : Type := mkSelection {
  sel_optimal : list Configuration;
  sel_tooLong : list Configuration;
  sel_predictions : gmap Configuration Z;
  sel_lastTest : gmap Configuration Z
}.

Definition selectStep (optimumTime counter maxWithout : Z) (range : double)
    (acc : selection) (configuration : Configuration) : selection :=
  let '(prediction, predictions) := index (sel_predictions acc) configuration in
  if withinRange prediction optimumTime range then
    {| sel_optimal := set_emplace configuration (sel_optimal acc);
       sel_tooLong := sel_tooLong acc;
       sel_predictions := predictions;
       sel_lastTest := sel_lastTest acc |}
  else
    let '(last, lastTests) := index (sel_lastTest acc) configuration in
    if tooLongNotTested counter last maxWithout then
      {| sel_optimal := sel_optimal acc;
         sel_tooLong := set_emplace configuration (sel_tooLong acc);
         sel_predictions := predictions;
         sel_lastTest := lastTests |}
    else
      {| sel_optimal := sel_optimal acc;
         sel_tooLong := sel_tooLong acc;
         sel_predictions := predictions;
         sel_lastTest := lastTests |}.

Definition setCurrentConfig (st : t) (it : iterator) : t :=
  {| _searchSpace := _searchSpace st;
     _currentConfig := it;
     _traversalTimesStorage := _traversalTimesStorage st;
     _configurationPredictions := _configurationPredictions st;
     _optimalSearchSpace := _optimalSearchSpace st;
     _tooLongNotTestedSearchSpace := _tooLongNotTestedSearchSpace st;
     _validSearchSpace := _validSearchSpace st;
     _lastTest := _lastTest st;
     _tuningIterationsCounter := _tuningIterationsCounter st;
     _iterationBeginTuningPhase := _iterationBeginTuningPhase st;
     _validConfigurationFound := _validConfigurationFound st;
     _relativeOptimumRange := _relativeOptimumRange st;
     _maxTuningIterationsWithoutTest := _maxTuningIterationsWithoutTest st |}.

Definition selectOptimalSearchSpace (st : t) : outcome t :=
  if (vsize (_searchSpace st) =? 1) || (_tuningIterationsCounter st <? 2) then
    Done (setCurrentConfig st (begin searchSpace))
  else
    bind_outcome (calculatePredictions st) (fun st1 =>
    bind_outcome (defined (getOptimum (_configurationPredictions st1)))
      (fun optimum =>
         let start :=
           {| sel_optimal := set_emplace (fst optimum) (_optimalSearchSpace st1);
              sel_tooLong := _tooLongNotTestedSearchSpace st1;
              sel_predictions := _configurationPredictions st1;
              sel_lastTest := _lastTest st1 |} in
         let final :=
           fold_left
             (selectStep (snd optimum) (_tuningIterationsCounter st1)
                         (_maxTuningIterationsWithoutTest st1)
                         (_relativeOptimumRange st1))
             (_searchSpace st1) start in
         match sel_optimal final with
         | [] =>
             Thrown "PredicitveTuning: No possible configuration prediction found!"%string
         | _ =>
             Done
               {| _searchSpace := _searchSpace st1;
                  _currentConfig := begin optimalSearchSpace;
                  _traversalTimesStorage := _traversalTimesStorage st1;
                  _configurationPredictions := sel_predictions final;
                  _optimalSearchSpace := sel_optimal final;
                  _tooLongNotTestedSearchSpace := sel_tooLong final;
                  _validSearchSpace := _validSearchSpace st1;
                  _lastTest := sel_lastTest final;
                  _tuningIterationsCounter := _tuningIterationsCounter st1;
                  _iterationBeginTuningPhase := _iterationBeginTuningPhase st1;
                  _validConfigurationFound := _validConfigurationFound st1;
                  _relativeOptimumRange := _relativeOptimumRange st1;
                  _maxTuningIterationsWithoutTest :=
                    _maxTuningIterationsWithoutTest st1 |}
         end)).

(** [reset(iteration)]: the [size_t] argument is stored in an
    [unsigned int]. *)
Definition reset (st : t) (iteration : Z) : outcome t :=
  selectOptimalSearchSpace
    {| _searchSpace := _searchSpace st;
       _currentConfig := _currentConfig st;
       _traversalTimesStorage := _traversalTimesStorage st;
       _configurationPredictions := ∅;
       _optimalSearchSpace := [];
       _tooLongNotTestedSearchSpace := [];
       _validSearchSpace := _searchSpace st;
       _lastTest := _lastTest st;
       _tuningIterationsCounter := _tuningIterationsCounter st;
       _iterationBeginTuningPhase := wrap32 iteration;
       _validConfigurationFound := false;
       _relativeOptimumRange := _relativeOptimumRange st;
       _maxTuningIterationsWithoutTest := _maxTuningIterationsWithoutTest st |}.

(** The elements of the set an iterator walks, and the configuration
    under the iterator; dereferencing [end()] is undefined. *)
Definition elements (st : t) (s : SetName) : list Configuration :=
  match s with
  | searchSpace => _searchSpace st
  | optimalSearchSpace => _optimalSearchSpace st
  | tooLongNotTestedSearchSpace => _tooLongNotTestedSearchSpace st
  end.

Definition getCurrentConfiguration (st : t) : outcome Configuration :=
  defined (elements st (host (_currentConfig st))
             !! position (_currentConfig st)).

(** The conversion of an integer value to [long]. *)
Definition to_long (z : Z) : Z := (z + 2 ^ 63) mod 2 ^ 64 - 2 ^ 63.

(** [addEvidence(time, iteration)]; [operator[]] of
    [_traversalTimesStorage] inserts an empty vector for a new key. *)
Definition addEvidence (st : t) (time iteration : Z) : outcome t :=
  bind_outcome (getCurrentConfiguration st) (fun c =>
    let vector := default [] (_traversalTimesStorage st !! c) in
    Done
      {| _searchSpace := _searchSpace st;
         _currentConfig := _currentConfig st;
         _traversalTimesStorage :=
           <[c := vector ++ [(iteration, time)]]> (_traversalTimesStorage st);
         _configurationPredictions := _configurationPredictions st;
         _optimalSearchSpace := _optimalSearchSpace st;
         _tooLongNotTestedSearchSpace := _tooLongNotTestedSearchSpace st;
         _validSearchSpace := _validSearchSpace st;
         _lastTest := <[c := _tuningIterationsCounter st]> (_lastTest st);
         _tuningIterationsCounter := _tuningIterationsCounter st;
         _iterationBeginTuningPhase := _iterationBeginTuningPhase st;
         _validConfigurationFound := _validConfigurationFound st;
         _relativeOptimumRange := _relativeOptimumRange st;
         _maxTuningIterationsWithoutTest :=
           _maxTuningIterationsWithoutTest st |}).

(** [getEvidence(configuration)]: [at] throws [std::out_of_range] for a
    configuration without an entry; the [long] sum is divided by the
    [size_t] number of samples as an [unsigned long], and by zero when
    the vector is empty. *)
Definition getEvidence (st : t) (configuration : Configuration) : outcome Z :=
  match _traversalTimesStorage st !! configuration with
  | None => Thrown "std::out_of_range"%string
  | Some times =>
      let result :=
        fold_left (fun result time => to_long (result + snd time)) times 0 in
      if vsize times =? 0 then Undefined
      else Done (to_long (wrap64 result / vsize times))
  end.

End PredictiveTuning.
End PredictiveTuning.

(** ** C08BasedTraversal *)

(** [std::array<unsigned long, 3>] *)
Definition index3 : Set := (Z * Z * Z)%type.

Module ThreeDimensionalMapping.

(** Modelled from the spec: [threeToOneD] (utils/ThreeDimensionalMapping.h
    is not part of the sources), the 3D to 1D index mapping of the cell
    block, x running fastest, in [unsigned long] arithmetic. *)
Definition threeToOneD (x y z : Z) (dims : index3) : Z :=
  let '(dimsX, dimsY, _) := dims in
  size_add (size_mul (size_add (size_mul z dimsY) y) dimsX) x.

End ThreeDimensionalMapping.

Module C08BasedTraversal.

(** A task handed to the cell functor. *)
Inductive Task : Set :=
| processCell (cell : Z)
| processCellPair (cell1 cell2 : Z).

(** The traversal object: the cell vector enters only through its size,
    which [std::vector::at] checks. *)
Record t : Set := mk {
  numCells : Z;
  _cellsPerDimension : index3;
  _cellPairOffsets : list (Z * Z);
  _cellOffsets : list Z
}.

Definition computeOffsets (dims : index3) : list (Z * Z) * list Z :=
  let o := ThreeDimensionalMapping.threeToOneD 0 0 0 dims in
  let x := ThreeDimensionalMapping.threeToOneD 1 0 0 dims in
  let y := ThreeDimensionalMapping.threeToOneD 0 1 0 dims in
  let z := ThreeDimensionalMapping.threeToOneD 0 0 1 dims in
  let xy := ThreeDimensionalMapping.threeToOneD 1 1 0 dims in
  let yz := ThreeDimensionalMapping.threeToOneD 0 1 1 dims in
  let xz := ThreeDimensionalMapping.threeToOneD 1 0 1 dims in
  let xyz := ThreeDimensionalMapping.threeToOneD 1 1 1 dims in
  ([ (o, o); (o, y); (y, z); (o, z); (o, yz);
     (x, yz); (x, y); (x, z); (o, x); (o, xy); (xy, z); (y, xz); (o, xz);
     (o, xyz) ],
   [ o; y; z; yz; x; xy; xz; xyz ]).

(** The constructor, for a vector of [cells] cells. *)
Definition make (cells : Z) (dims : index3) : t :=
  let '(pairs, singles) := computeOffsets dims in
  {| numCells := cells; _cellsPerDimension := dims;
     _cellPairOffsets := pairs; _cellOffsets := singles |}.

(** [_cells->at(index)] *)
Definition at_ (tr : t) (index : Z) : outcome Z :=
  if index <? numCells tr then Done index
  else Thrown "vector::_M_range_check"%string.

(** One round of the loop of [processBaseCell]. *)
Definition processPair (tr : t) (baseIndex : Z) (current_pair : Z * Z)
    : outcome Task :=
  let offset1 := fst current_pair in
  let cellIndex1 := size_add baseIndex offset1 in
  let offset2 := snd current_pair in
  let cellIndex2 := size_add baseIndex offset2 in
  bind_outcome (at_ tr cellIndex1) (fun cell1 =>
  bind_outcome (at_ tr cellIndex2) (fun cell2 =>
    if cellIndex1 =? cellIndex2 then Done (processCell cell1)
    else Done (processCellPair cell1 cell2))).

(** The tasks of [rounds], appended to those already done. *)
Definition runTasks {A : Type} (round : A -> outcome (list Task)) (rounds : list A)
    : outcome (list Task) :=
  fold_left
    (fun done a =>
       bind_outcome done (fun tasks =>
       bind_outcome (round a) (fun more => Done (tasks ++ more))))
    rounds (Done []).

(** [processBaseCell]: the tasks it hands to the cell functor, in order. *)
Definition processBaseCell (tr : t) (baseIndex : Z) : outcome (list Task) :=
  runTasks
    (fun current_pair =>
       bind_outcome (processPair tr baseIndex current_pair)
                    (fun task => Done [task]))
    (_cellPairOffsets tr).

(** Modelled from the spec: the loop that applies the base step "at
    every cell in a range", which the traversals derived from this class
    hold and the sources do not: the base cells are the cells below
    [cellsPerDimension - 1] in every dimension, the bound [end] that
    [c08Traversal] of C08BasedKokkosTraversal computes with an overlap of
    one cell; the colours only fix the order of the base cells. *)
Definition baseCells (dims : index3) : list index3 :=
  let '(dimsX, dimsY, dimsZ) := dims in
  z ← seqZ 0 (dimsZ - 1);
  y ← seqZ 0 (dimsY - 1);
  x ← seqZ 0 (dimsX - 1);
  [(x, y, z)].

Definition traverseCellPairs (tr : t) : outcome (list Task) :=
  runTasks
    (fun '(x, y, z) =>
       processBaseCell tr
         (ThreeDimensionalMapping.threeToOneD x y z (_cellsPerDimension tr)))
    (baseCells (_cellsPerDimension tr)).

(** Two tasks are the same task when they are for the same cell, or for
    the same two cells in either order. *)
Definition sameTask (t u : Task) : bool :=
  match t, u with
  | processCell a, processCell b => a =? b
  | processCellPair a b, processCellPair c d =>
      ((a =? c) && (b =? d)) || ((a =? d) && (b =? c))
  | _, _ => false
  end.

Definition occurrences (t : Task) (schedule : list Task) : nat :=
  length (List.filter (sameTask t) schedule).

End C08BasedTraversal.

(** ** ReferenceLinkedCells *)

Module ReferenceLinkedCells.

(** [for (size_t v = start; v <= stop; ++v)]: the values the bodies
    produce, in order.  With the largest [size_t] as [stop] the loop
    does not end, [None]. *)
Definition forInclusive {A : Type} (start stop : Z)
    (body : Z -> option (list A)) : option (list A) :=
  if stop <? start then Some []
  else if stop =? 2 ^ 64 - 1 then None
  else @concat A <$> mapM body (seqZ start (stop + 1 - start)).

(** [cellsOfInterest[i++] = cell] with the [int] counter [i]; an index
    that is not one of the vector is undefined, [None]. *)
Definition store (acc : option (list Z * Z)) (cell : Z) : option (list Z * Z) :=
  '(cellsOfInterest, i) ← acc;
  if wrap64 i <? vsize cellsOfInterest then
    Some (<[Z.to_nat (wrap64 i) := cell]> cellsOfInterest, to_int (i + 1))
  else None.

(** The vector [cellsOfInterest] that [getRegionIterator] hands to the
    region iterator, from the 3D indices of the two corners of the
    region. *)
Definition cellsOfInterest (startIndex3D stopIndex3D : index3)
    (cellsPerDimensionWithHalo : index3) : option (list Z) :=
  let '(start0, start1, start2) := startIndex3D in
  let '(stop0, stop1, stop2) := stopIndex3D in
  let numCellsOfInterest :=
    size_mul (size_mul (size_add (size_sub stop0 start0) 1)
                       (size_add (size_sub stop1 start1) 1))
             (size_add (size_sub stop2 start2) 1) in
  let cellsOfInterest := replicate (Z.to_nat numCellsOfInterest) 0 in
  cells ←
    forInclusive start2 stop2 (fun z =>
      forInclusive start1 stop1 (fun y =>
        forInclusive start0 stop0 (fun x =>
          Some [ThreeDimensionalMapping.threeToOneD x y z
                  cellsPerDimensionWithHalo])));
  fst <$> fold_left store cells (Some (cellsOfInterest, 0)).

End ReferenceLinkedCells.

(** ** DomainTools *)

Module DomainTools.

(** [std::array<int, 3>]: element [i], and the array with element [i]
    replaced.  [int] results are reduced with [to_int]; C++ leaves a
    result outside [int] undefined, and the properties below assume the
    values stay in range. *)
Definition get3 (a : index3) (i : Z) : Z :=
  let '(a0, a1, a2) := a in
  if i =? 0 then a0 else if i =? 1 then a1 else a2.

Definition set3 (a : index3) (i v : Z) : index3 :=
  let '(a0, a1, a2) := a in
  if i =? 0 then (v, a1, a2) else if i =? 1 then (a0, v, a2) else (a0, a1, v).

(** [std::accumulate(decomposition.begin() + index + 1,
    decomposition.end(), 1, std::multiplies<>())] for [index < 2], and 1
    otherwise. *)
Definition getAccumulatedTail (index : Z) (decomposition : index3) : Z :=
  if index <? 3 - 1 then
    fold_left (fun acc i => to_int (acc * get3 decomposition i))
              (seqZ (index + 1) (3 - (index + 1))) 1
  else 1.

Definition convertIdToIndex (domainId decomposition : index3) : Z :=
  fold_left
    (fun domainIndex i =>
       to_int (domainIndex
               + to_int (getAccumulatedTail i decomposition * get3 domainId i)))
    (seqZ 0 3) 0.

(** The division is the truncating division of [int]; by zero it is
    undefined. *)
Definition convertIndexToId (domainIndex : Z) (decomposition : index3)
    : option index3 :=
  '(_, id) ←
    fold_left
      (fun acc i =>
         '(domainIndex, id) ← acc;
         let accumulatedTail := getAccumulatedTail i decomposition in
         if accumulatedTail =? 0 then None
         else
           let id' := set3 id i (to_int (Z.quot domainIndex accumulatedTail)) in
           Some (to_int (domainIndex - to_int (accumulatedTail * get3 id' i)),
                 id'))
      (seqZ 0 3) (Some (domainIndex, (0, 0, 0)));
  Some id.

(** [std::array<int, 6>] as the list of its six elements. *)
Definition getExtentOfSubdomain (subdomainIndex : Z) (decomposition : index3)
    : option (list Z) :=
  subdomainId ← convertIndexToId subdomainIndex decomposition;
  Some (fold_left
          (fun extentOfSubdomain i =>
             <[Z.to_nat (2 * i + 1) := to_int (get3 subdomainId i + 1)]>
               (<[Z.to_nat (2 * i) := get3 subdomainId i]> extentOfSubdomain))
          (seqZ 0 3) (replicate 6 0)).

(** [isInsideDomain]: the loop leaves at the first dimension outside. *)
Definition isInsideDomain (coordinates boxMin boxMax : array3) : bool :=
  let '(c0, c1, c2) := coordinates in
  let '(l0, l1, l2) := boxMin in
  let '(h0, h1, h2) := boxMax in
  fold_left
    (fun isInsideLocalDomain '(c, l, h) =>
       if negb isInsideLocalDomain then isInsideLocalDomain
       else PrimFloat.leb l c && PrimFloat.ltb c h)
    [(c0, l0, h0); (c1, l1, h1); (c2, l2, h2)] true.

(** The loops of [generateDecomposition] run on fuel: [None] when it
    runs out before the loop is left.

    [while (subdomainCount % 2 == 0)], on an [unsigned int]. *)
Fixpoint factorsOfTwo (fuel : nat) (subdomainCount : Z) (primeFactors : list Z)
    : option (Z * list Z) :=
  match fuel with
  | O => None
  | S fuel' =>
      if subdomainCount mod 2 =? 0 then
        factorsOfTwo fuel' (subdomainCount / 2) (primeFactors ++ [2])
      else Some (subdomainCount, primeFactors)
  end.

(** [for (int i = 3; i <= subdomainCount; i = i + 2)] with its inner
    [while (subdomainCount % i == 0)]: one step is one test of either
    condition.  The [int] counter is converted to [unsigned int] where it
    meets [subdomainCount]. *)
Fixpoint oddFactors (fuel : nat) (i subdomainCount : Z) (primeFactors : list Z)
    : option (Z * list Z) :=
  match fuel with
  | O => None
  | S fuel' =>
      if wrap32 i <=? subdomainCount then
        if wrap32 i =? 0 then None
        else if subdomainCount mod wrap32 i =? 0 then
          oddFactors fuel' i (subdomainCount / wrap32 i) (primeFactors ++ [i])
        else oddFactors fuel' (to_int (i + 2)) subdomainCount primeFactors
      else Some (subdomainCount, primeFactors)
  end.

(** [while (primeFactors.size() > 3)]: sort, take the smallest factor off
    the front and multiply the new front by it.  On a list of fewer than
    two elements [front()] after [pop_front()] is undefined. *)
Fixpoint reduceFactors (fuel : nat) (primeFactors : list Z) : option (list Z) :=
  match fuel with
  | O => None
  | S fuel' =>
      if 3 <? vsize primeFactors then
        match merge_sort Z.le primeFactors with
        | firstElement :: front :: rest =>
            reduceFactors fuel' (to_int (front * firstElement) :: rest)
        | _ => None
        end
      else Some primeFactors
  end.

(** The last loop: a dimension takes the front factor, or 1 when none is
    left. *)
Definition popFront (primeFactors : list Z) : Z * list Z :=
  match primeFactors with
  | dimensionSize :: rest => (dimensionSize, rest)
  | [] => (1, [])
  end.

Definition generateDecomposition (fuel : nat) (subdomainCount : Z)
    : option index3 :=
  '(subdomainCount1, primeFactors1) ← factorsOfTwo fuel subdomainCount [];
  '(_, primeFactors2) ← oddFactors fuel 3 subdomainCount1 primeFactors1;
  primeFactors3 ← reduceFactors fuel primeFactors2;
  let '(d0, rest0) := popFront primeFactors3 in
  let '(d1, rest1) := popFront rest0 in
  let '(d2, _) := popFront rest1 in
  Some (d0, d1, d2).

End DomainTools.

(** * Part II: properties *)

(** ** FlopCounterFunctor *)

Lemma wrap64_small (z : Z) : 0 <= z < 2 ^ 64 -> wrap64 z = z.
Proof. intros H. unfold wrap64. apply Z.mod_small. exact H. Qed.


Lemma fetch_add_one_exact (c : Z) :
  0 <= c < 2 ^ 64 - 1 -> FlopCounterFunctor.fetch_add c 1 = c + 1.
Proof.
  intros H. unfold FlopCounterFunctor.fetch_add, size_add.
  apply wrap64_small. lia.
Qed.


(** A pair at distance exactly the cutoff is a kernel call, and on
    counters below their maximum the increments are by one. *)
Example flop_boundary :
  FlopCounterFunctor.getKernelCalls
    (FlopCounterFunctor.AoSFunctor
       (FlopCounterFunctor.make 1%float)
       (newParticle (0, 0, 0)%float (0, 0, 0)%float 0)
       (newParticle (1, 0, 0)%float (0, 0, 0)%float 1) true) = 1.
Proof. vm_compute. reflexivity. Qed.

Example flop_far_pair :
  let f := FlopCounterFunctor.AoSFunctor
       (FlopCounterFunctor.make 1%float)
       (newParticle (0, 0, 0)%float (0, 0, 0)%float 0)
       (newParticle (1, 0.5, 0)%float (0, 0, 0)%float 1) false in
  FlopCounterFunctor.getDistanceCalculations f = 1 /\
  FlopCounterFunctor.getKernelCalls f = 0.
Proof. vm_compute. split; reflexivity. Qed.

(** ** ParticleClassLibrary *)

(** C9: for type ids present in the library, [mixingE] returns the square
    root of the sum of the two epsilons and [mixing24E] 24 times that,
    whereas the rule the test implements is the square root of the
    product. *)
Theorem mixingE_is_sqrt_of_sum (lib : ParticleClassLibrary.t) (i j : Z)
    (ei ej : double) :
  ParticleClassLibrary.Epsilon lib !! i = Some ei ->
  ParticleClassLibrary.Epsilon lib !! j = Some ej ->
  ParticleClassLibrary.mixingE lib i j
    = Some (PrimFloat.sqrt (PrimFloat.add ei ej)) /\
  ParticleClassLibrary.mixing24E lib i j
    = Some (PrimFloat.mul 24%float (PrimFloat.sqrt (PrimFloat.add ei ej))) /\
  ParticlePropertiesLibraryTest.mixingE ei ej
    = PrimFloat.sqrt (PrimFloat.mul ei ej).
Proof.
  intros Hi Hj.
  unfold ParticleClassLibrary.mixingE, ParticleClassLibrary.mixing24E,
    ParticleClassLibrary.at_.
  rewrite Hi, Hj. cbn. auto.
Qed.

Definition two_types : ParticleClassLibrary.t :=
  {| ParticleClassLibrary.Epsilon := <[0 := 1%float]> (<[1 := 4%float]> ∅);
     ParticleClassLibrary.Sigma := <[0 := 1%float]> (<[1 := 2%float]> ∅);
     ParticleClassLibrary.Mass := <[0 := 1%float]> (<[1 := 1%float]> ∅) |}.

Lemma mixingE_is_sqrt_of_sum_witness :
  ParticleClassLibrary.mixingE two_types 0 1
    = Some (PrimFloat.sqrt (PrimFloat.add 1%float 4%float)) /\
  ParticleClassLibrary.mixing24E two_types 0 1
    = Some (PrimFloat.mul 24%float
              (PrimFloat.sqrt (PrimFloat.add 1%float 4%float))) /\
  ParticlePropertiesLibraryTest.mixingE 1%float 4%float
    = PrimFloat.sqrt (PrimFloat.mul 1%float 4%float).
Proof.
  apply (mixingE_is_sqrt_of_sum two_types 0 1 1%float 4%float);
    vm_compute; reflexivity.
Defined.

(** On the library above the two rules give different numbers: the
    library returns sqrt 5, the test expects 2. *)
Example mixing_rules_differ :
  ParticleClassLibrary.mixingE two_types 0 1
    = Some (PrimFloat.sqrt 5%float) /\
  ParticlePropertiesLibraryTest.mixingE 1%float 4%float = 2%float /\
  PrimFloat.eqb (PrimFloat.sqrt 5%float) 2%float = false.
Proof. vm_compute. repeat split; reflexivity. Qed.

(** ** DirectSum *)

Definition not_in_box_message : string :=
  "DirectSum: trying to add particle that is not in the bounding box".

Definition not_outside_message : string :=
  "DirectSum: trying to add particle that is not OUTSIDE of the bounding box".

(** C8 (as amended): [addParticle] raises exactly when the position is
    outside the half-open box and otherwise appends to the owned cell;
    [addHaloParticle] raises exactly when the position is inside and
    otherwise appends to the halo cell; when a call raises, the container
    is the one it was called on and the diagnostic is a fixed text that
    names the violated invariant, the same for every particle. *)
Theorem directsum_add_contract (c : DirectSum.t) (p : Particle) :
  let inside := inBox (getR p) (DirectSum.getBoxMin c) (DirectSum.getBoxMax c) in
  let r := DirectSum.addParticle c p in
  let h := DirectSum.addHaloParticle c p in
  (DirectSum.raised r <> None <-> inside = false) /\
  (DirectSum.raised h <> None <-> inside = true) /\
  (if inside then
     DirectSum.raised r = None /\
     DirectSum.getCell (DirectSum.container r) = DirectSum.getCell c ++ [p] /\
     DirectSum.getHaloCell (DirectSum.container r) = DirectSum.getHaloCell c /\
     DirectSum.raised h = Some not_outside_message /\
     DirectSum.container h = c
   else
     DirectSum.raised h = None /\
     DirectSum.getHaloCell (DirectSum.container h)
       = DirectSum.getHaloCell c ++ [p] /\
     DirectSum.getCell (DirectSum.container h) = DirectSum.getCell c /\
     DirectSum.raised r = Some not_in_box_message /\
     DirectSum.container r = c).
Proof.
  cbv zeta. unfold DirectSum.addParticle, DirectSum.addHaloParticle.
  destruct (inBox (getR p) (DirectSum.getBoxMin c) (DirectSum.getBoxMax c));
    cbn; repeat split; try congruence; try discriminate; auto.
Qed.

Definition unit_box : DirectSum.t :=
  DirectSum.make (0, 0, 0)%float (1, 1, 1)%float 1%float.

(** The claim as stated asks for a diagnostic that carries the particle
    id and position.  Two particles with different ids at different
    positions outside the box raise the same text, and so do two
    different particles inside the box when added as halo particles. *)
Lemma directsum_diagnostic_is_constant :
  let p1 := newParticle (5, 5, 5)%float (0, 0, 0)%float 7 in
  let p2 := newParticle (9, 2, 3)%float (0, 0, 0)%float 8 in
  let q1 := newParticle (0.5, 0.5, 0.5)%float (0, 0, 0)%float 7 in
  let q2 := newParticle (0.25, 0, 0)%float (0, 0, 0)%float 8 in
  getID p1 <> getID p2 /\
  DirectSum.raised (DirectSum.addParticle unit_box p1)
    = Some not_in_box_message /\
  DirectSum.raised (DirectSum.addParticle unit_box p2)
    = Some not_in_box_message /\
  DirectSum.raised (DirectSum.addHaloParticle unit_box q1)
    = Some not_outside_message /\
  DirectSum.raised (DirectSum.addHaloParticle unit_box q2)
    = Some not_outside_message.
Proof. vm_compute. repeat split; try reflexivity. discriminate. Qed.

(** ** ClusterTower *)

#[local] Arguments ClusterTower.sortByDim : simpl never.

Lemma length_insertByDim (dim : Z) (p : Particle) (l : list Particle) :
  length (ClusterTower.insertByDim dim p l) = S (length l).
Proof.
  induction l as [|q l IH]; cbn.
  - reflexivity.
  - destruct (PrimFloat.ltb _ _); cbn; [reflexivity | now rewrite IH].
Qed.

Lemma length_sortByDim_acc (dim : Z) (l acc : list Particle) :
  length (fold_left (fun a p => ClusterTower.insertByDim dim p a) l acc)
    = (length l + length acc)%nat.
Proof.
  revert acc. induction l as [|p l IH]; intros acc; cbn.
  - reflexivity.
  - rewrite IH, length_insertByDim. lia.
Qed.

Lemma length_sortByDim (dim : Z) (l : list Particle) :
  length (ClusterTower.sortByDim dim l) = length l.
Proof.
  unfold ClusterTower.sortByDim. rewrite length_sortByDim_acc. cbn. lia.
Qed.

Lemma vsize_sortByDim (dim : Z) (l : list Particle) :
  vsize (ClusterTower.sortByDim dim l) = vsize l.
Proof. unfold vsize. now rewrite length_sortByDim. Qed.

Lemma fold_addParticle (ps acc : list Particle) (cs : list ClusterTower.Cluster)
    (d : Z) :
  fold_left ClusterTower.addParticle ps (ClusterTower.mk cs acc d)
    = ClusterTower.mk cs (acc ++ ps) d.
Proof.
  revert acc. induction ps as [|p ps IH]; intros acc; cbn.
  - now rewrite app_nil_r.
  - unfold ClusterTower.addParticle at 2. cbn. rewrite IH.
    now rewrite <- app_assoc.
Qed.

Lemma filled_eq (tw0 : ClusterTower.t) (ps : list Particle) :
  ClusterTower.filled tw0 ps = ClusterTower.mk [] ps 0.
Proof. unfold ClusterTower.filled, ClusterTower.clear. apply fold_addParticle. Qed.

(** The padding a tower of [N] particles needs. *)
Definition padding (N : Z) : Z := (4 - N mod 4) mod 4.

Lemma padding_range (N : Z) : 0 <= padding N < 4.
Proof. unfold padding. apply Z.mod_pos_bound. lia. Qed.

Lemma padding_div (N : Z) : 0 <= N -> (N + padding N) / 4 = (N + 3) / 4.
Proof. intros H. unfold padding. Z.div_mod_to_equations. lia. Qed.

Lemma padding_mul (N : Z) : 0 <= N -> N + padding N = 4 * ((N + 3) / 4).
Proof. intros H. unfold padding. Z.div_mod_to_equations. lia. Qed.

(** What [generateClusters] leaves behind on a tower filled with [ps]. *)
Lemma generateClusters_filled (tw0 : ClusterTower.t) (ps : list Particle) :
  ps <> [] -> vsize ps + 3 < 2 ^ 64 ->
  exists lastParticle,
    ClusterTower.sortByDim 2 ps !! (length ps - 1)%nat = Some lastParticle /\
    ClusterTower.generateClusters (ClusterTower.filled tw0 ps)
      = Some
          ({| ClusterTower._clusters :=
                map (fun index => ClusterTower.mkCluster (4 * index))
                    (seqZ 0 ((vsize ps + 3) / 4));
              ClusterTower._particles :=
                ClusterTower.sortByDim 2 ps ++
                replicate (Z.to_nat (padding (vsize ps))) lastParticle;
              ClusterTower._numDummyParticles := padding (vsize ps) |},
           (vsize ps + 3) / 4).
Proof.
  intros Hne Hsz. rewrite filled_eq.
  assert (HN : 1 <= vsize ps).
  { unfold vsize. destruct ps; [congruence | cbn; lia]. }
  destruct (lookup_lt_is_Some_2 (ClusterTower.sortByDim 2 ps) (length ps - 1)%nat)
    as [lastP HlastP].
  { rewrite length_sortByDim. unfold vsize in HN. lia. }
  exists lastP. split; [exact HlastP|].
  unfold ClusterTower.generateClusters, ClusterTower.getNumActualParticles,
    ClusterTower.getNumClusters. cbn.
  unfold size_sub. rewrite Z.sub_0_r, (wrap64_small (vsize ps)) by lia.
  destruct (0 <? vsize ps) eqn:Hpos; [|apply Z.ltb_ge in Hpos; lia].
  rewrite vsize_sortByDim.
  rewrite (wrap64_small (vsize ps - 1)) by lia.
  replace (Z.to_nat (vsize ps - 1)) with (length ps - 1)%nat
    by (unfold vsize; lia).
  rewrite HlastP. cbn.
  assert (Hd : (if negb (vsize ps mod ClusterTower.clusterSize =? 0)
                then wrap64 (ClusterTower.clusterSize
                             - vsize ps mod ClusterTower.clusterSize)
                else 0) = padding (vsize ps)).
  { unfold ClusterTower.clusterSize, padding.
    destruct (vsize ps mod 4 =? 0) eqn:E; cbn.
    - apply Z.eqb_eq in E. rewrite E. reflexivity.
    - apply Z.eqb_neq in E.
      assert (0 <= vsize ps mod 4 < 4) by (apply Z.mod_pos_bound; lia).
      rewrite wrap64_small by lia.
      symmetry. apply Z.mod_small. lia. }
  rewrite Hd.
  pose proof (padding_range (vsize ps)) as Hpr.
  assert (Hlen : vsize (ClusterTower.sortByDim 2 ps ++
                        replicate (Z.to_nat (padding (vsize ps))) lastP)
                 = vsize ps + padding (vsize ps)).
  { unfold vsize in *. rewrite length_app, length_replicate, length_sortByDim. lia. }
  rewrite Hlen. unfold ClusterTower.clusterSize.
  rewrite padding_div by lia.
  assert (Hmap : map (fun index => ClusterTower.mkCluster (size_mul 4 index))
                     (seqZ 0 ((vsize ps + 3) / 4))
                 = map (fun index => ClusterTower.mkCluster (4 * index))
                       (seqZ 0 ((vsize ps + 3) / 4))).
  { apply map_ext_in. intros k Hk. apply list_elem_of_In, elem_of_seqZ in Hk.
    unfold size_mul. rewrite wrap64_small; [reflexivity|].
    Z.div_mod_to_equations. lia. }
  rewrite Hmap. f_equal. f_equal.
  unfold vsize. rewrite length_map, length_seqZ.
  rewrite Z2Nat.id; [reflexivity|]. Z.div_mod_to_equations. lia.
Qed.


Definition five_particles : list Particle :=
  [ newParticle (0, 0, 5)%float (0, 0, 0)%float 1;
    newParticle (0, 0, 3)%float (0, 0, 0)%float 2;
    newParticle (0, 0, 4)%float (0, 0, 0)%float 3;
    newParticle (0, 0, 1)%float (0, 0, 0)%float 4;
    newParticle (0, 0, 2)%float (0, 0, 0)%float 5 ].


(** The tower of the five particles above, evaluated. *)
Example generateClusters_five :
  match ClusterTower.generateClusters
          (ClusterTower.filled (ClusterTower.mk [] [] 0) five_particles) with
  | Some (tw, n) =>
      n = 2 /\
      map getID (ClusterTower._particles tw) = [4; 5; 2; 3; 1; 1; 1; 1] /\
      ClusterTower.getNumDummyParticles tw = 3 /\
      ClusterTower.getNumActualParticles tw = 5
  | None => False
  end.
Proof. vm_compute. repeat split; reflexivity. Qed.

(** The position [fillUpWithDummyParticles] gives the dummy written in
    round [index] of its loop. *)
Definition dummyAt (dummyStartX dummyDistZ : double) (index : Z) : Particle :=
  setR ClusterTower.dummy
       (dummyStartX, 0%float,
        PrimFloat.mul dummyDistZ (ClusterTower.to_double index)).

Lemma fillSlot_in_range (lc : ClusterTower.Cluster) (x dz : double)
    (ps : list Particle) (index : Z) (slot : nat) :
  slot = Z.to_nat (size_add (ClusterTower.firstParticle lc)
                            (size_sub ClusterTower.clusterSize index)) ->
  (slot < length ps)%nat ->
  ClusterTower.fillSlot lc x dz (Some ps) index
    = Some (<[slot := dummyAt x dz index]> ps).
Proof.
  intros -> Hlt. unfold ClusterTower.fillSlot. cbn.
  destruct (lookup_lt_is_Some_2 ps _ Hlt) as [q Hq]. rewrite Hq. cbn.
  rewrite list_lookup_insert_eq by exact Hlt. cbn.
  rewrite list_insert_insert_eq. reflexivity.
Qed.

(** The loop of [fillUpWithDummyParticles], run for [n <= 4] rounds on a
    vector whose last four slots are the last cluster. *)
Lemma fill_loop (lc : ClusterTower.Cluster) (x dz : double)
    (ps : list Particle) (n : nat) :
  4 <= vsize ps < 2 ^ 64 ->
  ClusterTower.firstParticle lc = vsize ps - 4 ->
  (n <= 4)%nat ->
  exists ps',
    fold_left (ClusterTower.fillSlot lc x dz) (seqZ 1 (Z.of_nat n)) (Some ps)
      = Some ps' /\
    length ps' = length ps /\
    (forall k, 1 <= k <= Z.of_nat n ->
       ps' !! Z.to_nat (vsize ps - k) = Some (dummyAt x dz k)) /\
    (forall i, Z.of_nat i < vsize ps - Z.of_nat n -> ps' !! i = ps !! i).
Proof.
  intros Hsz Hfirst. induction n as [|n IH]; intros Hn.
  - exists ps. cbn. repeat split; auto. intros k Hk. lia.
  - destruct IH as (ps1 & Hfold & Hlen & Hdum & Hkeep); [lia|].
    rewrite seqZ_S, fold_left_app, Hfold. cbn [fold_left].
    set (slot := Z.to_nat (vsize ps - (1 + Z.of_nat n))).
    assert (Hslot : slot = Z.to_nat
              (size_add (ClusterTower.firstParticle lc)
                        (size_sub ClusterTower.clusterSize (1 + Z.of_nat n)))).
    { unfold slot, size_add, size_sub, ClusterTower.clusterSize.
      rewrite Hfirst.
      rewrite (wrap64_small (4 - (1 + Z.of_nat n))) by lia.
      rewrite wrap64_small by lia. f_equal. lia. }
    assert (Hlt : (slot < length ps1)%nat).
    { rewrite Hlen. unfold slot, vsize in *. lia. }
    rewrite (fillSlot_in_range lc x dz ps1 _ slot Hslot Hlt).
    eexists. split; [reflexivity|].
    split; [rewrite length_insert; exact Hlen|].
    split.
    + intros k Hk.
      destruct (Z.eq_dec k (1 + Z.of_nat n)) as [-> | Hne].
      * fold slot. apply list_lookup_insert_eq. exact Hlt.
      * rewrite list_lookup_insert_ne.
        -- apply Hdum. lia.
        -- unfold slot, vsize in *. lia.
    + intros i Hi. rewrite list_lookup_insert_ne.
      * apply Hkeep. lia.
      * unfold slot, vsize in *. lia.
Qed.

(** C4 (as amended): on a tower filled with N >= 1 particles and
    clustered, [fillUpWithDummyParticles dummyStartX dummyDistZ] succeeds,
    leaves the sorted particles where they are, and writes into the k-th
    slot from the end, for every k from 1 to the number of dummies, the
    dummy prototype moved to the position
    (dummyStartX, 0, dummyDistZ * k): the position of a padding dummy is
    set by the two arguments and its y coordinate is 0. *)
Theorem fillUp_dummy_positions (tw0 : ClusterTower.t) (ps : list Particle)
    (dummyStartX dummyDistZ : double) :
  ps <> [] -> vsize ps + 3 < 2 ^ 64 ->
  exists (tw' tw'' : ClusterTower.t) (n : Z),
    ClusterTower.generateClusters (ClusterTower.filled tw0 ps) = Some (tw', n) /\
    ClusterTower.fillUpWithDummyParticles tw' dummyStartX dummyDistZ
      = Some tw'' /\
    ClusterTower._clusters tw'' = ClusterTower._clusters tw' /\
    ClusterTower.getNumDummyParticles tw''
      = ClusterTower.getNumDummyParticles tw' /\
    vsize (ClusterTower._particles tw'') = vsize (ClusterTower._particles tw') /\
    (forall k, 1 <= k <= ClusterTower.getNumDummyParticles tw' ->
       exists d,
         ClusterTower._particles tw''
           !! Z.to_nat (vsize (ClusterTower._particles tw') - k) = Some d /\
         getR d = (dummyStartX, 0%float,
                   PrimFloat.mul dummyDistZ (ClusterTower.to_double k)) /\
         getV d = (0, 0, 0)%float /\ getID d = 0) /\
    (forall i, (i < length ps)%nat ->
       ClusterTower._particles tw'' !! i = ClusterTower.sortByDim 2 ps !! i).
Proof.
  intros Hne Hsz.
  destruct (generateClusters_filled tw0 ps Hne Hsz) as (lastP & Hlast & Hgen).
  assert (HN : 1 <= vsize ps).
  { unfold vsize. destruct ps; [congruence | cbn; lia]. }
  pose proof (padding_range (vsize ps)) as Hpr.
  pose proof (padding_mul (vsize ps) ltac:(lia)) as Hmul.
  set (d := padding (vsize ps)) in *.
  set (q := (vsize ps + 3) / 4) in *.
  set (padded := ClusterTower.sortByDim 2 ps ++ replicate (Z.to_nat d) lastP) in *.
  assert (Hlen : vsize padded = vsize ps + d).
  { unfold padded, vsize in *.
    rewrite length_app, length_replicate, length_sortByDim. lia. }
  assert (Hq : 1 <= q) by (unfold q; Z.div_mod_to_equations; lia).
  eexists. 
  destruct (Z.eq_dec d 0) as [Hd0 | Hdpos].
  - (* no dummy: nothing is written *)
    eexists. exists q. split; [exact Hgen|].
    unfold ClusterTower.fillUpWithDummyParticles.
    cbn [ClusterTower._numDummyParticles]. rewrite Hd0. cbn [Z.eqb].
    split; [reflexivity|]. cbn [ClusterTower._clusters ClusterTower._particles
      ClusterTower.getNumDummyParticles ClusterTower._numDummyParticles].
    split; [reflexivity|]. split; [reflexivity|]. split; [reflexivity|].
    split; [intros k Hk; lia|].
    intros i Hi. unfold padded. apply lookup_app_l.
    rewrite length_sortByDim. exact Hi.
  - pose (lc := ClusterTower.mkCluster (4 * (q - 1))).
    destruct (fill_loop lc dummyStartX dummyDistZ padded (Z.to_nat d))
      as (ps' & Hfold & Hlen' & Hdum & Hkeep).
    { rewrite Hlen. lia. }
    { cbn. rewrite Hlen. lia. }
    { lia. }
    rewrite Z2Nat.id in Hfold, Hdum, Hkeep by lia.
    exists (ClusterTower.mk
              (map (fun index => ClusterTower.mkCluster (4 * index)) (seqZ 0 q))
              ps' d), q.
    split; [exact Hgen|].
    unfold ClusterTower.fillUpWithDummyParticles.
    cbn [ClusterTower._numDummyParticles ClusterTower._clusters
         ClusterTower._particles ClusterTower.getNumDummyParticles].
    destruct (d =? 0) eqn:E; [apply Z.eqb_eq in E; lia|].
    assert (Hlc : map (fun index => ClusterTower.mkCluster (4 * index)) (seqZ 0 q)
                    !! Z.to_nat
                         (size_sub
                            (ClusterTower.getNumClusters
                               (ClusterTower.mk
                                  (map (fun index => ClusterTower.mkCluster (4 * index))
                                       (seqZ 0 q)) padded d)) 1)
                  = Some lc).
    { unfold ClusterTower.getNumClusters, vsize, size_sub.
      cbn [ClusterTower._clusters].
      rewrite length_map, length_seqZ, Z2Nat.id by lia.
      rewrite wrap64_small by lia.
      rewrite list_lookup_fmap.
      rewrite lookup_seqZ_lt by lia. cbn. unfold lc. do 2 f_equal. lia. }
    rewrite Hlc. cbn. rewrite Hfold. cbn.
    split; [reflexivity|]. split; [reflexivity|]. split; [reflexivity|].
    split; [unfold vsize; now rewrite Hlen'|].
    split.
    + intros k Hk. exists (dummyAt dummyStartX dummyDistZ k).
      split; [apply Hdum; exact Hk|]. cbn. auto.
    + intros i Hi. rewrite Hkeep.
      * unfold padded. apply lookup_app_l. rewrite length_sortByDim. exact Hi.
      * rewrite Hlen. unfold vsize. lia.
Qed.

Lemma fillUp_dummy_positions_witness :
  exists (tw' tw'' : ClusterTower.t) (n : Z),
    ClusterTower.generateClusters
      (ClusterTower.filled (ClusterTower.mk [] [] 0) five_particles)
      = Some (tw', n) /\
    ClusterTower.fillUpWithDummyParticles tw' 100%float 2%float = Some tw'' /\
    ClusterTower._clusters tw'' = ClusterTower._clusters tw' /\
    ClusterTower.getNumDummyParticles tw''
      = ClusterTower.getNumDummyParticles tw' /\
    vsize (ClusterTower._particles tw'') = vsize (ClusterTower._particles tw') /\
    (forall k, 1 <= k <= ClusterTower.getNumDummyParticles tw' ->
       exists d,
         ClusterTower._particles tw''
           !! Z.to_nat (vsize (ClusterTower._particles tw') - k) = Some d /\
         getR d = (100%float, 0%float,
                   PrimFloat.mul 2%float (ClusterTower.to_double k)) /\
         getV d = (0, 0, 0)%float /\ getID d = 0) /\
    (forall i, (i < length five_particles)%nat ->
       ClusterTower._particles tw'' !! i
         = ClusterTower.sortByDim 2 five_particles !! i).
Proof.
  apply (fillUp_dummy_positions (ClusterTower.mk [] [] 0) five_particles
           100%float 2%float).
  - discriminate.
  - vm_compute. reflexivity.
Defined.

(** The claim as stated puts every padding dummy at
    (DBL_MAX, DBL_MAX, DBL_MAX).  On the tower of the five particles above
    the three dummies end at (100, 0, 6), (100, 0, 4) and (100, 0, 2);
    and whatever the arguments, even DBL_MAX itself, the y coordinate of a
    dummy is 0, which is not DBL_MAX. *)
Lemma dummy_position_is_not_DBL_MAX :
  (match ClusterTower.generateClusters
           (ClusterTower.filled (ClusterTower.mk [] [] 0) five_particles) with
   | Some (tw, _) =>
       match ClusterTower.fillUpWithDummyParticles tw 100%float 2%float with
       | Some tw' =>
           map getR (ClusterTower._particles tw')
             = [ (0, 0, 1); (0, 0, 2); (0, 0, 3); (0, 0, 4); (0, 0, 5);
                 (100, 0, 6); (100, 0, 4); (100, 0, 2) ]%float
       | None => False
       end
   | None => False
   end) /\
  (match ClusterTower.generateClusters
           (ClusterTower.filled (ClusterTower.mk [] [] 0) five_particles) with
   | Some (tw, _) =>
       match ClusterTower.fillUpWithDummyParticles tw
               ClusterTower.DBL_MAX ClusterTower.DBL_MAX with
       | Some tw' =>
           map getR (skipn 5 (ClusterTower._particles tw'))
             = [ (ClusterTower.DBL_MAX, 0%float, PrimFloat.infinity);
                 (ClusterTower.DBL_MAX, 0%float, PrimFloat.infinity);
                 (ClusterTower.DBL_MAX, 0%float, ClusterTower.DBL_MAX) ]
       | None => False
       end
   | None => False
   end) /\
  getR ClusterTower.dummy
    = (ClusterTower.DBL_MAX, ClusterTower.DBL_MAX, ClusterTower.DBL_MAX) /\
  PrimFloat.eqb 0%float ClusterTower.DBL_MAX = false /\
  PrimFloat.eqb 100%float ClusterTower.DBL_MAX = false.
Proof. vm_compute. repeat split; reflexivity. Qed.

(** ** FullSearchMPI *)

Lemma to_int_small (z : Z) : - 2 ^ 31 <= z < 2 ^ 31 -> to_int z = z.
Proof. intros H. unfold to_int. rewrite Z.mod_small; lia. Qed.

Lemma to_int_range (z : Z) : - 2 ^ 31 <= to_int z < 2 ^ 31.
Proof.
  unfold to_int.
  assert (0 <= (z + 2 ^ 31) mod 2 ^ 32 < 2 ^ 32) by (apply Z.mod_pos_bound; lia).
  lia.
Qed.

(** Congruence modulo [2^32], the modulus of [int]. *)
Definition eqm32 (a b : Z) : Prop := exists k, a = b + 2 ^ 32 * k.

Lemma eqm32_refl (a : Z) : eqm32 a a.
Proof. exists 0. lia. Qed.

Lemma eqm32_trans (a b c : Z) : eqm32 a b -> eqm32 b c -> eqm32 a c.
Proof. intros [k ->] [l ->]. exists (k + l). lia. Qed.

Lemma eqm32_add (a a' b b' : Z) : eqm32 a a' -> eqm32 b b' -> eqm32 (a + b) (a' + b').
Proof. intros [k ->] [l ->]. exists (k + l). lia. Qed.

Lemma eqm32_mul (a a' b b' : Z) : eqm32 a a' -> eqm32 b b' -> eqm32 (a * b) (a' * b').
Proof.
  intros [k ->] [l ->]. exists (a' * l + k * b' + 2 ^ 32 * k * l). ring.
Qed.

Lemma eqm32_wrap64 (z : Z) : eqm32 (wrap64 z) z.
Proof.
  exists (- (2 ^ 32) * (z / 2 ^ 64)). unfold wrap64.
  rewrite Z.mod_eq by lia.
  replace (2 ^ 64) with (2 ^ 32 * 2 ^ 32) by reflexivity. lia.
Qed.

Lemma eqm32_to_int (z : Z) : eqm32 (to_int z) z.
Proof.
  exists (- ((z + 2 ^ 31) / 2 ^ 32)). unfold to_int.
  rewrite Z.mod_eq by lia. lia.
Qed.

Lemma to_int_congr (a b : Z) : eqm32 a b -> to_int a = to_int b.
Proof.
  intros [k ->]. unfold to_int. f_equal.
  replace (b + 2 ^ 32 * k + 2 ^ 31) with (b + 2 ^ 31 + k * 2 ^ 32) by lia.
  apply Z.mod_add. lia.
Qed.

Lemma length_bind_const {A B : Type} (f : A -> list B) (l : list A) (k : nat) :
  (forall x, length (f x) = k) -> length (l ≫= f) = (length l * k)%nat.
Proof.
  intros Hf. induction l as [|x l IH].
  - reflexivity.
  - rewrite bind_cons, length_app, Hf, IH. cbn. lia.
Qed.

Section FullSearchMPI_facts.

Context {TraversalOption DataLayoutOption Newton3Option : Type}.
Context `{EqDecision TraversalOption} `{EqDecision DataLayoutOption}
        `{EqDecision Newton3Option}.
Variable allCompatibleTraversals : ContainerOption -> list TraversalOption.

Abbreviation Configuration :=
  (@FullSearchMPI.Configuration TraversalOption DataLayoutOption Newton3Option).
Abbreviation Options :=
  (@FullSearchMPI.Options TraversalOption DataLayoutOption Newton3Option).

(** The number of configurations the loops visit for one container. *)
Definition perContainer (o : Options) (containerOption : ContainerOption) : Z :=
  vsize (FullSearchMPI.allowedCellSizeFactors o) *
  vsize (FullSearchMPI.set_intersection
           (FullSearchMPI.allowedTraversalOptions o)
           (allCompatibleTraversals containerOption)) *
  vsize (FullSearchMPI.allowedDataLayoutOptions o) *
  vsize (FullSearchMPI.allowedNewton3Options o).

Definition enumerateFrom (o : Options) (cs : list ContainerOption)
    : list Configuration :=
  FullSearchMPI.enumeration allCompatibleTraversals
    (FullSearchMPI.mkOptions cs
       (FullSearchMPI.allowedCellSizeFactors o)
       (FullSearchMPI.allowedTraversalOptions o)
       (FullSearchMPI.allowedDataLayoutOptions o)
       (FullSearchMPI.allowedNewton3Options o)).

Lemma vsize_enumerateFrom_cons (o : Options) (c : ContainerOption)
    (cs : list ContainerOption) :
  vsize (enumerateFrom o (c :: cs))
    = perContainer o c + vsize (enumerateFrom o cs).
Proof.
  unfold enumerateFrom, FullSearchMPI.enumeration, vsize. cbn [
    FullSearchMPI.allowedContainerOptions FullSearchMPI.allowedCellSizeFactors
    FullSearchMPI.allowedTraversalOptions FullSearchMPI.allowedDataLayoutOptions
    FullSearchMPI.allowedNewton3Options].
  rewrite bind_cons, length_app.
  rewrite (length_bind_const _ _
             (length (FullSearchMPI.set_intersection
                        (FullSearchMPI.allowedTraversalOptions o)
                        (allCompatibleTraversals c))
              * (length (FullSearchMPI.allowedDataLayoutOptions o)
                 * (length (FullSearchMPI.allowedNewton3Options o) * 1)))).
  - unfold perContainer, vsize. lia.
  - intros csf. apply length_bind_const. intros t.
    apply length_bind_const. intros d.
    apply length_bind_const. intros n. reflexivity.
Qed.

Lemma vsize_nonneg {A : Type} (l : list A) : 0 <= vsize l.
Proof. unfold vsize. lia. Qed.

Lemma totalNumConfigs_fold (o : Options) (cs : list ContainerOption) (total : Z) :
  - 2 ^ 31 <= total < 2 ^ 31 ->
  fold_left
    (fun total containerOption =>
       to_int
         (size_add total
            (size_mul
               (size_mul
                  (size_mul (vsize (FullSearchMPI.allowedCellSizeFactors o))
                     (vsize (FullSearchMPI.set_intersection
                               (FullSearchMPI.allowedTraversalOptions o)
                               (allCompatibleTraversals containerOption))))
                  (vsize (FullSearchMPI.allowedDataLayoutOptions o)))
               (vsize (FullSearchMPI.allowedNewton3Options o)))))
    cs total
  = to_int (total + vsize (enumerateFrom o cs)).
Proof.
  revert total. induction cs as [|c cs IH]; intros total Ht.
  - cbn. unfold enumerateFrom, FullSearchMPI.enumeration, vsize. cbn.
    rewrite Z.add_0_r. symmetry. apply to_int_small. exact Ht.
  - cbn [fold_left]. rewrite IH by apply to_int_range.
    apply to_int_congr. rewrite vsize_enumerateFrom_cons.
    rewrite Z.add_assoc. apply eqm32_add; [|apply eqm32_refl].
    eapply eqm32_trans; [apply eqm32_to_int|].
    unfold size_add, size_mul.
    eapply eqm32_trans; [apply eqm32_wrap64|].
    apply eqm32_add; [apply eqm32_refl|]. unfold perContainer.
    eapply eqm32_trans; [apply eqm32_wrap64|].
    apply eqm32_mul; [|apply eqm32_refl].
    eapply eqm32_trans; [apply eqm32_wrap64|].
    apply eqm32_mul; [|apply eqm32_refl].
    apply eqm32_wrap64.
Qed.

(** [totalNumConfigs] is the length of the enumeration, as long as that
    fits an [int]. *)
Lemma totalNumConfigs_eq (o : Options) :
  vsize (FullSearchMPI.enumeration allCompatibleTraversals o) < 2 ^ 31 ->
  FullSearchMPI.totalNumConfigs allCompatibleTraversals o
    = vsize (FullSearchMPI.enumeration allCompatibleTraversals o).
Proof.
  intros Hn. unfold FullSearchMPI.totalNumConfigs.
  rewrite totalNumConfigs_fold by lia.
  assert (He : enumerateFrom o (FullSearchMPI.allowedContainerOptions o)
               = FullSearchMPI.enumeration allCompatibleTraversals o).
  { unfold enumerateFrom. destruct o; reflexivity. }
  rewrite He, Z.add_0_l. apply to_int_small.
  pose proof (vsize_nonneg (FullSearchMPI.enumeration allCompatibleTraversals o)).
  lia.
Qed.

(** The block of a rank in closed form. *)
Definition blockStart (n w r : Z) : Z := r * (n / w) + Z.min r (n mod w).
Definition blockSize (n w r : Z) : Z := n / w + (if r <? n mod w then 1 else 0).

Lemma block_eq (n w r : Z) :
  0 <= n < 2 ^ 31 -> 0 <= r < w ->
  FullSearchMPI.block n w r
    = (blockStart n w r, blockStart n w r + blockSize n w r).
Proof.
  intros Hn Hr. unfold FullSearchMPI.block, blockStart, blockSize.
  rewrite Z.quot_div_nonneg, Z.rem_mod_nonneg by lia.
  assert (Hq : 0 <= n / w) by (apply Z.div_pos; lia).
  assert (Hm : 0 <= n mod w < w) by (apply Z.mod_pos_bound; lia).
  assert (Hdm : n = w * (n / w) + n mod w) by (apply Z.div_mod; lia).
  assert (Hb1 : 0 <= n / w * r <= n) by nia.
  assert (Hb2 : 0 <= n / w * (r + 1) <= n) by nia.
  assert (Hb3 : n / w * (r + 1) + n mod w <= n) by nia.
  rewrite (to_int_small (n / w * r)) by lia.
  rewrite (to_int_small (n / w * (r + 1))) by lia.
  destruct (r <? n mod w) eqn:E.
  - apply Z.ltb_lt in E.
    assert (Hb4 : n / w * (r + 1) + (r + 1) <= n) by nia.
    rewrite !to_int_small by lia. f_equal; lia.
  - apply Z.ltb_ge in E. rewrite !to_int_small by lia. f_equal; lia.
Qed.

Lemma blockStart_0 (n w : Z) : 0 <= n -> 0 < w -> blockStart n w 0 = 0.
Proof.
  intros Hn Hw. unfold blockStart.
  assert (0 <= n mod w < w) by (apply Z.mod_pos_bound; lia). lia.
Qed.

Lemma blockStart_succ (n w r : Z) :
  0 <= n -> 0 <= r < w ->
  blockStart n w (r + 1) = blockStart n w r + blockSize n w r.
Proof.
  intros Hn Hr. unfold blockStart, blockSize.
  destruct (r <? n mod w) eqn:E;
    [apply Z.ltb_lt in E | apply Z.ltb_ge in E]; lia.
Qed.

Lemma blockStart_last (n w : Z) : 0 <= n -> 0 < w -> blockStart n w w = n.
Proof.
  intros Hn Hw. unfold blockStart.
  assert (0 <= n mod w < w) by (apply Z.mod_pos_bound; lia).
  assert (n = w * (n / w) + n mod w) by (apply Z.div_mod; lia). lia.
Qed.

Lemma blockSize_nonneg (n w r : Z) : 0 <= n -> 0 < w -> 0 <= blockSize n w r.
Proof.
  intros Hn Hw. unfold blockSize.
  assert (0 <= n / w) by (apply Z.div_pos; lia).
  destruct (r <? n mod w); lia.
Qed.

Lemma blockStart_mono (n w r r' : Z) :
  0 <= n -> 0 < w -> 0 <= r <= r' -> blockStart n w r <= blockStart n w r'.
Proof.
  intros Hn Hw Hr. unfold blockStart.
  assert (0 <= n / w) by (apply Z.div_pos; lia). nia.
Qed.

(** The blocks of the ranks [0 .. w-1] tile [0, n): every index lies in
    the block of exactly one rank. *)
Lemma blocks_cover (n w : Z) (k : nat) (i : Z) :
  0 <= n -> 0 < w -> Z.of_nat k <= w ->
  0 <= i < blockStart n w (Z.of_nat k) ->
  exists r, 0 <= r < Z.of_nat k /\
    blockStart n w r <= i < blockStart n w r + blockSize n w r.
Proof.
  intros Hn Hw. induction k as [|k IH]; intros Hk Hi.
  - rewrite blockStart_0 in Hi by lia. lia.
  - destruct (Z_lt_dec i (blockStart n w (Z.of_nat k))) as [Hlt | Hge].
    + destruct IH as (r & Hr & Hin); [lia | lia |]. exists r. split; [lia | exact Hin].
    + exists (Z.of_nat k). split; [lia|].
      rewrite <- blockStart_succ by lia.
      replace (Z.of_nat k + 1) with (Z.of_nat (S k)) by lia. lia.
Qed.

Lemma blocks_disjoint (n w r r' i : Z) :
  0 <= n -> 0 < w -> 0 <= r < w -> 0 <= r' < w ->
  blockStart n w r <= i < blockStart n w r + blockSize n w r ->
  blockStart n w r' <= i < blockStart n w r' + blockSize n w r' ->
  r = r'.
Proof.
  intros Hn Hw Hr Hr' Hi Hi'.
  rewrite <- blockStart_succ in Hi, Hi' by lia.
  destruct (Z.lt_trichotomy r r') as [Hlt | [Heq | Hgt]]; [|exact Heq|].
  - pose proof (blockStart_mono n w (r + 1) r' Hn Hw ltac:(lia)). lia.
  - pose proof (blockStart_mono n w (r' + 1) r Hn Hw ltac:(lia)). lia.
Qed.

Lemma elem_of_emplace (c x : Configuration) (s : list Configuration) :
  x ∈ FullSearchMPI.emplace c s <-> x = c \/ x ∈ s.
Proof.
  unfold FullSearchMPI.emplace. destruct (decide (c ∈ s)) as [Hin | Hnin].
  - split; [auto | intros [-> | Hx]; assumption].
  - rewrite elem_of_app, list_elem_of_singleton. tauto.
Qed.

(** What the loop of [populateSearchSpace] emplaces: the configurations
    at the indices [start <= i < startNext] of the enumeration. *)
Lemma populateLoop_spec (visited : list Configuration) (i start startNext : Z)
    (s : list Configuration) (x : Configuration) :
  0 <= i <= startNext -> start <= startNext ->
  i + vsize visited < 2 ^ 31 ->
  x ∈ FullSearchMPI.populateLoop visited i start startNext s <->
  x ∈ s \/ exists k : nat,
    visited !! k = Some x /\ start <= i + Z.of_nat k < startNext.
Proof.
  revert i s. induction visited as [|c rest IH]; intros i s Hi Hse Hlen.
  - cbn. split; [auto | intros [Hx | (k & Hk & _)]; [exact Hx | discriminate]].
  - cbn [FullSearchMPI.populateLoop].
    assert (Hv : vsize (c :: rest) = 1 + vsize rest) by (unfold vsize; cbn; lia).
    pose proof (vsize_nonneg rest) as Hnn.
    destruct (i <? start) eqn:E1; [apply Z.ltb_lt in E1 | apply Z.ltb_ge in E1].
    + rewrite to_int_small by lia. rewrite IH by lia.
      split; intros [Hx | (k & Hk & Hr)]; auto; right.
      * exists (S k). split; [exact Hk | lia].
      * destruct k as [|k]; [lia|]. exists k. split; [exact Hk | lia].
    + destruct (i =? startNext) eqn:E2;
        [apply Z.eqb_eq in E2 | apply Z.eqb_neq in E2].
      * split; [auto | intros [Hx | (k & Hk & Hr)]; [exact Hx | lia]].
      * rewrite to_int_small by lia. rewrite IH by lia.
        rewrite elem_of_emplace.
        split.
        -- intros [[-> | Hx] | (k & Hk & Hr)]; auto; right.
           ++ exists 0%nat. split; [reflexivity | lia].
           ++ exists (S k). split; [exact Hk | lia].
        -- intros [Hx | (k & Hk & Hr)]; auto.
           destruct k as [|k].
           ++ cbn in Hk. injection Hk as <-. auto.
           ++ right. exists k. split; [exact Hk | lia].
Qed.

Lemma blockSize_zero (n w r : Z) :
  0 <= n -> 0 <= r < w -> (blockSize n w r = 0 <-> n <= r).
Proof.
  intros Hn Hr. unfold blockSize.
  assert (Hq : 0 <= n / w) by (apply Z.div_pos; lia).
  assert (Hm : 0 <= n mod w < w) by (apply Z.mod_pos_bound; lia).
  assert (Hdm : n = w * (n / w) + n mod w) by (apply Z.div_mod; lia).
  destruct (r <? n mod w) eqn:E;
    [apply Z.ltb_lt in E | apply Z.ltb_ge in E]; split; intros Hx; nia.
Qed.

(** C7 (as amended): with [w] ranks and [n] enumerated configurations
    the constructor computes for rank [r] the block that starts at
    [r * floor(n/w) + min(r, n mod w)] and has [floor(n/w) + 1] indices if
    [r < n mod w] and [floor(n/w)] otherwise.  A rank whose block is not
    empty gets exactly the configurations at the indices of its block; a
    rank whose block is empty, which happens exactly when [n <= r], gets
    all [n] configurations instead (and the constructor throws when there
    is none).  The blocks of the [w] ranks are pairwise disjoint and
    cover all [n] indices. *)
Theorem fullSearchMPI_blocks (o : Options) (worldSize worldRank : Z) :
  let all := FullSearchMPI.enumeration allCompatibleTraversals o in
  let n := vsize all in
  let start := blockStart n worldSize worldRank in
  let size := blockSize n worldSize worldRank in
  let result := FullSearchMPI.make allCompatibleTraversals o worldSize worldRank in
  n < 2 ^ 31 -> 0 <= worldRank < worldSize ->
  FullSearchMPI.block (FullSearchMPI.totalNumConfigs allCompatibleTraversals o)
                      worldSize worldRank = (start, start + size) /\
  start = worldRank * (n / worldSize) + Z.min worldRank (n mod worldSize) /\
  size = n / worldSize + (if worldRank <? n mod worldSize then 1 else 0) /\
  (size = 0 <-> n <= worldRank) /\
  (0 < size ->
     exists s, result = Done s /\
       forall c, c ∈ s <->
         exists k : nat, all !! k = Some c /\ start <= Z.of_nat k < start + size) /\
  (size = 0 -> 0 < n ->
     exists s, result = Done s /\ forall c, c ∈ s <-> c ∈ all) /\
  (n = 0 -> result = Thrown "No valid configuration could be generated"%string) /\
  (forall i, 0 <= i < n ->
     exists r, 0 <= r < worldSize /\
       blockStart n worldSize r <= i
         < blockStart n worldSize r + blockSize n worldSize r /\
       forall r', 0 <= r' < worldSize ->
         blockStart n worldSize r' <= i
           < blockStart n worldSize r' + blockSize n worldSize r' ->
         r' = r).
Proof.
  intros all n start size result Hn Hr.
  pose proof (vsize_nonneg all) as Hn0. fold n in Hn0.
  assert (Hblock : FullSearchMPI.block
            (FullSearchMPI.totalNumConfigs allCompatibleTraversals o)
            worldSize worldRank = (start, start + size)).
  { rewrite totalNumConfigs_eq by exact Hn. fold all n.
    apply block_eq; lia. }
  assert (Hsz : 0 <= size) by (apply blockSize_nonneg; lia).
  assert (Hst : 0 <= start).
  { unfold start. rewrite <- (blockStart_0 n worldSize) by lia.
    apply blockStart_mono; lia. }
  assert (Hend : start + size <= n).
  { unfold start, size. rewrite <- blockStart_succ by lia.
    rewrite <- (blockStart_last n worldSize) at 2 by lia.
    apply blockStart_mono; lia. }
  assert (Hmem : forall a b (x : Configuration), 0 <= a <= b -> b <= n ->
            x ∈ FullSearchMPI.populateSearchSpace allCompatibleTraversals o a b []
            <-> exists k : nat, all !! k = Some x /\ a <= Z.of_nat k < b).
  { intros a b x Hab Hb. unfold FullSearchMPI.populateSearchSpace.
    fold all. rewrite populateLoop_spec by (fold n; lia).
    rewrite elem_of_nil. split.
    - intros [[] | (k & Hk & Hi)]. exists k. split; [exact Hk | lia].
    - intros (k & Hk & Hi). right. exists k. split; [exact Hk | lia]. }
  split; [exact Hblock|]. split; [reflexivity|]. split; [reflexivity|].
  split; [apply blockSize_zero; lia|].
  assert (Hres : result =
    match FullSearchMPI.populateSearchSpace allCompatibleTraversals o
            start (start + size) [] with
    | [] =>
        match FullSearchMPI.populateSearchSpace allCompatibleTraversals o 0 n [] with
        | [] => Thrown "No valid configuration could be generated"%string
        | s' => Done s'
        end
    | s => Done s
    end).
  { unfold result, FullSearchMPI.make. rewrite Hblock.
    rewrite totalNumConfigs_eq by exact Hn. fold all n.
    destruct (FullSearchMPI.populateSearchSpace allCompatibleTraversals o
                start (start + size) []); reflexivity. }
  split; [|split; [|split]].
  - intros Hpos. rewrite Hres.
    destruct (lookup_lt_is_Some_2 all (Z.to_nat start)) as [c0 Hc0].
    { unfold n, vsize in *. lia. }
    assert (Hin : c0 ∈ FullSearchMPI.populateSearchSpace
                    allCompatibleTraversals o start (start + size) []).
    { apply Hmem; [lia | lia |]. exists (Z.to_nat start). split; [exact Hc0 | lia]. }
    destruct (FullSearchMPI.populateSearchSpace allCompatibleTraversals o
                start (start + size) []) as [|c s] eqn:E.
    + apply elem_of_nil in Hin. destruct Hin.
    + exists (c :: s). split; [reflexivity|].
      intros x. rewrite <- E. apply Hmem; lia.
  - intros Hzero Hpos. rewrite Hres.
    destruct (FullSearchMPI.populateSearchSpace allCompatibleTraversals o
                start (start + size) []) as [|c s] eqn:E.
    + destruct (lookup_lt_is_Some_2 all 0%nat) as [c0 Hc0].
      { unfold n, vsize in *. lia. }
      assert (Hin : c0 ∈ FullSearchMPI.populateSearchSpace
                      allCompatibleTraversals o 0 n []).
      { apply Hmem; [lia | lia |]. exists 0%nat. split; [exact Hc0 | lia]. }
      destruct (FullSearchMPI.populateSearchSpace allCompatibleTraversals o 0 n [])
        as [|c s] eqn:E'.
      * apply elem_of_nil in Hin. destruct Hin.
      * exists (c :: s). split; [reflexivity|].
        intros x. rewrite <- E'. rewrite Hmem by lia.
        rewrite list_elem_of_lookup. split.
        -- intros (k & Hk & _). exists k. exact Hk.
        -- intros (k & Hk). exists k. split; [exact Hk|].
           apply lookup_lt_Some in Hk. unfold n, vsize. lia.
    + exfalso.
      assert (Hin : c ∈ FullSearchMPI.populateSearchSpace
                      allCompatibleTraversals o start (start + size) [])
        by (rewrite E; apply list_elem_of_here).
      apply Hmem in Hin; [|lia|lia]. destruct Hin as (k & _ & Hk). lia.
  - intros Hzero. rewrite Hres.
    assert (Hall : all = []).
    { destruct all; [reflexivity | unfold n, vsize in Hzero; cbn in Hzero; lia]. }
    unfold FullSearchMPI.populateSearchSpace. fold all. rewrite Hall.
    reflexivity.
  - intros i Hi.
    destruct (blocks_cover n worldSize (Z.to_nat worldSize) i) as (r & Hr1 & Hr2);
      [lia | lia | lia | |].
    { rewrite Z2Nat.id by lia. rewrite blockStart_last by lia. exact Hi. }
    exists r. split; [lia|]. split; [exact Hr2|].
    intros r' Hr' Hin'. apply (blocks_disjoint n worldSize r' r i); try lia.
Qed.

End FullSearchMPI_facts.

(** A small instance for the examples: the traversal, layout and Newton-3
    choices the specification names, and a compatibility table. *)
Inductive TraversalOption : Set :=
| c08 | sliced | c18 | directSumTraversal | verletClusters.
Inductive DataLayoutOption : Set := aos | soa.
Inductive Newton3Option : Set := disabled | enabled.

#[global] Instance TraversalOption_eq_dec : EqDecision TraversalOption.
Proof. solve_decision. Defined.
#[global] Instance DataLayoutOption_eq_dec : EqDecision DataLayoutOption.
Proof. solve_decision. Defined.
#[global] Instance Newton3Option_eq_dec : EqDecision Newton3Option.
Proof. solve_decision. Defined.

Definition compatibleTraversals (c : ContainerOption) : list TraversalOption :=
  match c with
  | directSum => [directSumTraversal]
  | linkedCells => [c08; sliced; c18]
  | verletClusterLists => [verletClusters]
  | _ => []
  end.

(** Scenario D of the specification: a search space of four
    configurations. *)
Definition fourConfigs : FullSearchMPI.Options :=
  {| FullSearchMPI.allowedContainerOptions := [linkedCells];
     FullSearchMPI.allowedCellSizeFactors := [1%float];
     FullSearchMPI.allowedTraversalOptions := [c08];
     FullSearchMPI.allowedDataLayoutOptions := [aos; soa];
     FullSearchMPI.allowedNewton3Options := [disabled; enabled] |}.

Definition twoConfigs : FullSearchMPI.Options :=
  {| FullSearchMPI.allowedContainerOptions := [linkedCells];
     FullSearchMPI.allowedCellSizeFactors := [1%float];
     FullSearchMPI.allowedTraversalOptions := [c08];
     FullSearchMPI.allowedDataLayoutOptions := [aos; soa];
     FullSearchMPI.allowedNewton3Options := [enabled] |}.

Definition lc (d : DataLayoutOption) (n3 : Newton3Option)
    : FullSearchMPI.Configuration :=
  FullSearchMPI.mkConfiguration linkedCells 1%float c08 d n3.

Example scenario_D :
  FullSearchMPI.make compatibleTraversals fourConfigs 2 0
    = Done [lc aos disabled; lc aos enabled] /\
  FullSearchMPI.make compatibleTraversals fourConfigs 2 1
    = Done [lc soa disabled; lc soa enabled].
Proof. vm_compute. split; reflexivity. Qed.

Lemma fullSearchMPI_blocks_witness :
  exists s,
    FullSearchMPI.make compatibleTraversals fourConfigs 2 1 = Done s /\
    forall c, c ∈ s <->
      exists k : nat,
        FullSearchMPI.enumeration compatibleTraversals fourConfigs !! k = Some c /\
        2 <= Z.of_nat k < 2 + 2.
Proof.
  assert (H1 : vsize (FullSearchMPI.enumeration compatibleTraversals fourConfigs)
               < 2 ^ 31) by (vm_compute; reflexivity).
  assert (H2 : 0 <= 1 < 2) by lia.
  destruct (fullSearchMPI_blocks compatibleTraversals fourConfigs 2 1 H1 H2)
    as (_ & _ & _ & _ & Hpos & _).
  apply Hpos. vm_compute. reflexivity.
Defined.

(** The claim as stated gives rank 2 of 3, for two configurations, an
    empty range (size floor(2/3) = 0, from index 2) disjoint from the
    ranges of the other ranks.  The constructor gives that rank both
    configurations, which ranks 0 and 1 are measuring too. *)
Lemma fullSearchMPI_empty_block_gets_all :
  FullSearchMPI.block
    (FullSearchMPI.totalNumConfigs compatibleTraversals twoConfigs) 3 2 = (2, 2) /\
  FullSearchMPI.make compatibleTraversals twoConfigs 3 0 = Done [lc aos enabled] /\
  FullSearchMPI.make compatibleTraversals twoConfigs 3 1 = Done [lc soa enabled] /\
  FullSearchMPI.make compatibleTraversals twoConfigs 3 2
    = Done [lc aos enabled; lc soa enabled].
Proof. vm_compute. repeat split; reflexivity. Qed.

(** ** PredictiveTuning *)

#[local] Arguments PredictiveTuning.withinRange : simpl never.
#[local] Arguments PredictiveTuning.tooLongNotTested : simpl never.

Section PredictiveTuning_facts.

Context {Configuration : Type} `{Countable Configuration}.
Variable config_less : Configuration -> Configuration -> bool.

Abbreviation state := (@PredictiveTuning.t Configuration _ _).












(** The prediction when the later of the last two samples is not the
    faster one: the line through the two samples, with the slope rounded
    down to an integer. *)
Lemma predict_rising (h : list (Z * Z)) (i1 t1 i2 t2 b : Z) :
  vsize h + 2 < 2 ^ 64 ->
  0 <= i1 < i2 -> i2 <= b < 2 ^ 64 -> 0 <= t1 <= t2 ->
  t2 + (t2 - t1) / (i2 - i1) * (b - i2) < 2 ^ 64 ->
  PredictiveTuning.predict (h ++ [(i1, t1); (i2, t2)]) b
    = Some (t2 + (t2 - t1) / (i2 - i1) * (b - i2)).
Proof.
  intros Hh Hi Hb Ht Hres. unfold PredictiveTuning.predict.
  assert (Hlen : vsize (h ++ [(i1, t1); (i2, t2)]) = vsize h + 2).
  { unfold vsize. rewrite length_app. cbn. lia. }
  pose proof (vsize_nonneg h) as Hnn.
  rewrite Hlen. unfold size_sub.
  rewrite (wrap64_small (vsize h + 2 - 1)), (wrap64_small (vsize h + 2 - 2)) by lia.
  replace (Z.to_nat (vsize h + 2 - 1)) with (length h + 1)%nat by (unfold vsize; lia).
  replace (Z.to_nat (vsize h + 2 - 2)) with (length h + 0)%nat by (unfold vsize; lia).
  rewrite !lookup_app_r by lia.
  replace (length h + 1 - length h)%nat with 1%nat by lia.
  replace (length h + 0 - length h)%nat with 0%nat by lia.
  cbn [lookup list_lookup mbind option_bind fst snd].
  rewrite (wrap64_small (i2 - i1)) by lia.
  destruct (i2 - i1 =? 0) eqn:E; [apply Z.eqb_eq in E; lia|].
  f_equal. unfold size_add, size_mul.
  assert (Hg : 0 <= (t2 - t1) / (i2 - i1)) by (apply Z.div_pos; lia).
  assert (Hp : 0 <= (t2 - t1) / (i2 - i1) * (b - i2)) by nia.
  rewrite (wrap64_small (t2 - t1)), (wrap64_small t2), (wrap64_small (b - i2)) by lia.
  rewrite (wrap64_small ((t2 - t1) / (i2 - i1) * (b - i2))) by lia.
  apply wrap64_small. lia.
Qed.

End PredictiveTuning_facts.

(** Configurations are numbered in the examples. *)
Definition tuningState (relativeOptimumRange : double)
    (samples : list (Z * list (Z * Z))) (lastTest : list (Z * Z))
    (tuningIterationsCounter : Z) : @PredictiveTuning.t Z _ _ :=
  {| PredictiveTuning._searchSpace := map fst samples;
     PredictiveTuning._currentConfig :=
       PredictiveTuning.begin PredictiveTuning.searchSpace;
     PredictiveTuning._traversalTimesStorage := list_to_map samples;
     PredictiveTuning._configurationPredictions := ∅;
     PredictiveTuning._optimalSearchSpace := [];
     PredictiveTuning._tooLongNotTestedSearchSpace := [];
     PredictiveTuning._validSearchSpace := map fst samples;
     PredictiveTuning._lastTest := list_to_map lastTest;
     PredictiveTuning._tuningIterationsCounter := tuningIterationsCounter;
     PredictiveTuning._iterationBeginTuningPhase := 0;
     PredictiveTuning._validConfigurationFound := false;
     PredictiveTuning._relativeOptimumRange := relativeOptimumRange;
     PredictiveTuning._maxTuningIterationsWithoutTest := 5 |}.

(** The closest [double] to 1.2, the default range. *)
Definition range_1_2 : double := 0x1.3333333333333p+0%float.

(** Four configurations after nine phases: 0, 1 and 3 were tested in the
    last phase, 2 never. *)
Definition ninePhases : @PredictiveTuning.t Z _ _ :=
  tuningState range_1_2
    [ (0, [(80, 100); (81, 100)]); (1, [(82, 105); (83, 110)]);
      (2, [(2, 400); (3, 400)]); (3, [(84, 300); (85, 300)]) ]
    [ (0, 9); (1, 9); (3, 9) ] 9.

Example ninePhases_selection :
  match PredictiveTuning.reset Z.ltb ninePhases 90 with
  | Done st' =>
      PredictiveTuning._optimalSearchSpace st' = [0] /\
      PredictiveTuning._tooLongNotTestedSearchSpace st' = [2] /\
      map_to_list (PredictiveTuning._configurationPredictions st')
        = [(3, 300); (2, 400); (1, 145); (0, 100)]
  | _ => False
  end.
Proof. vm_compute. repeat split; reflexivity. Qed.



(** C6: the line through the last two samples (0, 100) and (2, 90),
    continued to iteration 3, is at 85.  [predict] divides the difference
    of the times, converted to [unsigned long], by the difference of the
    iterations and arrives at 2^63 + 85. *)
Theorem linePrediction_falling_times :
  PredictiveTuning.predict [(0, 100); (2, 90)] 3 = Some (2 ^ 63 + 85) /\
  90 + (90 - 100) / (2 - 0) * (3 - 2) = 85 /\
  PredictiveTuning.predict [(0, 100); (2, 110)] 3
    = Some (110 + (110 - 100) / (2 - 0) * (3 - 2)).
Proof. vm_compute. repeat split; reflexivity. Qed.

(** ** C08BasedTraversal *)

(** The 1D index of a cell, without wrap-around. *)
Definition idx3 (dims p : index3) : Z :=
  let '(dimsX, dimsY, _) := dims in
  let '(x, y, z) := p in
  (z * dimsY + y) * dimsX + x.

Definition add3 (p q : index3) : index3 :=
  let '(x, y, z) := p in
  let '(x', y', z') := q in
  (x + x', y + y', z + z').

Definition sub3 (p q : index3) : index3 :=
  let '(x, y, z) := p in
  let '(x', y', z') := q in
  (x - x', y - y', z - z').

Definition min3 (p q : index3) : index3 :=
  let '(x, y, z) := p in
  let '(x', y', z') := q in
  (Z.min x x', Z.min y y', Z.min z z').

Definition eqb3 (p q : index3) : bool :=
  let '(x, y, z) := p in
  let '(x', y', z') := q in
  (x =? x') && (y =? y') && (z =? z').

(** A cell of the grid, a cell of the unit cube of offsets, and a base
    cell: one with a forward neighbour in every dimension. *)
Definition inGrid (dims p : index3) : Prop :=
  let '(dimsX, dimsY, dimsZ) := dims in
  let '(x, y, z) := p in
  0 <= x < dimsX /\ 0 <= y < dimsY /\ 0 <= z < dimsZ.

Definition inCube (p : index3) : Prop := inGrid (2, 2, 2) p.

Definition isBaseCell (dims p : index3) : bool :=
  let '(dimsX, dimsY, dimsZ) := dims in
  let '(x, y, z) := p in
  (0 <=? x) && (x <? dimsX - 1) && (0 <=? y) && (y <? dimsY - 1) &&
  (0 <=? z) && (z <? dimsZ - 1).

(** Two different cells that touch: neighbours in the 3x3x3 sense. *)
Definition adjacent (p q : index3) : Prop :=
  let '(x, y, z) := p in
  let '(x', y', z') := q in
  -1 <= x - x' <= 1 /\ -1 <= y - y' <= 1 /\ -1 <= z - z' <= 1 /\ p <> q.

(** The grids the base step is meant for. *)
Definition goodDims (dims : index3) : Prop :=
  let '(dimsX, dimsY, dimsZ) := dims in
  2 <= dimsX /\ 2 <= dimsY /\ 2 <= dimsZ /\ dimsX * dimsY * dimsZ < 2 ^ 64.

Lemma eqb3_spec (p q : index3) : reflect (p = q) (eqb3 p q).
Proof.
  destruct p as [[x y] z], q as [[x' y'] z']. cbn.
  destruct (Z.eqb_spec x x'), (Z.eqb_spec y y'), (Z.eqb_spec z z'); cbn;
    constructor; congruence.
Qed.

Lemma idx3_add (dims p q : index3) :
  idx3 dims (add3 p q) = idx3 dims p + idx3 dims q.
Proof.
  destruct dims as [[dx dy] dz], p as [[x y] z], q as [[x' y'] z']. cbn. ring.
Qed.

Lemma idx3_range (dims p : index3) :
  goodDims dims -> inGrid dims p ->
  0 <= idx3 dims p < (let '(dx, dy, dz) := dims in dx * dy * dz).
Proof.
  destruct dims as [[dx dy] dz], p as [[x y] z]. cbn.
  intros (Hx & Hy & Hz & Hsz) (Hpx & Hpy & Hpz).
  assert (0 <= z * dy + y <= dz * dy - 1) by nia.
  split; nia.
Qed.

Lemma idx3_inj (dims p q : index3) :
  goodDims dims -> inGrid dims p -> inGrid dims q ->
  idx3 dims p = idx3 dims q -> p = q.
Proof.
  destruct dims as [[dx dy] dz], p as [[x y] z], q as [[x' y'] z']. cbn.
  intros (Hx & Hy & Hz & Hsz) (Hpx & Hpy & Hpz) (Hqx & Hqy & Hqz) Heq.
  assert (Hu : z * dy + y = z' * dy + y') by nia.
  assert (Hxx : x = x') by nia.
  assert (Hzz : z = z') by nia.
  assert (Hyy : y = y') by nia.
  congruence.
Qed.

Lemma idx3_eqb (dims p q : index3) :
  goodDims dims -> inGrid dims p -> inGrid dims q ->
  (idx3 dims p =? idx3 dims q) = eqb3 p q.
Proof.
  intros Hd Hp Hq. destruct (eqb3_spec p q) as [-> | Hne].
  - apply Z.eqb_refl.
  - apply Z.eqb_neq. intros Heq. apply Hne. eapply idx3_inj; eassumption.
Qed.

(** In range, [threeToOneD] is the plain index. *)
Lemma threeToOneD_idx3 (dims : index3) (x y z : Z) :
  goodDims dims -> inGrid dims (x, y, z) ->
  ThreeDimensionalMapping.threeToOneD x y z dims = idx3 dims (x, y, z).
Proof.
  intros Hd Hp. pose proof (idx3_range dims (x, y, z) Hd Hp) as Hr.
  destruct dims as [[dx dy] dz]. cbn in *.
  destruct Hd as (Hx & Hy & Hz & Hsz). destruct Hp as (Hpx & Hpy & Hpz).
  unfold ThreeDimensionalMapping.threeToOneD, size_add, size_mul.
  assert (0 <= z * dy) by nia.
  assert (z * dy + y <= (z * dy + y) * dx) by nia.
  rewrite (wrap64_small (z * dy)) by nia.
  rewrite (wrap64_small (z * dy + y)) by nia.
  rewrite (wrap64_small ((z * dy + y) * dx)) by nia.
  apply wrap64_small. nia.
Qed.

(** The fourteen offset pairs of [computeOffsets], as 3D offsets. *)
Definition offsets3 : list (index3 * index3) :=
  let o := (0, 0, 0) in
  let x := (1, 0, 0) in
  let y := (0, 1, 0) in
  let z := (0, 0, 1) in
  let xy := (1, 1, 0) in
  let yz := (0, 1, 1) in
  let xz := (1, 0, 1) in
  let xyz := (1, 1, 1) in
  [ (o, o); (o, y); (y, z); (o, z); (o, yz);
    (x, yz); (x, y); (x, z); (o, x); (o, xy); (xy, z); (y, xz); (o, xz);
    (o, xyz) ].

Lemma offsets3_inCube :
  Forall (fun ac => inCube (fst ac) /\ inCube (snd ac)) offsets3.
Proof. unfold offsets3, inCube, inGrid. repeat constructor; cbn; lia. Qed.

Lemma inCube_inGrid (dims p : index3) :
  goodDims dims -> inCube p -> inGrid dims p.
Proof.
  destruct dims as [[dx dy] dz], p as [[x y] z]. unfold inCube. cbn. lia.
Qed.

Lemma computeOffsets_pairs (dims : index3) :
  goodDims dims ->
  fst (C08BasedTraversal.computeOffsets dims)
    = map (fun ac => (idx3 dims (fst ac), idx3 dims (snd ac))) offsets3.
Proof.
  intros Hd.
  assert (Hc : forall x y z, inCube (x, y, z) ->
            ThreeDimensionalMapping.threeToOneD x y z dims = idx3 dims (x, y, z)).
  { intros x y z Hxyz. apply threeToOneD_idx3; [exact Hd|].
    apply inCube_inGrid; assumption. }
  unfold C08BasedTraversal.computeOffsets. cbv zeta.
  rewrite (Hc 0 0 0), (Hc 1 0 0), (Hc 0 1 0), (Hc 0 0 1), (Hc 1 1 0),
    (Hc 0 1 1), (Hc 1 0 1), (Hc 1 1 1) by (unfold inCube; cbn; lia).
  reflexivity.
Qed.

Lemma base_add_inGrid (dims b a : index3) :
  isBaseCell dims b = true -> inCube a -> inGrid dims (add3 b a).
Proof.
  destruct dims as [[dx dy] dz], b as [[x y] z], a as [[x' y'] z'].
  unfold inCube. cbn. intros Hb Ha.
  repeat (apply andb_prop in Hb; destruct Hb as [Hb ?]). lia.
Qed.

Lemma base_inGrid (dims b : index3) :
  isBaseCell dims b = true -> inGrid dims b.
Proof.
  destruct dims as [[dx dy] dz], b as [[x y] z]. cbn. intros Hb.
  repeat (apply andb_prop in Hb; destruct Hb as [Hb ?]). lia.
Qed.

(** The task a base cell hands out for one offset pair. *)
Definition taskOf (dims b : index3) (ac : index3 * index3)
    : C08BasedTraversal.Task :=
  if eqb3 (fst ac) (snd ac) then
    C08BasedTraversal.processCell (idx3 dims (add3 b (fst ac)))
  else
    C08BasedTraversal.processCellPair (idx3 dims (add3 b (fst ac)))
                                      (idx3 dims (add3 b (snd ac))).

Definition gridSize (dims : index3) : Z :=
  let '(dimsX, dimsY, dimsZ) := dims in dimsX * dimsY * dimsZ.

Lemma processPair_block (dims b : index3) (ac : index3 * index3) :
  goodDims dims -> isBaseCell dims b = true ->
  inCube (fst ac) -> inCube (snd ac) ->
  C08BasedTraversal.processPair
    (C08BasedTraversal.make (gridSize dims) dims) (idx3 dims b)
    (idx3 dims (fst ac), idx3 dims (snd ac))
  = Done (taskOf dims b ac).
Proof.
  intros Hd Hb Ha Hc. destruct ac as [a c]. cbn [fst snd] in *.
  pose proof (base_add_inGrid dims b a Hb Ha) as Hga.
  pose proof (base_add_inGrid dims b c Hb Hc) as Hgc.
  pose proof (idx3_range dims _ Hd Hga) as Hra.
  pose proof (idx3_range dims _ Hd Hgc) as Hrc.
  assert (Hsz : gridSize dims < 2 ^ 64).
  { destruct dims as [[dx dy] dz]. cbn in *. lia. }
  fold (gridSize dims) in Hra, Hrc.
  unfold C08BasedTraversal.processPair, C08BasedTraversal.at_,
    C08BasedTraversal.make. cbn [fst snd].
  destruct (C08BasedTraversal.computeOffsets dims) as [pairs singles].
  cbn [C08BasedTraversal.numCells]. unfold size_add.
  rewrite <- !idx3_add. rewrite !wrap64_small by lia.
  rewrite (proj2 (Z.ltb_lt _ _)) by lia. cbn [bind_outcome].
  rewrite (proj2 (Z.ltb_lt _ _)) by lia. cbn [bind_outcome].
  rewrite idx3_eqb by assumption. unfold taskOf. cbn [fst snd].
  destruct (eqb3_spec (add3 b a) (add3 b c)) as [Heq | Hne];
    destruct (eqb3_spec a c) as [Heq' | Hne']; try reflexivity.
  - exfalso. apply Hne'. destruct a as [[? ?] ?], c as [[? ?] ?], b as [[? ?] ?].
    cbn in Heq. injection Heq as ? ? ?. f_equal; [f_equal|]; lia.
  - exfalso. apply Hne. congruence.
Qed.

Lemma runTasks_acc {A B : Type}
    (round : B -> outcome (list C08BasedTraversal.Task)) (g : A -> B)
    (f : A -> list C08BasedTraversal.Task) (l : list A)
    (acc : list C08BasedTraversal.Task) :
  (forall a, a ∈ l -> round (g a) = Done (f a)) ->
  fold_left
    (fun done a =>
       bind_outcome done (fun tasks =>
       bind_outcome (round a) (fun more => Done (tasks ++ more))))
    (map g l) (Done acc)
  = Done (acc ++ l ≫= f).
Proof.
  revert acc. induction l as [|a l IH]; intros acc Hall.
  - cbn. now rewrite app_nil_r.
  - cbn [map fold_left bind_outcome]. rewrite (Hall a) by left.
    cbn [bind_outcome].
    rewrite IH by (intros a' Ha'; apply Hall; right; exact Ha').
    rewrite bind_cons, app_assoc. reflexivity.
Qed.

Lemma runTasks_map {A B : Type}
    (round : B -> outcome (list C08BasedTraversal.Task)) (g : A -> B)
    (f : A -> list C08BasedTraversal.Task) (l : list A) :
  (forall a, a ∈ l -> round (g a) = Done (f a)) ->
  C08BasedTraversal.runTasks round (map g l) = Done (l ≫= f).
Proof.
  intros Hall. unfold C08BasedTraversal.runTasks.
  now rewrite (runTasks_acc round g f).
Qed.

Lemma bind_singleton_map {A B : Type} (g : A -> B) (l : list A) :
  l ≫= (fun a => [g a]) = map g l.
Proof.
  induction l as [|a l IH]; [reflexivity|].
  rewrite bind_cons, IH. reflexivity.
Qed.

(** The base step at a base cell: the fourteen tasks of the block. *)
Lemma processBaseCell_block (dims b : index3) :
  goodDims dims -> isBaseCell dims b = true ->
  C08BasedTraversal.processBaseCell
    (C08BasedTraversal.make (gridSize dims) dims) (idx3 dims b)
  = Done (map (taskOf dims b) offsets3).
Proof.
  intros Hd Hb. unfold C08BasedTraversal.processBaseCell.
  assert (Hpairs : C08BasedTraversal._cellPairOffsets
                     (C08BasedTraversal.make (gridSize dims) dims)
                   = map (fun ac => (idx3 dims (fst ac), idx3 dims (snd ac)))
                         offsets3).
  { rewrite <- computeOffsets_pairs by exact Hd.
    unfold C08BasedTraversal.make.
    destruct (C08BasedTraversal.computeOffsets dims); reflexivity. }
  rewrite Hpairs.
  rewrite (runTasks_map _ _ (fun ac => [taskOf dims b ac])).
  - now rewrite bind_singleton_map.
  - intros ac Hac. pose proof offsets3_inCube as Hcube.
    rewrite Forall_forall in Hcube. destruct (Hcube ac Hac) as [Ha Hc].
    rewrite processPair_block by assumption. reflexivity.
Qed.

(** *** Counting the tasks of one base cell *)

(** Does the offset pair [ac] give the pair task for the two cells at the
    offsets [d] and [e] from the base cell, in either order? *)
Definition pairTest (d e : index3) (ac : index3 * index3) : bool :=
  negb (eqb3 (fst ac) (snd ac)) &&
  ((eqb3 d (fst ac) && eqb3 e (snd ac)) || (eqb3 d (snd ac) && eqb3 e (fst ac))).

Definition selfTest (d : index3) (ac : index3 * index3) : bool :=
  eqb3 (fst ac) (snd ac) && eqb3 d (fst ac).

Lemma eqb3_shift (c b a : index3) : eqb3 c (add3 b a) = eqb3 (sub3 c b) a.
Proof.
  destruct c as [[x y] z], b as [[x' y'] z'], a as [[x'' y''] z'']. cbn.
  destruct (Z.eqb_spec x (x' + x'')), (Z.eqb_spec (x - x') x''); try lia;
  destruct (Z.eqb_spec y (y' + y'')), (Z.eqb_spec (y - y') y''); try lia;
  destruct (Z.eqb_spec z (z' + z'')), (Z.eqb_spec (z - z') z''); try lia;
  reflexivity.
Qed.

Lemma occurrences_map {A : Type} (t : C08BasedTraversal.Task)
    (g : A -> C08BasedTraversal.Task) (h : A -> bool) (l : list A) :
  (forall a, a ∈ l -> C08BasedTraversal.sameTask t (g a) = h a) ->
  C08BasedTraversal.occurrences t (map g l) = length (List.filter h l).
Proof.
  unfold C08BasedTraversal.occurrences.
  induction l as [|a l IH]; intros Hall; [reflexivity|].
  cbn [map List.filter]. rewrite (Hall a) by left.
  destruct (h a); cbn [length]; rewrite IH; auto;
    intros a' Ha'; apply Hall; right; exact Ha'.
Qed.

Lemma occurrences_app (t : C08BasedTraversal.Task)
    (l1 l2 : list C08BasedTraversal.Task) :
  C08BasedTraversal.occurrences t (l1 ++ l2)
    = (C08BasedTraversal.occurrences t l1
       + C08BasedTraversal.occurrences t l2)%nat.
Proof.
  unfold C08BasedTraversal.occurrences.
  now rewrite List.filter_app, length_app.
Qed.

Lemma pair_occurrences_block (dims b c1 c2 : index3) :
  goodDims dims -> isBaseCell dims b = true ->
  inGrid dims c1 -> inGrid dims c2 ->
  C08BasedTraversal.occurrences
    (C08BasedTraversal.processCellPair (idx3 dims c1) (idx3 dims c2))
    (map (taskOf dims b) offsets3)
  = length (List.filter (pairTest (sub3 c1 b) (sub3 c2 b)) offsets3).
Proof.
  intros Hd Hb H1 H2. apply occurrences_map. intros [a c] Hac.
  pose proof offsets3_inCube as Hcube. rewrite Forall_forall in Hcube.
  destruct (Hcube _ Hac) as [Ha Hc]. cbn [fst snd] in Ha, Hc.
  pose proof (base_add_inGrid dims b a Hb Ha) as Hga.
  pose proof (base_add_inGrid dims b c Hb Hc) as Hgc.
  unfold taskOf, pairTest. cbn [fst snd].
  destruct (eqb3 a c); cbn [negb andb C08BasedTraversal.sameTask]; [reflexivity|].
  rewrite !idx3_eqb by assumption. rewrite !eqb3_shift. reflexivity.
Qed.

Lemma self_occurrences_block (dims b c : index3) :
  goodDims dims -> isBaseCell dims b = true -> inGrid dims c ->
  C08BasedTraversal.occurrences
    (C08BasedTraversal.processCell (idx3 dims c))
    (map (taskOf dims b) offsets3)
  = length (List.filter (selfTest (sub3 c b)) offsets3).
Proof.
  intros Hd Hb H1. apply occurrences_map. intros [a c'] Hac.
  pose proof offsets3_inCube as Hcube. rewrite Forall_forall in Hcube.
  destruct (Hcube _ Hac) as [Ha Hc]. cbn [fst snd] in Ha, Hc.
  pose proof (base_add_inGrid dims b a Hb Ha) as Hga.
  unfold taskOf, selfTest. cbn [fst snd].
  destruct (eqb3 a c'); cbn [andb C08BasedTraversal.sameTask]; [|reflexivity].
  rewrite idx3_eqb by assumption. apply eqb3_shift.
Qed.

Lemma selfHits (d : index3) :
  length (List.filter (selfTest d) offsets3)
    = if eqb3 d (0, 0, 0) then 1%nat else 0%nat.
Proof.
  unfold offsets3, selfTest. cbn.
  destruct (eqb3 d (0, 0, 0)); reflexivity.
Qed.

Lemma filter_hit {A : Type} (h : A -> bool) (l : list A) :
  length (List.filter h l) <> 0%nat -> exists a, In a l /\ h a = true.
Proof.
  intros Hne. destruct (List.filter h l) as [|a l'] eqn:E; [contradiction|].
  exists a. apply List.filter_In. rewrite E. left. reflexivity.
Qed.

(** Among the fourteen offset pairs, two touching cells at the offsets
    [d] and [e] from the base cell are paired exactly once if the base
    cell is their lower corner, and not at all otherwise. *)
Lemma pairHits (d e : index3) :
  adjacent d e ->
  length (List.filter (pairTest d e) offsets3)
    = if eqb3 (min3 d e) (0, 0, 0) then 1%nat else 0%nat.
Proof.
  destruct d as [[d0 d1] d2], e as [[e0 e1] e2].
  intros (H0 & H1 & H2 & Hne).
  destruct (eqb3_spec (min3 (d0, d1, d2) (e0, e1, e2)) (0, 0, 0)) as [Hmin | Hmin].
  - cbn in Hmin. injection Hmin as M0 M1 M2.
    assert (C0 : d0 = 0 /\ e0 = 0 \/ d0 = 0 /\ e0 = 1 \/ d0 = 1 /\ e0 = 0) by lia.
    assert (C1 : d1 = 0 /\ e1 = 0 \/ d1 = 0 /\ e1 = 1 \/ d1 = 1 /\ e1 = 0) by lia.
    assert (C2 : d2 = 0 /\ e2 = 0 \/ d2 = 0 /\ e2 = 1 \/ d2 = 1 /\ e2 = 0) by lia.
    destruct C0 as [[-> ->] | [[-> ->] | [-> ->]]];
    destruct C1 as [[-> ->] | [[-> ->] | [-> ->]]];
    destruct C2 as [[-> ->] | [[-> ->] | [-> ->]]];
    try reflexivity.
    exfalso. apply Hne. reflexivity.
  - destruct (length (List.filter (pairTest (d0, d1, d2) (e0, e1, e2)) offsets3))
      eqn:E; [reflexivity|].
    exfalso. destruct (filter_hit (pairTest (d0, d1, d2) (e0, e1, e2)) offsets3)
      as (ac & Hin & Htest); [lia|].
    apply Hmin. unfold offsets3 in Hin. cbn in Hin.
    unfold pairTest in Htest.
    repeat (destruct Hin as [<- | Hin]; [
      cbn in Htest;
      rewrite ?andb_true_iff, ?orb_true_iff, ?Z.eqb_eq in Htest;
      cbn; f_equal; [f_equal|]; lia |]).
    destruct Hin.
Qed.

(** *** The schedule of the whole traversal *)

Lemma elem_of_baseCells (dims b : index3) :
  b ∈ C08BasedTraversal.baseCells dims <-> isBaseCell dims b = true.
Proof.
  destruct dims as [[dx dy] dz], b as [[x y] z].
  unfold C08BasedTraversal.baseCells, isBaseCell.
  rewrite list_elem_of_bind. split.
  - intros (z' & Hin & Hz). apply list_elem_of_bind in Hin.
    destruct Hin as (y' & Hin & Hy). apply list_elem_of_bind in Hin.
    destruct Hin as (x' & Hin & Hx). apply list_elem_of_singleton in Hin.
    injection Hin as -> -> ->.
    apply elem_of_seqZ in Hx, Hy, Hz.
    rewrite !andb_true_iff, !Z.leb_le, !Z.ltb_lt. lia.
  - rewrite !andb_true_iff, !Z.leb_le, !Z.ltb_lt. intros Hb.
    exists z. split; [|apply elem_of_seqZ; lia].
    apply list_elem_of_bind. exists y. split; [|apply elem_of_seqZ; lia].
    apply list_elem_of_bind. exists x. split; [|apply elem_of_seqZ; lia].
    apply list_elem_of_singleton. reflexivity.
Qed.

Lemma NoDup_baseCells (dims : index3) : NoDup (C08BasedTraversal.baseCells dims).
Proof.
  destruct dims as [[dx dy] dz]. unfold C08BasedTraversal.baseCells.
  apply NoDup_bind; [| |apply NoDup_seqZ].
  - intros z1 z2 p _ _ H1 H2.
    apply list_elem_of_bind in H1. destruct H1 as (y1 & H1 & _).
    apply list_elem_of_bind in H1. destruct H1 as (x1 & H1 & _).
    apply list_elem_of_bind in H2. destruct H2 as (y2 & H2 & _).
    apply list_elem_of_bind in H2. destruct H2 as (x2 & H2 & _).
    apply list_elem_of_singleton in H1, H2. congruence.
  - intros z _. apply NoDup_bind; [| |apply NoDup_seqZ].
    + intros y1 y2 p _ _ H1 H2.
      apply list_elem_of_bind in H1. destruct H1 as (x1 & H1 & _).
      apply list_elem_of_bind in H2. destruct H2 as (x2 & H2 & _).
      apply list_elem_of_singleton in H1, H2. congruence.
    + intros y _. apply NoDup_bind; [| |apply NoDup_seqZ].
      * intros x1 x2 p _ _ H1 H2.
        apply list_elem_of_singleton in H1, H2. congruence.
      * intros x _. apply NoDup_singleton.
Qed.

(** If every round hands out the task once when it is the round of [m]
    and never otherwise, the rounds of a duplicate-free list hand it out
    once if [m] is in the list and never otherwise. *)
Lemma occurrences_rounds (t : C08BasedTraversal.Task)
    (f : index3 -> list C08BasedTraversal.Task) (m : index3) (l : list index3) :
  NoDup l ->
  (forall b, b ∈ l ->
     C08BasedTraversal.occurrences t (f b) = if eqb3 b m then 1%nat else 0%nat) ->
  C08BasedTraversal.occurrences t (l ≫= f)
    = if decide (m ∈ l) then 1%nat else 0%nat.
Proof.
  induction 1 as [|b l Hnotin Hnd IH]; intros Hall.
  - cbn. destruct (decide (m ∈ [])) as [Hin | _]; [|reflexivity].
    apply elem_of_nil in Hin. destruct Hin.
  - rewrite bind_cons, occurrences_app, (Hall b) by left.
    rewrite IH by (intros b' Hb'; apply Hall; right; exact Hb').
    destruct (decide (m ∈ b :: l)) as [Hin | Hnin];
      destruct (decide (m ∈ l)) as [Hin' | Hnin'];
      destruct (eqb3_spec b m) as [Heq | Hne]; try reflexivity.
    + subst b. contradiction.
    + apply elem_of_cons in Hin. destruct Hin; congruence.
    + exfalso. apply Hnin. subst b. left.
    + exfalso. apply Hnin. right. exact Hin'.
    + exfalso. apply Hnin. subst b. left.
Qed.

Lemma eqb3_sub_zero (c b : index3) : eqb3 (sub3 c b) (0, 0, 0) = eqb3 b c.
Proof.
  destruct c as [[x y] z], b as [[x' y'] z']. cbn.
  destruct (Z.eqb_spec (x - x') 0), (Z.eqb_spec x' x); try lia;
  destruct (Z.eqb_spec (y - y') 0), (Z.eqb_spec y' y); try lia;
  destruct (Z.eqb_spec (z - z') 0), (Z.eqb_spec z' z); try lia;
  reflexivity.
Qed.

Lemma min3_sub (c1 c2 b : index3) :
  min3 (sub3 c1 b) (sub3 c2 b) = sub3 (min3 c1 c2) b.
Proof.
  destruct c1 as [[x y] z], c2 as [[x' y'] z'], b as [[x'' y''] z'']. cbn.
  f_equal; [f_equal|]; lia.
Qed.

Lemma adjacent_sub (c1 c2 b : index3) :
  adjacent c1 c2 -> adjacent (sub3 c1 b) (sub3 c2 b).
Proof.
  destruct c1 as [[x y] z], c2 as [[x' y'] z'], b as [[x'' y''] z'']. cbn.
  intros (H0 & H1 & H2 & Hne). repeat split; try lia.
  intros Heq. apply Hne. injection Heq as ? ? ?. f_equal; [f_equal|]; lia.
Qed.

(** The whole schedule. *)
Lemma traverseCellPairs_schedule (dims : index3) :
  goodDims dims ->
  C08BasedTraversal.traverseCellPairs
    (C08BasedTraversal.make (gridSize dims) dims)
  = Done (C08BasedTraversal.baseCells dims ≫=
            fun b => map (taskOf dims b) offsets3).
Proof.
  intros Hd. unfold C08BasedTraversal.traverseCellPairs.
  assert (Hdims : C08BasedTraversal._cellsPerDimension
                    (C08BasedTraversal.make (gridSize dims) dims) = dims).
  { unfold C08BasedTraversal.make.
    destruct (C08BasedTraversal.computeOffsets dims); reflexivity. }
  rewrite Hdims.
  rewrite <- (map_id (C08BasedTraversal.baseCells dims)) at 1.
  apply runTasks_map. intros [[x y] z] Hb. cbn [id].
  apply elem_of_baseCells in Hb.
  rewrite threeToOneD_idx3 by (try exact Hd; apply base_inGrid; exact Hb).
  apply processBaseCell_block; assumption.
Qed.

(** The index of a cell as the traversal computes it. *)
Definition cellIndex (dims p : index3) : Z :=
  let '(x, y, z) := p in ThreeDimensionalMapping.threeToOneD x y z dims.

Lemma cellIndex_idx3 (dims p : index3) :
  goodDims dims -> inGrid dims p -> cellIndex dims p = idx3 dims p.
Proof.
  intros Hd Hp. destruct p as [[x y] z]. apply threeToOneD_idx3; assumption.
Qed.

Lemma isBaseCell_decide (dims m : index3) :
  (if decide (m ∈ C08BasedTraversal.baseCells dims) then 1%nat else 0%nat)
    = if isBaseCell dims m then 1%nat else 0%nat.
Proof.
  destruct (decide (m ∈ C08BasedTraversal.baseCells dims)) as [Hin | Hnin].
  - apply elem_of_baseCells in Hin. now rewrite Hin.
  - destruct (isBaseCell dims m) eqn:E; [|reflexivity].
    exfalso. apply Hnin. apply elem_of_baseCells. exact E.
Qed.

Lemma add3_zero (b : index3) : add3 b (0, 0, 0) = b.
Proof. destruct b as [[x y] z]. cbn. now rewrite !Z.add_0_r. Qed.

(** C1 (as amended): on a grid with at least two cells in every
    dimension, the base step at a base cell [b] hands out exactly
    fourteen tasks, in this order: the self task of [b] and thirteen pair
    tasks between cells of the forward 2x2x2 block of [b].  Applied at
    every base cell (every cell with a forward neighbour in each
    dimension), it hands out the self task of a cell once if the cell is a
    base cell and never otherwise, and the pair task of two touching
    cells, in one order or the other, once if the lower corner of the two
    (the minimum of their coordinates) is a base cell and never otherwise:
    no task twice, every pair with a cell outside the last layers once,
    and the tasks lying wholly in a last layer (x = dimsX - 1,
    y = dimsY - 1 or z = dimsZ - 1) not at all. *)
Theorem c08_base_step (dims : index3) :
  let tr := C08BasedTraversal.make (gridSize dims) dims in
  let cell := cellIndex dims in
  goodDims dims ->
  (forall b, isBaseCell dims b = true ->
     C08BasedTraversal.processBaseCell tr (cell b)
     = Done
         [ C08BasedTraversal.processCell (cell b);
           C08BasedTraversal.processCellPair
             (cell b) (cell (add3 b (0, 1, 0)));
           C08BasedTraversal.processCellPair
             (cell (add3 b (0, 1, 0))) (cell (add3 b (0, 0, 1)));
           C08BasedTraversal.processCellPair
             (cell b) (cell (add3 b (0, 0, 1)));
           C08BasedTraversal.processCellPair
             (cell b) (cell (add3 b (0, 1, 1)));
           C08BasedTraversal.processCellPair
             (cell (add3 b (1, 0, 0))) (cell (add3 b (0, 1, 1)));
           C08BasedTraversal.processCellPair
             (cell (add3 b (1, 0, 0))) (cell (add3 b (0, 1, 0)));
           C08BasedTraversal.processCellPair
             (cell (add3 b (1, 0, 0))) (cell (add3 b (0, 0, 1)));
           C08BasedTraversal.processCellPair
             (cell b) (cell (add3 b (1, 0, 0)));
           C08BasedTraversal.processCellPair
             (cell b) (cell (add3 b (1, 1, 0)));
           C08BasedTraversal.processCellPair
             (cell (add3 b (1, 1, 0))) (cell (add3 b (0, 0, 1)));
           C08BasedTraversal.processCellPair
             (cell (add3 b (0, 1, 0))) (cell (add3 b (1, 0, 1)));
           C08BasedTraversal.processCellPair
             (cell b) (cell (add3 b (1, 0, 1)));
           C08BasedTraversal.processCellPair
             (cell b) (cell (add3 b (1, 1, 1))) ]) /\
  exists schedule,
    C08BasedTraversal.traverseCellPairs tr = Done schedule /\
    (forall c, inGrid dims c ->
       C08BasedTraversal.occurrences
         (C08BasedTraversal.processCell (cell c)) schedule
       = if isBaseCell dims c then 1%nat else 0%nat) /\
    (forall c1 c2, inGrid dims c1 -> inGrid dims c2 -> adjacent c1 c2 ->
       C08BasedTraversal.occurrences
         (C08BasedTraversal.processCellPair (cell c1) (cell c2)) schedule
       = if isBaseCell dims (min3 c1 c2) then 1%nat else 0%nat) /\
    (forall c1 c2, inGrid dims c1 -> inGrid dims c2 -> adjacent c1 c2 ->
       isBaseCell dims c1 = true ->
       C08BasedTraversal.occurrences
         (C08BasedTraversal.processCellPair (cell c1) (cell c2)) schedule
       = 1%nat).
Proof.
  intros tr cell Hd. split.
  - intros b Hb.
    assert (Hc : forall a, inCube a -> cell (add3 b a) = idx3 dims (add3 b a)).
    { intros a Ha. apply cellIndex_idx3; [exact Hd|].
      apply base_add_inGrid; assumption. }
    assert (Hb0 : cell b = idx3 dims b).
    { apply cellIndex_idx3; [exact Hd | apply base_inGrid; exact Hb]. }
    rewrite !Hc by (unfold inCube; cbn; lia). rewrite Hb0.
    unfold tr. rewrite processBaseCell_block by assumption.
    unfold offsets3, taskOf. cbn [map fst snd eqb3 Z.eqb andb Pos.eqb].
    rewrite add3_zero. reflexivity.
  - eexists. split; [apply traverseCellPairs_schedule; exact Hd|].
    assert (Hself : forall c, inGrid dims c ->
              C08BasedTraversal.occurrences
                (C08BasedTraversal.processCell (cell c))
                (C08BasedTraversal.baseCells dims ≫=
                   fun b => map (taskOf dims b) offsets3)
              = if isBaseCell dims c then 1%nat else 0%nat).
    { intros c Hc. unfold cell. rewrite cellIndex_idx3 by assumption.
      rewrite <- isBaseCell_decide.
      apply occurrences_rounds; [apply NoDup_baseCells|].
      intros b Hb. apply elem_of_baseCells in Hb.
      rewrite self_occurrences_block by assumption.
      rewrite selfHits. now rewrite eqb3_sub_zero. }
    assert (Hpair : forall c1 c2, inGrid dims c1 -> inGrid dims c2 ->
              adjacent c1 c2 ->
              C08BasedTraversal.occurrences
                (C08BasedTraversal.processCellPair (cell c1) (cell c2))
                (C08BasedTraversal.baseCells dims ≫=
                   fun b => map (taskOf dims b) offsets3)
              = if isBaseCell dims (min3 c1 c2) then 1%nat else 0%nat).
    { intros c1 c2 H1 H2 Hadj. unfold cell.
      rewrite !cellIndex_idx3 by assumption.
      rewrite <- isBaseCell_decide.
      apply occurrences_rounds; [apply NoDup_baseCells|].
      intros b Hb. apply elem_of_baseCells in Hb.
      rewrite pair_occurrences_block by assumption.
      rewrite pairHits by (apply adjacent_sub; exact Hadj).
      now rewrite min3_sub, eqb3_sub_zero. }
    split; [exact Hself|]. split; [exact Hpair|].
    intros c1 c2 H1 H2 Hadj Hbase. rewrite Hpair by assumption.
    assert (Hmin : isBaseCell dims (min3 c1 c2) = true).
    { destruct dims as [[dx dy] dz], c1 as [[x y] z], c2 as [[x' y'] z'].
      cbn in *. rewrite !andb_true_iff, !Z.leb_le, !Z.ltb_lt in *. lia. }
    now rewrite Hmin.
Qed.

Lemma c08_base_step_witness :
  exists schedule,
    C08BasedTraversal.traverseCellPairs
      (C08BasedTraversal.make (gridSize (3, 3, 3)) (3, 3, 3)) = Done schedule /\
    (forall c, inGrid (3, 3, 3) c ->
       C08BasedTraversal.occurrences
         (C08BasedTraversal.processCell (cellIndex (3, 3, 3) c)) schedule
       = if isBaseCell (3, 3, 3) c then 1%nat else 0%nat) /\
    (forall c1 c2, inGrid (3, 3, 3) c1 -> inGrid (3, 3, 3) c2 -> adjacent c1 c2 ->
       C08BasedTraversal.occurrences
         (C08BasedTraversal.processCellPair
            (cellIndex (3, 3, 3) c1) (cellIndex (3, 3, 3) c2)) schedule
       = if isBaseCell (3, 3, 3) (min3 c1 c2) then 1%nat else 0%nat) /\
    (forall c1 c2, inGrid (3, 3, 3) c1 -> inGrid (3, 3, 3) c2 -> adjacent c1 c2 ->
       isBaseCell (3, 3, 3) c1 = true ->
       C08BasedTraversal.occurrences
         (C08BasedTraversal.processCellPair
            (cellIndex (3, 3, 3) c1) (cellIndex (3, 3, 3) c2)) schedule
       = 1%nat).
Proof.
  assert (Hd : goodDims (3, 3, 3)) by (cbn; lia).
  destruct (c08_base_step (3, 3, 3) Hd) as [_ Hschedule].
  exact Hschedule.
Defined.

(** The claim as stated has every pair of touching cells, and every
    cell's self task, scheduled exactly once.  On the 3x3x3 grid the 8
    base cells hand out 112 tasks; the touching cells (2,0,0) and (2,1,0)
    of the last x layer are never paired, and the cell (2,2,2) never gets
    its self task. *)
Lemma c08_last_layer_not_scheduled :
  goodDims (3, 3, 3) /\
  inGrid (3, 3, 3) (2, 0, 0) /\ inGrid (3, 3, 3) (2, 1, 0) /\
  adjacent (2, 0, 0) (2, 1, 0) /\
  match C08BasedTraversal.traverseCellPairs
          (C08BasedTraversal.make 27 (3, 3, 3)) with
  | Done schedule =>
      length schedule = 112%nat /\
      C08BasedTraversal.occurrences
        (C08BasedTraversal.processCellPair
           (cellIndex (3, 3, 3) (2, 0, 0)) (cellIndex (3, 3, 3) (2, 1, 0)))
        schedule = 0%nat /\
      C08BasedTraversal.occurrences
        (C08BasedTraversal.processCell (cellIndex (3, 3, 3) (2, 2, 2)))
        schedule = 0%nat
  | _ => False
  end.
Proof.
  split; [cbn; lia|]. split; [cbn; lia|]. split; [cbn; lia|].
  split; [cbn; repeat split; try lia; discriminate|].
  vm_compute. repeat split; reflexivity.
Qed.

(** Outside the base cells the base step is not defined: at the last cell
    of the 3x3x3 grid, and at every cell whose block leaves the vector,
    [at] throws. *)
Example c08_base_step_outside :
  C08BasedTraversal.processBaseCell (C08BasedTraversal.make 27 (3, 3, 3)) 26
    = Thrown "vector::_M_range_check"%string.
Proof. vm_compute. reflexivity. Qed.

(** ** VerletClusterLists *)

Definition not_supported : string := "Not supported!".

Lemma visited_tower (towers : list ClusterTower.t) (tower : nat) (index : Z)
    (p : Particle) :
  (tower, index, p) ∈ VerletClusterLists.visited towers ->
  is_Some (towers !! tower).
Proof.
  unfold VerletClusterLists.visited. intros Hin.
  apply list_elem_of_bind in Hin. destruct Hin as ([ti tw] & Hin & Hzip).
  apply list_elem_of_bind in Hin. destruct Hin as ([pi q] & Hin & _).
  apply list_elem_of_singleton in Hin. injection Hin as -> -> ->.
  apply elem_of_lookup_zip_with_1 in Hzip.
  destruct Hzip as (i & x & y & Heq & Hseq & Htw).
  injection Heq as -> ->. apply lookup_seq in Hseq. destruct Hseq as [-> _].
  exists y. exact Htw.
Qed.

Lemma deleteParticle_throws (c : VerletClusterLists.t) (tower : nat) (index : Z) :
  is_Some (VerletClusterLists._towers c !! tower) ->
  VerletClusterLists.deleteParticle c tower index = Thrown not_supported.
Proof.
  intros [tw Htw]. unfold VerletClusterLists.deleteParticle.
  rewrite Htw. reflexivity.
Qed.

Lemma fold_thrown {A S : Type} (step : outcome S -> A -> outcome S) (l : list A)
    (what : string) :
  (forall a, step (Thrown what) a = Thrown what) ->
  fold_left step l (Thrown what) = Thrown what.
Proof.
  intros Hstep. induction l as [|a l IH]; [reflexivity|].
  cbn. rewrite Hstep. exact IH.
Qed.

(** The first loop: it returns, and then changes nothing, exactly when
    every particle it visits is owned. *)
Lemma deleteHaloParticles_loop (c : VerletClusterLists.t)
    (l : list (nat * Z * Particle)) :
  (forall tower index p, (tower, index, p) ∈ l ->
     is_Some (VerletClusterLists._towers c !! tower)) ->
  fold_left
    (fun acc '(tower, index, p) =>
       bind_outcome acc (fun c' =>
         if negb (isOwned p) then VerletClusterLists.deleteParticle c' tower index
         else Done c'))
    l (Done c)
  = if forallb (fun v => isOwned (snd v)) l then Done c
    else Thrown not_supported.
Proof.
  induction l as [|[[tower index] p] l IH]; intros Htw; [reflexivity|].
  cbn [fold_left forallb bind_outcome snd].
  destruct (isOwned p); cbn [negb andb].
  - apply IH. intros t i q Hq. apply (Htw t i q). right. exact Hq.
  - rewrite deleteParticle_throws by (apply (Htw tower index p); left).
    apply fold_thrown. intros [[t i] q]. reflexivity.
Qed.

(** The second loop: it returns, with no particle and the container as
    it was, exactly when every particle it visits is inside the box. *)
Lemma updateContainer_loop (c : VerletClusterLists.t)
    (l : list (nat * Z * Particle)) :
  (forall tower index p, (tower, index, p) ∈ l ->
     is_Some (VerletClusterLists._towers c !! tower)) ->
  fold_left
    (fun acc '(tower, index, p) =>
       bind_outcome acc (fun '(invalidParticles, c') =>
         if negb (inBox (getR p) (VerletClusterLists.getBoxMin c')
                        (VerletClusterLists.getBoxMax c')) then
           bind_outcome (VerletClusterLists.deleteParticle c' tower index)
             (fun c'' => Done (invalidParticles ++ [p], c''))
         else Done (invalidParticles, c')))
    l (Done ([], c))
  = if forallb (fun v => inBox (getR (snd v)) (VerletClusterLists.getBoxMin c)
                               (VerletClusterLists.getBoxMax c)) l
    then Done ([], c) else Thrown not_supported.
Proof.
  induction l as [|[[tower index] p] l IH]; intros Htw; [reflexivity|].
  cbn [fold_left forallb bind_outcome snd].
  destruct (inBox (getR p) (VerletClusterLists.getBoxMin c)
                  (VerletClusterLists.getBoxMax c)); cbn [negb andb].
  - apply IH. intros t i q Hq. apply (Htw t i q). right. exact Hq.
  - rewrite deleteParticle_throws by (apply (Htw tower index p); left).
    cbn [bind_outcome]. apply fold_thrown. intros [[t i] q]. reflexivity.
Qed.

(** [updateContainer] of the cluster lists returns only when it has
    nothing to do: if every particle in the towers is owned and inside
    the box it returns no particle and leaves the container as it was;
    if one is not, the deletion it attempts throws. *)
Lemma vcl_updateContainer (c : VerletClusterLists.t) :
  VerletClusterLists.updateContainer c
  = if forallb (fun v => isOwned (snd v))
               (VerletClusterLists.visited (VerletClusterLists._towers c)) then
      if forallb (fun v => inBox (getR (snd v)) (VerletClusterLists.getBoxMin c)
                                 (VerletClusterLists.getBoxMax c))
                 (VerletClusterLists.visited (VerletClusterLists._towers c))
      then Done ([], c) else Thrown not_supported
    else Thrown not_supported.
Proof.
  unfold VerletClusterLists.updateContainer, VerletClusterLists.deleteHaloParticles.
  rewrite deleteHaloParticles_loop
    by (intros t i p Hp; eapply visited_tower; exact Hp).
  destruct (forallb _ _); [|reflexivity]. cbn [bind_outcome].
  apply updateContainer_loop. intros t i p Hp. eapply visited_tower; exact Hp.
Qed.

(** A container over the unit box whose one tower holds a particle that
    was added at (0.5, 0.5, 0.5), clustered, and then moved. *)
Definition oneParticleTower (r : array3) : ClusterTower.t :=
  {| ClusterTower._clusters := [ClusterTower.mkCluster 0];
     ClusterTower._particles :=
       [ newParticle r (0, 0, 0)%float 1;
         dummyAt 10%float 1%float 3;
         dummyAt 10%float 1%float 2;
         dummyAt 10%float 1%float 1 ];
     ClusterTower._numDummyParticles := 3 |}.


Example oneParticleTower_is_built :
  match ClusterTower.generateClusters
          (ClusterTower.filled (ClusterTower.mk [] [] 0)
             [newParticle (0.5, 0.5, 0.5)%float (0, 0, 0)%float 1]) with
  | Some (tw, _) =>
      ClusterTower.fillUpWithDummyParticles tw 10%float 1%float
        = Some (oneParticleTower (0.5, 0.5, 0.5)%float)
  | None => False
  end.
Proof. vm_compute. reflexivity. Qed.


(** ** DomainTools *)

Lemma getAccumulatedTail_eq (d0 d1 d2 : Z) :
  1 <= d1 -> 1 <= d2 -> d1 * d2 < 2 ^ 31 ->
  DomainTools.getAccumulatedTail 0 (d0, d1, d2) = d1 * d2 /\
  DomainTools.getAccumulatedTail 1 (d0, d1, d2) = d2 /\
  DomainTools.getAccumulatedTail 2 (d0, d1, d2) = 1.
Proof.
  intros H1 H2 H.
  assert (Hd1 : d1 < 2 ^ 31) by nia.
  assert (Hd2 : d2 < 2 ^ 31) by nia.
  repeat split.
  - change (DomainTools.getAccumulatedTail 0 (d0, d1, d2))
      with (to_int (to_int (1 * d1) * d2)).
    rewrite (to_int_small (1 * d1)) by lia. rewrite to_int_small by lia. lia.
  - change (DomainTools.getAccumulatedTail 1 (d0, d1, d2)) with (to_int (1 * d2)).
    rewrite to_int_small by lia. lia.
Qed.

Lemma convertIdToIndex_eq (i0 i1 i2 d0 d1 d2 : Z) :
  1 <= d1 -> 1 <= d2 -> 0 <= i0 -> 0 <= i1 < d1 -> 0 <= i2 < d2 ->
  (i0 + 1) * (d1 * d2) < 2 ^ 31 ->
  DomainTools.convertIdToIndex (i0, i1, i2) (d0, d1, d2)
  = d1 * d2 * i0 + d2 * i1 + i2.
Proof.
  intros H1 H2 Hi0 Hi1 Hi2 Hb.
  assert (Hd : d1 * d2 < 2 ^ 31) by nia.
  destruct (getAccumulatedTail_eq d0 d1 d2 H1 H2 Hd) as (T0 & T1 & T2).
  unfold DomainTools.convertIdToIndex.
  change (seqZ 0 3) with [0; 1; 2]. cbn [fold_left].
  rewrite T0, T1, T2. cbn [DomainTools.get3 Z.eqb Pos.eqb].
  assert (A0 : 0 <= d1 * d2 * i0) by nia.
  assert (A1 : 0 <= d2 * i1 < d1 * d2) by nia.
  assert (A2 : d1 * d2 * i0 + d1 * d2 <= 2 ^ 31) by nia.
  assert (A3 : d2 < 2 ^ 31) by nia.
  assert (A4 : d2 * i1 + d2 <= d1 * d2) by nia.
  rewrite (to_int_small (d1 * d2 * i0)) by lia.
  rewrite (to_int_small (0 + d1 * d2 * i0)) by lia.
  rewrite (to_int_small (d2 * i1)) by lia.
  rewrite (to_int_small (0 + d1 * d2 * i0 + d2 * i1)) by lia.
  rewrite (to_int_small (1 * i2)) by lia.
  rewrite to_int_small by lia. lia.
Qed.

Lemma quot_div_nonneg (a b : Z) : 0 <= a -> 0 < b -> Z.quot a b = a / b.
Proof. intros. apply Z.quot_div_nonneg; lia. Qed.

Lemma convertIndexToId_eq (k d0 d1 d2 : Z) :
  1 <= d1 -> 1 <= d2 -> d1 * d2 < 2 ^ 31 -> 0 <= k < 2 ^ 31 ->
  DomainTools.convertIndexToId k (d0, d1, d2)
  = Some (k / (d1 * d2), k mod (d1 * d2) / d2, k mod d2).
Proof.
  intros H1 H2 Hd Hk.
  destruct (getAccumulatedTail_eq d0 d1 d2 H1 H2 Hd) as (T0 & T1 & T2).
  unfold DomainTools.convertIndexToId.
  change (seqZ 0 3) with [0; 1; 2]. cbn [fold_left mbind option_bind].
  rewrite T0, T1, T2.
  assert (P : 0 < d1 * d2) by nia.
  destruct (d1 * d2 =? 0) eqn:E0; [apply Z.eqb_eq in E0; lia|].
  destruct (d2 =? 0) eqn:E1; [apply Z.eqb_eq in E1; lia|].
  cbn [Z.eqb Pos.eqb DomainTools.set3 DomainTools.get3].
  pose proof (Z.div_mod k (d1 * d2) ltac:(lia)) as Hdm.
  pose proof (Z.mod_pos_bound k (d1 * d2) P) as Hm.
  assert (Hq : 0 <= k / (d1 * d2) <= k).
  { split; [apply Z.div_pos; lia|]. apply Z.div_le_upper_bound; nia. }
  rewrite (quot_div_nonneg k (d1 * d2)) by lia.
  rewrite (to_int_small (k / (d1 * d2))) by lia.
  assert (Hqq : 0 <= d1 * d2 * (k / (d1 * d2)) <= k) by nia.
  rewrite (to_int_small (d1 * d2 * (k / (d1 * d2)))) by lia.
  replace (k - d1 * d2 * (k / (d1 * d2))) with (k mod (d1 * d2)) by lia.
  rewrite (to_int_small (k mod (d1 * d2))) by lia.
  set (r := k mod (d1 * d2)) in *.
  pose proof (Z.div_mod r d2 ltac:(lia)) as Hdm2.
  pose proof (Z.mod_pos_bound r d2 ltac:(lia)) as Hm2.
  assert (Hq2 : 0 <= r / d2 <= r).
  { split; [apply Z.div_pos; lia|]. apply Z.div_le_upper_bound; nia. }
  cbn [mbind option_bind DomainTools.set3 DomainTools.get3 Z.eqb Pos.eqb].
  rewrite (quot_div_nonneg r d2) by lia.
  rewrite (to_int_small (r / d2)) by lia.
  assert (Hqq2 : 0 <= d2 * (r / d2) <= r) by nia.
  rewrite (to_int_small (d2 * (r / d2))) by lia.
  replace (r - d2 * (r / d2)) with (r mod d2) by lia.
  rewrite (to_int_small (r mod d2)) by lia.
  cbn [mbind option_bind DomainTools.set3 DomainTools.get3 Z.eqb Pos.eqb].
  rewrite Z.quot_1_r. rewrite (to_int_small (r mod d2)) by lia.
  assert (Hr : r mod d2 = k mod d2).
  { unfold r. apply Z.mod_mod_divide. exists d1. reflexivity. }
  rewrite Hr. reflexivity.
Qed.

(** The product of the factors collected so far. *)
Definition product (l : list Z) : Z := fold_right Z.mul 1 l.

Lemma product_app (l k : list Z) : product (l ++ k) = product l * product k.
Proof.
  unfold product. induction l as [|x l IH]; cbn [app fold_right]; [lia|].
  rewrite IH. ring.
Qed.

Lemma product_Permutation (l k : list Z) : l ≡ₚ k -> product l = product k.
Proof.
  unfold product.
  induction 1 as [|x l k _ IH|x y l|l k m _ IH1 _ IH2]; cbn [fold_right].
  - reflexivity.
  - rewrite IH. reflexivity.
  - ring.
  - congruence.
Qed.

Lemma product_pos (l : list Z) : Forall (fun x => 1 <= x) l -> 1 <= product l.
Proof.
  unfold product. induction 1 as [|x l Hx _ IH]; cbn [fold_right]; [lia|]. nia.
Qed.

Lemma product_length (l : list Z) :
  Forall (fun x => 2 <= x) l -> Z.of_nat (length l) < product l.
Proof.
  unfold product.
  induction 1 as [|x l Hx _ IH]; cbn [length fold_right]; [lia|]. nia.
Qed.

Lemma product_singleton (x : Z) : product [x] = x.
Proof. unfold product. cbn [fold_right]. lia. Qed.

Lemma factorsOfTwo_spec (fuel : nat) :
  forall (m : Z) (l : list Z),
    1 <= m -> m <= Z.of_nat fuel ->
    exists m' l',
      DomainTools.factorsOfTwo fuel m l = Some (m', l') /\
      1 <= m' <= m /\ m' mod 2 = 1 /\
      product l' * m' = product l * m /\
      (Forall (fun x => 2 <= x) l -> Forall (fun x => 2 <= x) l').
Proof.
  induction fuel as [|fuel IH]; intros m l Hm Hf; [lia|].
  cbn [DomainTools.factorsOfTwo].
  destruct (m mod 2 =? 0) eqn:E.
  - apply Z.eqb_eq in E.
    assert (Hdm := Z.div_mod m 2 ltac:(lia)).
    destruct (IH (m / 2) (l ++ [2])) as (m' & l' & Hr & Hb & Hodd & Hp & Hall);
      [lia | lia |].
    exists m', l'. split; [exact Hr|]. split; [lia|]. split; [exact Hodd|].
    split.
    + rewrite Hp, product_app, product_singleton. nia.
    + intros Hl. apply Hall. apply Forall_app. split; [exact Hl|].
      constructor; [lia | constructor].
  - apply Z.eqb_neq in E. exists m, l.
    pose proof (Z.mod_pos_bound m 2 ltac:(lia)).
    split; [reflexivity|]. split; [lia|]. split; [lia|]. split; [reflexivity|].
    auto.
Qed.

Lemma factorsOfTwo_zero (fuel : nat) (l : list Z) :
  DomainTools.factorsOfTwo fuel 0 l = None.
Proof.
  revert l. induction fuel as [|fuel IH]; intros l; [reflexivity|].
  cbn [DomainTools.factorsOfTwo]. change (0 mod 2 =? 0) with true. cbn iota.
  change (0 / 2) with 0. apply IH.
Qed.

Lemma oddFactors_spec (N : Z) (fuel : nat) :
  forall (i m : Z) (l : list Z),
    N + 2 < 2 ^ 31 -> 1 <= m <= N -> 3 <= i <= N + 2 -> i mod 2 = 1 ->
    (forall d, 2 <= d < i -> m mod d <> 0) ->
    (1 <= fuel)%nat -> 2 * m + 4 - i <= Z.of_nat fuel ->
    exists l',
      DomainTools.oddFactors fuel i m l = Some (1, l') /\
      product l' = product l * m /\
      (Forall (fun x => 2 <= x) l -> Forall (fun x => 2 <= x) l').
Proof.
  induction fuel as [|fuel IH]; intros i m l HN Hm Hi Hodd Hnd H1 Hf; [lia|].
  cbn [DomainTools.oddFactors].
  assert (Hw : wrap32 i = i) by (unfold wrap32; apply Z.mod_small; lia).
  rewrite Hw.
  destruct (i <=? m) eqn:E.
  - apply Z.leb_le in E.
    destruct (i =? 0) eqn:E0; [apply Z.eqb_eq in E0; lia|].
    assert (Hdm := Z.div_mod m i ltac:(lia)).
    destruct (m mod i =? 0) eqn:Ed.
    + apply Z.eqb_eq in Ed.
      assert (Hq : 1 <= m / i < m) by nia.
      destruct (IH i (m / i) (l ++ [i])) as (l' & Hr & Hp & Hall);
        try lia.
      * intros d Hd Hz. apply (Hnd d Hd).
        apply Z.mod_divide in Hz; [|lia]. destruct Hz as [c Hc].
        apply Z.mod_divide; [lia|]. exists (c * i). nia.
      * exists l'. split; [exact Hr|]. split.
        -- rewrite Hp, product_app, product_singleton. nia.
        -- intros Hl. apply Hall. apply Forall_app. split; [exact Hl|].
           constructor; [lia | constructor].
    + apply Z.eqb_neq in Ed.
      rewrite (to_int_small (i + 2)) by lia.
      apply IH; try lia.
      * rewrite <- Zplus_mod_idemp_l, Hodd. reflexivity.
      * intros d Hd Hz.
        destruct (Z.eq_dec d i) as [-> | Hne]; [contradiction|].
        destruct (Z.eq_dec d (i + 1)) as [-> | Hne'].
        -- apply (Hnd 2 ltac:(lia)).
           apply Z.mod_divide in Hz; [|lia]. destruct Hz as [c Hc].
           apply Z.mod_divide; [lia|].
           assert (He : (i + 1) mod 2 = 0).
           { rewrite <- Zplus_mod_idemp_l, Hodd. reflexivity. }
           apply Z.mod_divide in He; [|lia]. destruct He as [e He].
           exists (c * e). nia.
        -- apply (Hnd d); [lia | exact Hz].
  - apply Z.leb_gt in E.
    assert (m = 1).
    { destruct (Z.eq_dec m 1) as [|Hne]; [assumption|]. exfalso.
      apply (Hnd m); [lia|]. apply Z.mod_same. lia. }
    subst m. exists l. split; [reflexivity|]. split; [lia|]. auto.
Qed.

Lemma reduceFactors_spec (fuel : nat) :
  forall l : list Z,
    Forall (fun x => 1 <= x) l -> product l < 2 ^ 31 ->
    (length l <= fuel)%nat -> (1 <= fuel)%nat ->
    exists l',
      DomainTools.reduceFactors fuel l = Some l' /\
      product l' = product l /\ Forall (fun x => 1 <= x) l' /\
      (length l' <= 3)%nat.
Proof.
  induction fuel as [|fuel IH]; intros l Hall Hp Hlen H1; [lia|].
  cbn [DomainTools.reduceFactors]. unfold vsize.
  destruct (3 <? Z.of_nat (length l)) eqn:E.
  - apply Z.ltb_lt in E.
    pose proof (merge_sort_Permutation Z.le l) as Hperm.
    assert (Hall' : Forall (fun x => 1 <= x) (merge_sort Z.le l)).
    { eapply Permutation_Forall; [symmetry; exact Hperm | exact Hall]. }
    pose proof (Permutation_length Hperm) as Hl.
    pose proof (product_Permutation _ _ Hperm) as Hpp.
    destruct (merge_sort Z.le l) as [|a [|b rest]]; cbn [length] in Hl; try lia.
    inversion Hall' as [|? ? Ha Hall'']; subst.
    inversion Hall'' as [|? ? Hb Hrest]; subst.
    assert (Hr : 1 <= product rest) by (apply product_pos; exact Hrest).
    assert (Hab : product (a :: b :: rest) = a * b * product rest).
    { unfold product. cbn [fold_right]. ring. }
    assert (Hsmall : b * a < 2 ^ 31) by nia.
    rewrite (to_int_small (b * a)) by nia.
    destruct (IH (b * a :: rest)) as (l' & Hrun & Hprod & Hl' & Hlen').
    + constructor; [nia | exact Hrest].
    + replace (product (b * a :: rest)) with (product (a :: b :: rest)); [lia|].
      unfold product. cbn [fold_right]. ring.
    + cbn [length]. lia.
    + cbn [length] in Hl. lia.
    + exists l'. split; [exact Hrun|]. split; [|auto].
      rewrite Hprod, <- Hpp. unfold product. cbn [fold_right]. ring.
  - apply Z.ltb_ge in E. exists l. split; [reflexivity|].
    split; [reflexivity|]. split; [exact Hall | lia].
Qed.

Lemma Forall_ge_weaken (l : list Z) :
  Forall (fun x => 2 <= x) l -> Forall (fun x => 1 <= x) l.
Proof. intros H. eapply Forall_impl; [exact H|]. intros x Hx. cbn in Hx. lia. Qed.

(** X1: for a number of subdomains from 1 up to 2^31 - 3,
    [generateDecomposition] returns (with fuel for [2 * subdomainCount + 4]
    loop tests) three sizes, each at least 1, whose product is the
    number of subdomains. *)
Theorem generateDecomposition_product (fuel : nat) (subdomainCount : Z) :
  1 <= subdomainCount -> subdomainCount + 2 < 2 ^ 31 ->
  2 * subdomainCount + 4 <= Z.of_nat fuel ->
  exists d0 d1 d2,
    DomainTools.generateDecomposition fuel subdomainCount = Some (d0, d1, d2) /\
    d0 * d1 * d2 = subdomainCount /\ 1 <= d0 /\ 1 <= d1 /\ 1 <= d2.
Proof.
  intros Hn Hb Hf. unfold DomainTools.generateDecomposition.
  destruct (factorsOfTwo_spec fuel subdomainCount [] Hn ltac:(lia))
    as (m & l1 & H1 & Hm & Hodd & Hp1 & Hall1).
  rewrite H1. cbn [mbind option_bind].
  destruct (oddFactors_spec subdomainCount fuel 3 m l1 Hb ltac:(lia) ltac:(lia)
              eq_refl) as (l2 & H2 & Hp2 & Hall2); [| lia | lia |].
  { intros d Hd. assert (d = 2) by lia. subst d. lia. }
  rewrite H2. cbn [mbind option_bind].
  specialize (Hall1 ltac:(constructor)). specialize (Hall2 Hall1).
  assert (Hprod : product l2 = subdomainCount).
  { rewrite Hp2, Hp1. unfold product. cbn [fold_right]. lia. }
  pose proof (product_length l2 Hall2) as Hlen.
  destruct (reduceFactors_spec fuel l2 (Forall_ge_weaken _ Hall2))
    as (l3 & H3 & Hp3 & Hall3 & Hlen3); [lia | lia | lia |].
  rewrite H3. cbn [mbind option_bind].
  rewrite Hprod in Hp3.
  destruct l3 as [|a [|b [|c [|? ?]]]]; cbn [length] in Hlen3; try lia;
    cbn [DomainTools.popFront];
    repeat (apply Forall_cons in Hall3; destruct Hall3 as [? Hall3]);
    unfold product in Hp3; cbn [fold_right] in Hp3;
    eexists _, _, _; (split; [reflexivity|]); repeat split; lia.
Qed.

(** X2: for 0 subdomains [generateDecomposition] does not return: the
    first loop halves 0 for ever, whatever the fuel. *)
Theorem generateDecomposition_zero (fuel : nat) :
  DomainTools.generateDecomposition fuel 0 = None.
Proof.
  unfold DomainTools.generateDecomposition. rewrite factorsOfTwo_zero.
  reflexivity.
Qed.

Example generateDecomposition_examples :
  DomainTools.generateDecomposition 100 12 = Some (2, 2, 3) /\
  DomainTools.generateDecomposition 100 1 = Some (1, 1, 1) /\
  DomainTools.generateDecomposition 100 7 = Some (7, 1, 1) /\
  DomainTools.generateDecomposition 200 48 = Some (4, 3, 4) /\
  DomainTools.generateDecomposition 200 36 = Some (4, 3, 3).
Proof. vm_compute. repeat split; reflexivity. Qed.

(** X3: the index of a domain id, converted back, is the id: for an id
    within the decomposition in its last two coordinates, as long as the
    index fits an [int]. *)
Theorem convertIndexToId_convertIdToIndex (i0 i1 i2 d0 d1 d2 : Z) :
  1 <= d1 -> 1 <= d2 -> 0 <= i0 -> 0 <= i1 < d1 -> 0 <= i2 < d2 ->
  (i0 + 1) * (d1 * d2) < 2 ^ 31 ->
  DomainTools.convertIndexToId
    (DomainTools.convertIdToIndex (i0, i1, i2) (d0, d1, d2)) (d0, d1, d2)
  = Some (i0, i1, i2).
Proof.
  intros H1 H2 Hi0 Hi1 Hi2 Hb.
  rewrite convertIdToIndex_eq by assumption.
  assert (A1 : 0 <= d2 * i1 + i2 < d1 * d2) by nia.
  assert (A0 : 0 <= d1 * d2 * i0) by nia.
  rewrite convertIndexToId_eq; [| assumption | assumption | nia | nia].
  assert (P : 0 < d1 * d2) by nia.
  assert (Hq : (d1 * d2 * i0 + d2 * i1 + i2) / (d1 * d2) = i0).
  { symmetry. apply (Z.div_unique _ _ _ (d2 * i1 + i2)); [lia | lia]. }
  assert (Hr : (d1 * d2 * i0 + d2 * i1 + i2) mod (d1 * d2) = d2 * i1 + i2).
  { symmetry. apply (Z.mod_unique _ _ i0); [lia | lia]. }
  assert (Hq1 : (d2 * i1 + i2) / d2 = i1).
  { symmetry. apply (Z.div_unique _ _ _ i2); [lia | lia]. }
  assert (Hr2 : (d1 * d2 * i0 + d2 * i1 + i2) mod d2 = i2).
  { symmetry. apply (Z.mod_unique _ _ (d1 * i0 + i1)); [lia | lia]. }
  rewrite Hq, Hr, Hq1, Hr2. reflexivity.
Qed.

(** X4: every index below the number of subdomains has an id within
    the decomposition, and converting the id back gives the index. *)
Theorem convertIdToIndex_convertIndexToId (domainIndex d0 d1 d2 : Z) :
  1 <= d0 -> 1 <= d1 -> 1 <= d2 -> d0 * d1 * d2 < 2 ^ 31 ->
  0 <= domainIndex < d0 * d1 * d2 ->
  exists i0 i1 i2,
    DomainTools.convertIndexToId domainIndex (d0, d1, d2) = Some (i0, i1, i2) /\
    0 <= i0 < d0 /\ 0 <= i1 < d1 /\ 0 <= i2 < d2 /\
    DomainTools.convertIdToIndex (i0, i1, i2) (d0, d1, d2) = domainIndex.
Proof.
  intros H0 H1 H2 Hb Hk.
  assert (P : 0 < d1 * d2) by nia.
  assert (Hd : d1 * d2 < 2 ^ 31) by nia.
  rewrite convertIndexToId_eq by (try assumption; lia).
  pose proof (Z.div_mod domainIndex (d1 * d2) ltac:(lia)) as Hdm.
  pose proof (Z.mod_pos_bound domainIndex (d1 * d2) P) as Hm.
  assert (Hr : (domainIndex mod (d1 * d2)) mod d2 = domainIndex mod d2).
  { apply Z.mod_mod_divide. exists d1. reflexivity. }
  revert Hdm Hm Hr.
  generalize (domainIndex mod (d1 * d2)) as r.
  generalize (domainIndex / (d1 * d2)) as q. intros q r Hdm Hm Hr.
  pose proof (Z.div_mod r d2 ltac:(lia)) as Hdm2.
  pose proof (Z.mod_pos_bound r d2 ltac:(lia)) as Hm2.
  rewrite <- Hr.
  revert Hdm2 Hm2. generalize (r mod d2) as r2. generalize (r / d2) as q2.
  intros q2 r2 Hdm2 Hm2.
  assert (Hq0 : 0 <= q < d0) by nia.
  assert (Hq1 : 0 <= q2 < d1) by nia.
  exists q, q2, r2. split; [reflexivity|].
  split; [exact Hq0|]. split; [exact Hq1|]. split; [lia|].
  rewrite convertIdToIndex_eq; try assumption; try lia. nia.
Qed.

(** X5: the extent of a subdomain is the unit cell of its id: in every
    dimension it runs from the id's coordinate to the next integer, stays
    within the decomposition, and determines the subdomain index. *)
Theorem getExtentOfSubdomain_unit_cell (subdomainIndex d0 d1 d2 : Z) :
  1 <= d0 -> 1 <= d1 -> 1 <= d2 -> d0 * d1 * d2 < 2 ^ 31 ->
  0 <= subdomainIndex < d0 * d1 * d2 ->
  exists i0 i1 i2,
    DomainTools.getExtentOfSubdomain subdomainIndex (d0, d1, d2)
      = Some [i0; i0 + 1; i1; i1 + 1; i2; i2 + 1] /\
    0 <= i0 < d0 /\ 0 <= i1 < d1 /\ 0 <= i2 < d2 /\
    subdomainIndex = d1 * d2 * i0 + d2 * i1 + i2.
Proof.
  intros H0 H1 H2 Hb Hk.
  assert (P : 0 < d1 * d2) by nia.
  assert (Hd : d1 * d2 < 2 ^ 31) by nia.
  unfold DomainTools.getExtentOfSubdomain.
  rewrite convertIndexToId_eq by (try assumption; lia).
  cbn [mbind option_bind].
  pose proof (Z.div_mod subdomainIndex (d1 * d2) ltac:(lia)) as Hdm.
  pose proof (Z.mod_pos_bound subdomainIndex (d1 * d2) P) as Hm.
  assert (Hr : (subdomainIndex mod (d1 * d2)) mod d2 = subdomainIndex mod d2).
  { apply Z.mod_mod_divide. exists d1. reflexivity. }
  revert Hdm Hm Hr.
  generalize (subdomainIndex mod (d1 * d2)) as r.
  generalize (subdomainIndex / (d1 * d2)) as q. intros q r Hdm Hm Hr.
  pose proof (Z.div_mod r d2 ltac:(lia)) as Hdm2.
  pose proof (Z.mod_pos_bound r d2 ltac:(lia)) as Hm2.
  rewrite <- Hr.
  revert Hdm2 Hm2. generalize (r mod d2) as r2. generalize (r / d2) as q2.
  intros q2 r2 Hdm2 Hm2.
  assert (Hq0 : 0 <= q < d0) by nia.
  assert (Hq1 : 0 <= q2 < d1) by nia.
  assert (d0 < 2 ^ 31 /\ d1 < 2 ^ 31 /\ d2 < 2 ^ 31) as (B0 & B1 & B2) by nia.
  exists q, q2, r2.
  change (seqZ 0 3) with [0; 1; 2].
  cbn [fold_left DomainTools.get3 Z.eqb Pos.eqb].
  rewrite !to_int_small by lia.
  split; [reflexivity|]. repeat split; first [lia | nia].
Qed.

Lemma generateDecomposition_product_witness :
  exists d0 d1 d2,
    DomainTools.generateDecomposition 100 12 = Some (d0, d1, d2) /\
    d0 * d1 * d2 = 12 /\ 1 <= d0 /\ 1 <= d1 /\ 1 <= d2.
Proof.
  apply (generateDecomposition_product 100 12); [lia | lia | cbn; lia].
Defined.

Lemma convertIndexToId_convertIdToIndex_witness :
  DomainTools.convertIndexToId
    (DomainTools.convertIdToIndex (1, 2, 3) (2, 3, 4)) (2, 3, 4)
  = Some (1, 2, 3).
Proof.
  apply (convertIndexToId_convertIdToIndex 1 2 3 2 3 4); lia.
Defined.

Lemma convertIdToIndex_convertIndexToId_witness :
  exists i0 i1 i2,
    DomainTools.convertIndexToId 23 (2, 3, 4) = Some (i0, i1, i2) /\
    0 <= i0 < 2 /\ 0 <= i1 < 3 /\ 0 <= i2 < 4 /\
    DomainTools.convertIdToIndex (i0, i1, i2) (2, 3, 4) = 23.
Proof.
  apply (convertIdToIndex_convertIndexToId 23 2 3 4); lia.
Defined.

Lemma getExtentOfSubdomain_unit_cell_witness :
  exists i0 i1 i2,
    DomainTools.getExtentOfSubdomain 23 (2, 3, 4)
      = Some [i0; i0 + 1; i1; i1 + 1; i2; i2 + 1] /\
    0 <= i0 < 2 /\ 0 <= i1 < 3 /\ 0 <= i2 < 4 /\
    23 = 3 * 4 * i0 + 4 * i1 + i2.
Proof.
  apply (getExtentOfSubdomain_unit_cell 23 2 3 4); lia.
Defined.

(** A zero in the decomposition makes the conversion divide by zero. *)
Example convertIndexToId_zero_tail :
  DomainTools.convertIndexToId 5 (2, 0, 4) = None /\
  DomainTools.convertIndexToId 5 (2, 3, 4) = Some (0, 1, 1).
Proof. vm_compute. split; reflexivity. Qed.

(** ** ClusterTower: the life cycle of a tower *)

Lemma insertByDim_Permutation (dim : Z) (p : Particle) (l : list Particle) :
  ClusterTower.insertByDim dim p l ≡ₚ p :: l.
Proof.
  induction l as [|q l IH]; cbn [ClusterTower.insertByDim]; [reflexivity|].
  destruct (PrimFloat.ltb _ _); [reflexivity|].
  rewrite IH. apply Permutation_swap.
Qed.

Lemma sortByDim_Permutation (dim : Z) (l : list Particle) :
  ClusterTower.sortByDim dim l ≡ₚ l.
Proof.
  unfold ClusterTower.sortByDim.
  assert (H : forall acc,
             fold_left (fun a p => ClusterTower.insertByDim dim p a) l acc
               ≡ₚ acc ++ l).
  { induction l as [|p l IH]; intros acc; cbn [fold_left].
    - now rewrite app_nil_r.
    - rewrite IH, insertByDim_Permutation.
      rewrite (Permutation_middle acc l p). reflexivity. }
  rewrite H. reflexivity.
Qed.

(** The tower a rebuild leaves behind: [generateClusters] and then
    [fillUpWithDummyParticles] on a tower filled with [ps]. *)
Lemma rebuilt_tower (tw0 : ClusterTower.t) (ps : list Particle)
    (dummyStartX dummyDistZ : double) :
  ps <> [] -> vsize ps + 3 < 2 ^ 64 ->
  exists (tw' : ClusterTower.t) (particles : list Particle),
    ClusterTower.generateClusters (ClusterTower.filled tw0 ps)
      = Some (tw', (vsize ps + 3) / 4) /\
    ClusterTower.fillUpWithDummyParticles tw' dummyStartX dummyDistZ
      = Some
          {| ClusterTower._clusters :=
               map (fun index => ClusterTower.mkCluster (4 * index))
                   (seqZ 0 ((vsize ps + 3) / 4));
             ClusterTower._particles := particles;
             ClusterTower._numDummyParticles := padding (vsize ps) |} /\
    vsize particles = vsize ps + padding (vsize ps) /\
    take (length ps) particles = ClusterTower.sortByDim 2 ps /\
    (forall k, 1 <= k <= padding (vsize ps) ->
       particles !! Z.to_nat (vsize ps + padding (vsize ps) - k)
         = Some (dummyAt dummyStartX dummyDistZ k)).
Proof.
  intros Hne Hsz.
  destruct (generateClusters_filled tw0 ps Hne Hsz) as (lastP & Hlast & Hgen).
  assert (HN : 1 <= vsize ps).
  { unfold vsize. destruct ps; [congruence | cbn; lia]. }
  pose proof (padding_range (vsize ps)) as Hpr.
  pose proof (padding_mul (vsize ps) ltac:(lia)) as Hmul.
  set (d := padding (vsize ps)) in *.
  set (q := (vsize ps + 3) / 4) in *.
  set (padded := ClusterTower.sortByDim 2 ps ++ replicate (Z.to_nat d) lastP) in *.
  assert (Hlen : vsize padded = vsize ps + d).
  { unfold padded, vsize in *.
    rewrite length_app, length_replicate, length_sortByDim. lia. }
  assert (Hq : 1 <= q) by (unfold q; Z.div_mod_to_equations; lia).
  assert (Htake : take (length ps) padded = ClusterTower.sortByDim 2 ps).
  { unfold padded. rewrite take_app_length'; [reflexivity|].
    symmetry. apply length_sortByDim. }
  eexists.
  destruct (Z.eq_dec d 0) as [Hd0 | Hdpos].
  - exists padded. split; [exact Hgen|].
    unfold ClusterTower.fillUpWithDummyParticles.
    cbn [ClusterTower._numDummyParticles]. rewrite Hd0. cbn [Z.eqb].
    split; [reflexivity|]. split; [lia|]. split; [exact Htake|].
    intros k Hk. lia.
  - pose (lc := ClusterTower.mkCluster (4 * (q - 1))).
    destruct (fill_loop lc dummyStartX dummyDistZ padded (Z.to_nat d))
      as (ps' & Hfold & Hlen' & Hdum & Hkeep).
    { rewrite Hlen. lia. }
    { cbn. rewrite Hlen. lia. }
    { lia. }
    rewrite Z2Nat.id in Hfold, Hdum, Hkeep by lia.
    exists ps'. split; [exact Hgen|].
    unfold ClusterTower.fillUpWithDummyParticles.
    cbn [ClusterTower._numDummyParticles ClusterTower._clusters
         ClusterTower._particles ClusterTower.getNumDummyParticles].
    destruct (d =? 0) eqn:E; [apply Z.eqb_eq in E; lia|].
    assert (Hlc : map (fun index => ClusterTower.mkCluster (4 * index)) (seqZ 0 q)
                    !! Z.to_nat
                         (size_sub
                            (ClusterTower.getNumClusters
                               (ClusterTower.mk
                                  (map (fun index => ClusterTower.mkCluster (4 * index))
                                       (seqZ 0 q)) padded d)) 1)
                  = Some lc).
    { unfold ClusterTower.getNumClusters, vsize, size_sub.
      cbn [ClusterTower._clusters].
      rewrite length_map, length_seqZ, Z2Nat.id by lia.
      rewrite wrap64_small by lia.
      rewrite list_lookup_fmap.
      rewrite lookup_seqZ_lt by lia. cbn. unfold lc. do 2 f_equal. lia. }
    rewrite Hlc. cbn. rewrite Hfold. cbn.
    split; [reflexivity|].
    split; [unfold vsize in *; rewrite Hlen'; exact Hlen|].
    split.
    + rewrite <- Htake. apply list_eq. intros i.
      rewrite !lookup_take. destruct (decide (i < length ps)%nat) as [Hi|Hi].
      * apply Hkeep. rewrite Hlen. unfold vsize. lia.
      * reflexivity.
    + intros k Hk. rewrite <- Hlen. apply Hdum. exact Hk.
Qed.

(** X6: a tower that was filled with particles, clustered and padded
    gives back, through [collectAllActualParticles], exactly the
    particles it was filled with, ordered by z and without a dummy; its
    particle count is their number. *)
Theorem collectAllActualParticles_round_trip (tw0 : ClusterTower.t)
    (ps : list Particle) (dummyStartX dummyDistZ : double) :
  ps <> [] -> vsize ps + 3 < 2 ^ 64 ->
  exists (tw' tw'' : ClusterTower.t) (n : Z) (collected : list Particle),
    ClusterTower.generateClusters (ClusterTower.filled tw0 ps) = Some (tw', n) /\
    ClusterTower.fillUpWithDummyParticles tw' dummyStartX dummyDistZ
      = Some tw'' /\
    ClusterTower.collectAllActualParticles tw'' = Some collected /\
    collected = ClusterTower.sortByDim 2 ps /\
    collected ≡ₚ ps /\
    ClusterTower.numParticles tw'' = vsize ps /\
    ClusterTower.isNotEmpty tw'' = true.
Proof.
  intros Hne Hsz.
  destruct (rebuilt_tower tw0 ps dummyStartX dummyDistZ Hne Hsz)
    as (tw' & particles & Hgen & Hfill & Hlen & Htake & _).
  assert (HN : 1 <= vsize ps).
  { unfold vsize. destruct ps; [congruence | cbn; lia]. }
  pose proof (padding_range (vsize ps)) as Hpr.
  eexists tw', _, _, (ClusterTower.sortByDim 2 ps).
  split; [exact Hgen|]. split; [exact Hfill|].
  assert (Hact : size_sub (vsize particles) (padding (vsize ps)) = vsize ps).
  { unfold size_sub. rewrite Hlen. rewrite wrap64_small by lia. lia. }
  unfold ClusterTower.collectAllActualParticles, ClusterTower.numParticles,
    ClusterTower.isNotEmpty, ClusterTower.getNumActualParticles.
  cbn [ClusterTower._particles ClusterTower._numDummyParticles].
  rewrite Hact.
  destruct (vsize ps <=? vsize particles) eqn:E; [|apply Z.leb_gt in E; lia].
  replace (Z.to_nat (vsize ps)) with (length ps) by (unfold vsize; lia).
  rewrite Htake.
  split; [reflexivity|]. split; [reflexivity|].
  split; [apply sortByDim_Permutation|]. split; [reflexivity|].
  apply Z.ltb_lt. lia.
Qed.

(** X7: a particle added to a rebuilt tower without [clear] is lost,
    as the header warns: when the last cluster was padded, the tower
    counts one particle more, but the particles it then holds as actual
    are the old ones and the first dummy of the padding, not the new
    particle. *)
Theorem addParticle_without_clear (tw0 : ClusterTower.t)
    (ps : list Particle) (dummyStartX dummyDistZ : double) (p : Particle) :
  ps <> [] -> vsize ps + 4 < 2 ^ 64 -> vsize ps mod 4 <> 0 ->
  exists (tw' tw'' : ClusterTower.t) (n : Z),
    ClusterTower.generateClusters (ClusterTower.filled tw0 ps) = Some (tw', n) /\
    ClusterTower.fillUpWithDummyParticles tw' dummyStartX dummyDistZ
      = Some tw'' /\
    ClusterTower.numParticles (ClusterTower.addParticle tw'' p) = vsize ps + 1 /\
    ClusterTower.collectAllActualParticles (ClusterTower.addParticle tw'' p)
      = Some (ClusterTower.sortByDim 2 ps ++
              [dummyAt dummyStartX dummyDistZ (4 - vsize ps mod 4)]).
Proof.
  intros Hne Hsz Hmod.
  destruct (rebuilt_tower tw0 ps dummyStartX dummyDistZ Hne ltac:(lia))
    as (tw' & particles & Hgen & Hfill & Hlen & Htake & Hdum).
  assert (HN : 1 <= vsize ps).
  { unfold vsize. destruct ps; [congruence | cbn; lia]. }
  assert (Hpad : padding (vsize ps) = 4 - vsize ps mod 4).
  { unfold padding. apply Z.mod_small.
    pose proof (Z.mod_pos_bound (vsize ps) 4 ltac:(lia)). lia. }
  pose proof (padding_range (vsize ps)) as Hpr.
  rewrite Hpad in *.
  assert (Hd1 : 1 <= 4 - vsize ps mod 4).
  { pose proof (Z.mod_pos_bound (vsize ps) 4 ltac:(lia)). lia. }
  set (d := 4 - vsize ps mod 4) in *.
  eexists tw', _, _. split; [exact Hgen|]. split; [exact Hfill|].
  unfold ClusterTower.collectAllActualParticles, ClusterTower.numParticles,
    ClusterTower.getNumActualParticles, ClusterTower.addParticle.
  cbn [ClusterTower._particles ClusterTower._numDummyParticles].
  assert (Hlen1 : vsize (particles ++ [p]) = vsize ps + d + 1).
  { unfold vsize in *. rewrite length_app. cbn [length]. lia. }
  assert (Hact : size_sub (vsize (particles ++ [p])) d = vsize ps + 1).
  { unfold size_sub. rewrite Hlen1. rewrite wrap64_small by lia. lia. }
  rewrite Hact. split; [reflexivity|].
  destruct (vsize ps + 1 <=? vsize (particles ++ [p])) eqn:E;
    [|apply Z.leb_gt in E; lia].
  f_equal.
  replace (Z.to_nat (vsize ps + 1)) with (S (length ps)) by (unfold vsize; lia).
  rewrite take_app_le by (unfold vsize in *; lia).
  specialize (Hdum d ltac:(lia)).
  replace (Z.to_nat (vsize ps + d - d)) with (length ps) in Hdum
    by (unfold vsize; lia).
  erewrite take_S_r by exact Hdum. rewrite Htake. reflexivity.
Qed.

(** X8: [generateClusters] is not idempotent: called again on a
    rebuilt tower it appends the clusters a second time and resets the
    dummy count, so that the tower reports twice the clusters and counts
    its padding as actual particles. *)
Theorem generateClusters_twice (tw0 : ClusterTower.t) (ps : list Particle)
    (dummyStartX dummyDistZ : double) :
  ps <> [] -> vsize ps + 3 < 2 ^ 64 ->
  exists (tw1 tw2 tw3 : ClusterTower.t) (n : Z),
    ClusterTower.generateClusters (ClusterTower.filled tw0 ps) = Some (tw1, n) /\
    ClusterTower.fillUpWithDummyParticles tw1 dummyStartX dummyDistZ = Some tw2 /\
    ClusterTower.generateClusters tw2 = Some (tw3, 2 * n) /\
    n = (vsize ps + 3) / 4 /\
    ClusterTower.getNumClusters tw3 = 2 * n /\
    ClusterTower.getNumDummyParticles tw3 = 0 /\
    ClusterTower.getNumActualParticles tw3 = 4 * n.
Proof.
  intros Hne Hsz.
  destruct (rebuilt_tower tw0 ps dummyStartX dummyDistZ Hne Hsz)
    as (tw' & particles & Hgen & Hfill & Hlen & Htake & _).
  assert (HN : 1 <= vsize ps).
  { unfold vsize. destruct ps; [congruence | cbn; lia]. }
  pose proof (padding_range (vsize ps)) as Hpr.
  pose proof (padding_mul (vsize ps) ltac:(lia)) as Hmul.
  set (d := padding (vsize ps)) in *.
  set (q := (vsize ps + 3) / 4) in *.
  assert (Hq : 1 <= q) by (unfold q; Z.div_mod_to_equations; lia).
  eexists tw', _, _, q. split; [exact Hgen|]. split; [exact Hfill|].
  unfold ClusterTower.generateClusters, ClusterTower.getNumActualParticles,
    ClusterTower.getNumClusters, ClusterTower.getNumDummyParticles.
  cbn [ClusterTower._particles ClusterTower._numDummyParticles
       ClusterTower._clusters].
  assert (Hact : size_sub (vsize particles) d = vsize ps).
  { unfold size_sub. rewrite Hlen. rewrite wrap64_small by lia. lia. }
  rewrite Hact.
  destruct (0 <? vsize ps) eqn:E; [|apply Z.ltb_ge in E; lia].
  rewrite vsize_sortByDim, Hlen, Hmul.
  unfold ClusterTower.clusterSize.
  replace (4 * q mod 4) with 0 by (rewrite Z.mul_comm, Z.mod_mul; lia).
  cbn [Z.eqb negb].
  destruct (lookup_lt_is_Some_2 (ClusterTower.sortByDim 2 particles)
              (Z.to_nat (size_sub (4 * q) 1))) as [lastP HlastP].
  { rewrite length_sortByDim. unfold size_sub. rewrite wrap64_small by lia.
    unfold vsize in *. lia. }
  rewrite HlastP. cbn [mbind option_bind Z.to_nat replicate].
  rewrite app_nil_r.
  assert (Hv : vsize (ClusterTower.sortByDim 2 particles) = 4 * q).
  { rewrite vsize_sortByDim. lia. }
  rewrite Hv.
  replace (4 * q / 4) with q by (rewrite Z.mul_comm, Z.div_mul; lia).
  assert (Hcl : vsize
            (map (fun index => ClusterTower.mkCluster (4 * index)) (seqZ 0 q) ++
             map (fun index => ClusterTower.mkCluster (size_mul 4 index))
                 (seqZ 0 q)) = 2 * q).
  { unfold vsize. rewrite length_app, !length_map, !length_seqZ. lia. }
  cbn [ClusterTower._clusters ClusterTower._particles
       ClusterTower._numDummyParticles].
  rewrite Hcl.
  split; [reflexivity|]. split; [reflexivity|].
  cbn [ClusterTower._clusters ClusterTower._particles
       ClusterTower._numDummyParticles].
  split; [exact Hcl|]. split; [reflexivity|].
  unfold size_sub. rewrite Hv, Z.sub_0_r. apply wrap64_small. lia.
Qed.

Lemma collectAllActualParticles_round_trip_witness :
  exists (tw' tw'' : ClusterTower.t) (n : Z) (collected : list Particle),
    ClusterTower.generateClusters
      (ClusterTower.filled (ClusterTower.mk [] [] 0) five_particles)
      = Some (tw', n) /\
    ClusterTower.fillUpWithDummyParticles tw' 100%float 2%float = Some tw'' /\
    ClusterTower.collectAllActualParticles tw'' = Some collected /\
    collected = ClusterTower.sortByDim 2 five_particles /\
    collected ≡ₚ five_particles /\
    ClusterTower.numParticles tw'' = vsize five_particles /\
    ClusterTower.isNotEmpty tw'' = true.
Proof.
  apply (collectAllActualParticles_round_trip (ClusterTower.mk [] [] 0)
           five_particles 100%float 2%float).
  - discriminate.
  - vm_compute. reflexivity.
Defined.

Lemma addParticle_without_clear_witness :
  exists (tw' tw'' : ClusterTower.t) (n : Z),
    ClusterTower.generateClusters
      (ClusterTower.filled (ClusterTower.mk [] [] 0) five_particles)
      = Some (tw', n) /\
    ClusterTower.fillUpWithDummyParticles tw' 100%float 2%float = Some tw'' /\
    ClusterTower.numParticles
      (ClusterTower.addParticle tw''
         (newParticle (0, 0, 9)%float (0, 0, 0)%float 42))
      = vsize five_particles + 1 /\
    ClusterTower.collectAllActualParticles
      (ClusterTower.addParticle tw''
         (newParticle (0, 0, 9)%float (0, 0, 0)%float 42))
      = Some (ClusterTower.sortByDim 2 five_particles ++
              [dummyAt 100%float 2%float (4 - vsize five_particles mod 4)]).
Proof.
  apply (addParticle_without_clear (ClusterTower.mk [] [] 0) five_particles
           100%float 2%float
           (newParticle (0, 0, 9)%float (0, 0, 0)%float 42)).
  - discriminate.
  - vm_compute. reflexivity.
  - vm_compute. discriminate.
Defined.

Lemma generateClusters_twice_witness :
  exists (tw1 tw2 tw3 : ClusterTower.t) (n : Z),
    ClusterTower.generateClusters
      (ClusterTower.filled (ClusterTower.mk [] [] 0) five_particles)
      = Some (tw1, n) /\
    ClusterTower.fillUpWithDummyParticles tw1 100%float 2%float = Some tw2 /\
    ClusterTower.generateClusters tw2 = Some (tw3, 2 * n) /\
    n = (vsize five_particles + 3) / 4 /\
    ClusterTower.getNumClusters tw3 = 2 * n /\
    ClusterTower.getNumDummyParticles tw3 = 0 /\
    ClusterTower.getNumActualParticles tw3 = 4 * n.
Proof.
  apply (generateClusters_twice (ClusterTower.mk [] [] 0) five_particles
           100%float 2%float).
  - discriminate.
  - vm_compute. reflexivity.
Defined.

(** ** VerletClusterLists: the cluster thread partition *)

Definition sumZ (l : list Z) : Z := fold_right Z.add 0 l.

(** The neighbour pairs of a list of clusters, and the clusters the
    first ranges of a partition hold. *)
Definition pairsOf (clusters : list (Z * Z * Z)) : Z :=
  sumZ (map snd clusters).

Definition clustersOf (ranges : list VerletClusterLists.ClusterRange) : Z :=
  sumZ (map VerletClusterLists.numClusters ranges).

Lemma sumZ_app (l k : list Z) : sumZ (l ++ k) = sumZ l + sumZ k.
Proof.
  unfold sumZ. induction l as [|x l IH]; cbn [app fold_right]; lia.
Qed.

Lemma sumZ_nonneg (l : list Z) : Forall (fun x => 0 <= x) l -> 0 <= sumZ l.
Proof.
  unfold sumZ. induction 1 as [|x l Hx _ IH]; cbn [fold_right]; lia.
Qed.

Lemma sumZ_zero (l : list Z) : Forall (fun x => x = 0) l -> sumZ l = 0.
Proof.
  unfold sumZ. induction 1 as [|x l Hx _ IH]; cbn [fold_right]; lia.
Qed.

Section fillClusterRanges_facts.

Import VerletClusterLists.

Variable P numThreads : Z.
Variable cs : list (Z * Z * Z).

Hypothesis HnumThreads : 1 <= numThreads < 2 ^ 31.
Hypothesis HP : 0 <= P.
Hypothesis Hmul : P * numThreads < 2 ^ 64.
Hypothesis Hneighbors : Forall (fun c => 0 <= snd c) cs.
Hypothesis Htotal : pairsOf cs < 2 ^ 64.
Hypothesis Hsize : vsize cs < 2 ^ 64.
Hypothesis Hroom :
  forall k : nat, (1 <= k < length cs)%nat -> pairsOf (take k cs) < P * numThreads.

(** What holds of the local variables after the first [k] clusters. *)
Record fillInv (k : nat) (st : fillState) : Prop := mkFillInv {
  inv_length : Z.of_nat (length (partition st)) = numThreads;
  inv_thread : 0 <= currentThread st <= Z.of_nat k;
  inv_thread_le : currentThread st <= numThreads;
  inv_count : 0 <= numClustersThisThread st <= Z.of_nat k;
  inv_total : numClusterPairsTotal st = pairsOf (take k cs);
  inv_reached : P * currentThread st <= numClusterPairsTotal st;
  inv_sum :
    clustersOf (take (Z.to_nat (currentThread st)) (partition st))
    + numClustersThisThread st = Z.of_nat k;
  inv_done :
    forall (t : nat) r, Z.of_nat t < currentThread st ->
      partition st !! t = Some r ->
      0 < numClusters r /\
      exists nb,
        cs !! Z.to_nat (clustersOf (take t (partition st)))
          = Some (startTowerIndex r, startIndexInTower r, nb);
  inv_open :
    0 < numClustersThisThread st ->
    currentThread st < numThreads /\
    exists r nb,
      partition st !! Z.to_nat (currentThread st) = Some r /\
      cs !! Z.to_nat (Z.of_nat k - numClustersThisThread st)
        = Some (startTowerIndex r, startIndexInTower r, nb);
  inv_rest :
    forall (t : nat) r, currentThread st <= Z.of_nat t ->
      partition st !! t = Some r -> numClusters r = 0
}.

Lemma pairsOf_take_S (k : nat) (c : Z * Z * Z) :
  cs !! k = Some c -> pairsOf (take (S k) cs) = pairsOf (take k cs) + snd c.
Proof.
  intros Hc. erewrite take_S_r by exact Hc. unfold pairsOf.
  rewrite map_app, sumZ_app. cbn. lia.
Qed.

Lemma pairsOf_take_le (k : nat) : 0 <= pairsOf (take k cs) <= pairsOf cs.
Proof.
  rewrite <- (take_drop k cs) at 3. unfold pairsOf.
  rewrite map_app, sumZ_app.
  assert (H1 : 0 <= sumZ (map snd (take k cs))).
  { apply sumZ_nonneg. apply Forall_fmap.
    apply Forall_take. exact Hneighbors. }
  assert (H2 : 0 <= sumZ (map snd (drop k cs))).
  { apply sumZ_nonneg. apply Forall_fmap.
    apply Forall_drop. exact Hneighbors. }
  lia.
Qed.

Lemma clustersOf_take_insert (p : list ClusterRange) (t i : nat) (r : ClusterRange) :
  (t <= i)%nat -> clustersOf (take t (<[i := r]> p)) = clustersOf (take t p).
Proof. intros H. rewrite take_insert_ge by lia. reflexivity. Qed.

Lemma clustersOf_take_S (p : list ClusterRange) (t : nat) (r : ClusterRange) :
  p !! t = Some r ->
  clustersOf (take (S t) p) = clustersOf (take t p) + numClusters r.
Proof.
  intros H. erewrite take_S_r by exact H. unfold clustersOf.
  rewrite map_app, sumZ_app. cbn. lia.
Qed.

Lemma fillInv_thread_lt (k : nat) (st : fillState) :
  (k < length cs)%nat -> fillInv k st -> currentThread st < numThreads.
Proof.
  intros Hk [? ? ? ? Htot Hreach _ _ Hopen _].
  destruct (Z.eq_dec (numClustersThisThread st) 0) as [Hm | Hm].
  - destruct k as [|k]; [lia|].
    pose proof (Hroom (S k) ltac:(lia)) as Hr. rewrite <- Htot in Hr. nia.
  - apply Hopen. lia.
Qed.

Lemma fillStep_inv (k : nat) (st : fillState) (tower cluster nb : Z) :
  cs !! k = Some (tower, cluster, nb) -> fillInv k st ->
  exists st', fillStep P st tower cluster nb = Some st' /\ fillInv (S k) st'.
Proof.
  intros Hc Hinv.
  assert (Hk : (k < length cs)%nat) by (eapply lookup_lt_Some; exact Hc).
  pose proof (fillInv_thread_lt k st Hk Hinv) as Hlt.
  destruct Hinv as [Hlen Hth Hthle Hcnt Htot Hreach Hsum Hdone Hopen Hrest].
  destruct st as [p ct m T]. cbn [partition currentThread numClustersThisThread
    numClusterPairsTotal] in *.
  assert (Hnb : 0 <= nb).
  { eapply Forall_lookup_1 in Hneighbors; [|exact Hc]. exact Hneighbors. }
  pose proof (pairsOf_take_S k _ Hc) as HT'. cbn [snd] in HT'.
  pose proof (pairsOf_take_le (S k)) as HTle.
  assert (Hct : (Z.to_nat ct < length p)%nat) by lia.
  (* the range of the current thread, once it is started *)
  assert (Hstart : exists started r0,
    (if m =? 0 then
       assign p ct (fun _ => mkClusterRange tower cluster 0)
     else Some p) = Some started /\
    length started = length p /\
    (forall t : nat, t <> Z.to_nat ct -> started !! t = p !! t) /\
    started !! Z.to_nat ct = Some r0 /\ numClusters r0 = 0 /\
    exists nb0, cs !! Z.to_nat (Z.of_nat k - m)
                  = Some (startTowerIndex r0, startIndexInTower r0, nb0)).
  { destruct (m =? 0) eqn:Em.
    - apply Z.eqb_eq in Em. subst m.
      destruct (lookup_lt_is_Some_2 p _ Hct) as [r Hr].
      exists (<[Z.to_nat ct := mkClusterRange tower cluster 0]> p),
        (mkClusterRange tower cluster 0).
      unfold assign. rewrite Hr. cbn [mbind option_bind].
      split; [reflexivity|]. split; [apply length_insert|].
      split; [intros t Ht; apply list_lookup_insert_ne; congruence|].
      split; [apply list_lookup_insert_eq; exact Hct|].
      split; [reflexivity|]. exists nb. cbn.
      replace (Z.to_nat (Z.of_nat k - 0)) with k by lia. exact Hc.
    - apply Z.eqb_neq in Em.
      destruct (Hopen ltac:(lia)) as (_ & r & nb0 & Hr & Hcs).
      exists p, r. split; [reflexivity|]. split; [reflexivity|].
      split; [reflexivity|]. split; [exact Hr|].
      split; [apply (Hrest (Z.to_nat ct)); [lia | exact Hr]|].
      exists nb0. exact Hcs. }
  destruct Hstart as (started & r0 & Hs & Hslen & Hsne & Hsct & Hr0 & nb0 & Hcs0).
  unfold fillStep. cbn [partition currentThread numClustersThisThread
    numClusterPairsTotal]. rewrite Hs. cbn [mbind option_bind].
  assert (Hm' : size_add m 1 = m + 1).
  { unfold size_add. apply wrap64_small. unfold vsize in Hsize. lia. }
  assert (HTw : size_add T nb = T + nb).
  { unfold size_add. apply wrap64_small. lia. }
  assert (Hc1 : size_add ct 1 = ct + 1).
  { unfold size_add. apply wrap64_small. lia. }
  assert (Hpm : size_mul P (ct + 1) = P * (ct + 1)).
  { unfold size_mul. apply wrap64_small. nia. }
  rewrite Hm', HTw, Hc1, Hpm.
  assert (Htake : forall t : nat, (t <= Z.to_nat ct)%nat ->
                    take t started = take t p).
  { intros t Ht. apply list_eq. intros i. rewrite !lookup_take.
    destruct (decide (i < t)%nat); [apply Hsne; lia | reflexivity]. }
  destruct (P * (ct + 1) <=? T + nb) eqn:E.
  - apply Z.leb_le in E.
    unfold assign. rewrite Hsct. cbn [mbind option_bind].
    eexists. split; [reflexivity|].
    constructor; cbn [partition currentThread numClustersThisThread
      numClusterPairsTotal].
    + rewrite length_insert. lia.
    + lia.
    + lia.
    + lia.
    + lia.
    + lia.
    + replace (Z.to_nat (ct + 1)) with (S (Z.to_nat ct)) by lia.
      erewrite clustersOf_take_S
        by (apply list_lookup_insert_eq; lia).
      rewrite clustersOf_take_insert by lia. rewrite Htake by lia.
      cbn [setNumClusters numClusters]. lia.
    + intros t r Ht Hr.
      rewrite clustersOf_take_insert by lia. rewrite Htake by lia.
      destruct (decide (t = Z.to_nat ct)) as [-> | Hne].
      * rewrite list_lookup_insert_eq in Hr by lia.
        injection Hr as <-. cbn [setNumClusters numClusters startTowerIndex
          startIndexInTower].
        split; [lia|]. exists nb0.
        replace (clustersOf (take (Z.to_nat ct) p)) with (Z.of_nat k - m) by lia.
        exact Hcs0.
      * rewrite list_lookup_insert_ne in Hr by congruence.
        rewrite Hsne in Hr by exact Hne. apply (Hdone t r); [lia | exact Hr].
    + lia.
    + intros t r Ht Hr.
      rewrite list_lookup_insert_ne in Hr by lia.
      rewrite Hsne in Hr by lia. apply (Hrest t r); [lia | exact Hr].
  - apply Z.leb_gt in E.
    eexists. split; [reflexivity|].
    constructor; cbn [partition currentThread numClustersThisThread
      numClusterPairsTotal].
    + lia.
    + lia.
    + lia.
    + lia.
    + lia.
    + lia.
    + rewrite Htake by lia. lia.
    + intros t r Ht Hr. rewrite Htake by lia.
      rewrite Hsne in Hr by lia. apply (Hdone t r); [lia | exact Hr].
    + intros _. split; [exact Hlt|]. exists r0, nb0. split; [exact Hsct|].
      replace (Z.of_nat (S k) - (m + 1)) with (Z.of_nat k - m) by lia.
      exact Hcs0.
    + intros t r Ht Hr.
      destruct (decide (t = Z.to_nat ct)) as [-> | Hne].
      * rewrite Hsct in Hr. injection Hr as <-. exact Hr0.
      * rewrite Hsne in Hr by exact Hne. apply (Hrest t r); [lia | exact Hr].
Qed.

Lemma fill_loop_inv (rest done : list (Z * Z * Z)) (st : fillState) :
  cs = done ++ rest -> fillInv (length done) st ->
  exists st',
    fold_left
      (fun acc '(currentTowerIndex, currentClusterInTower, neighbors) =>
         st ← acc;
         fillStep P st currentTowerIndex currentClusterInTower neighbors)
      rest (Some st) = Some st' /\
    fillInv (length cs) st'.
Proof.
  revert done st. induction rest as [|[[tower cluster] nb] rest IH];
    intros done st Hcs Hinv.
  - rewrite app_nil_r in Hcs. subst done. exists st. split; [reflexivity|].
    exact Hinv.
  - cbn [fold_left mbind option_bind].
    assert (Hc : cs !! length done = Some (tower, cluster, nb)).
    { rewrite Hcs. rewrite lookup_app_r by lia.
      replace (length done - length done)%nat with 0%nat by lia. reflexivity. }
    destruct (fillStep_inv _ st tower cluster nb Hc Hinv) as (st1 & H1 & Hinv1).
    rewrite H1.
    apply (IH (done ++ [(tower, cluster, nb)])).
    + rewrite <- app_assoc. exact Hcs.
    + rewrite length_app. cbn [length].
      replace (length done + 1)%nat with (S (length done)) by lia. exact Hinv1.
Qed.

Lemma setNumClusters_same (r : ClusterRange) :
  numClusters r = 0 -> setNumClusters r 0 = r.
Proof. destruct r as [a b c]. cbn. intros ->. reflexivity. Qed.

Lemma zero_loop (p : list ClusterRange) (n : nat) :
  forall a : Z,
    0 <= a -> a + Z.of_nat n <= Z.of_nat (length p) ->
    (forall (t : nat) r, a <= Z.of_nat t -> p !! t = Some r -> numClusters r = 0) ->
    fold_left
      (fun acc thread =>
         partition ← acc;
         assign partition thread (fun r => setNumClusters r 0))
      (seqZ a (Z.of_nat n)) (Some p) = Some p.
Proof.
  induction n as [|n IH]; intros a Ha Hlen Hzero; [reflexivity|].
  rewrite seqZ_cons by lia. cbn [fold_left mbind option_bind].
  destruct (lookup_lt_is_Some_2 p (Z.to_nat a) ltac:(lia)) as [r Hr].
  unfold assign at 2. rewrite Hr. cbn [mbind option_bind].
  rewrite setNumClusters_same by (apply (Hzero (Z.to_nat a)); [lia | exact Hr]).
  rewrite list_insert_id by exact Hr.
  replace (Z.pred (Z.of_nat (S n))) with (Z.of_nat n) by lia.
  apply IH; [lia | lia |]. intros t r' Ht. apply Hzero. lia.
Qed.

Lemma clustersOf_zero (p : list ClusterRange) :
  (forall (t : nat) r, p !! t = Some r -> numClusters r = 0) -> clustersOf p = 0.
Proof.
  intros H. unfold clustersOf. apply sumZ_zero. apply Forall_fmap.
  apply Forall_lookup. intros i r Hr. cbn. eapply H. exact Hr.
Qed.

(** The end of [fillClusterRanges], from the state the loops leave. *)
Lemma fill_finish (st : fillState) :
  fillInv (length cs) st ->
  exists final,
    (rest ←
       (if negb (numClustersThisThread st =? 0) then
          assign (partition st) (currentThread st)
                 (fun r => setNumClusters r (numClustersThisThread st))
        else Some (partition st));
     fold_left
       (fun acc thread =>
          partition ← acc;
          assign partition thread (fun r => setNumClusters r 0))
       (seqZ (size_add (currentThread st) 1)
             (wrap64 numThreads - size_add (currentThread st) 1))
       (Some rest)) = Some final /\
    Z.of_nat (length final) = numThreads /\
    clustersOf final = vsize cs /\
    forall (t : nat) r,
      final !! t = Some r -> 0 < numClusters r ->
      exists nb,
        cs !! Z.to_nat (clustersOf (take t final))
          = Some (startTowerIndex r, startIndexInTower r, nb).
Proof.
  intros [Hlen Hth Hctn Hcnt Htot Hreach Hsum Hdone Hopen Hrest].
  destruct st as [p ct m T]. cbn [partition currentThread numClustersThisThread
    numClusterPairsTotal] in *.
  assert (Hw : wrap64 numThreads = numThreads) by (apply wrap64_small; lia).
  assert (Hc1 : size_add ct 1 = ct + 1).
  { unfold size_add. apply wrap64_small. lia. }
  rewrite Hw, Hc1.
  assert (Hfinal : exists rest,
    (if negb (m =? 0) then assign p ct (fun r => setNumClusters r m)
     else Some p) = Some rest /\
    length rest = length p /\
    (forall t : nat, t <> Z.to_nat ct -> rest !! t = p !! t) /\
    (forall r, rest !! Z.to_nat ct = Some r ->
       numClusters r = m /\
       exists r0, p !! Z.to_nat ct = Some r0 /\
                  startTowerIndex r = startTowerIndex r0 /\
                  startIndexInTower r = startIndexInTower r0)).
  { destruct (m =? 0) eqn:Em; cbn [negb].
    - apply Z.eqb_eq in Em. exists p. split; [reflexivity|].
      split; [reflexivity|]. split; [reflexivity|].
      intros r Hr. split; [rewrite Em; apply (Hrest (Z.to_nat ct)); [lia|exact Hr]|].
      exists r. auto.
    - apply Z.eqb_neq in Em.
      destruct (Hopen ltac:(lia)) as (Hlt & r0 & nb0 & Hr0 & _).
      unfold assign. rewrite Hr0. cbn [mbind option_bind].
      eexists. split; [reflexivity|]. split; [apply length_insert|].
      split; [intros t Ht; apply list_lookup_insert_ne; congruence|].
      intros r Hr. rewrite list_lookup_insert_eq in Hr
        by (apply lookup_lt_Some in Hr0; exact Hr0).
      injection Hr as <-. cbn. split; [reflexivity|]. exists r0. auto. }
  destruct Hfinal as (rest & Hr & Hrlen & Hrne & Hrct).
  rewrite Hr. cbn [mbind option_bind].
  assert (Htake : forall t : nat, (t <= Z.to_nat ct)%nat -> take t rest = take t p).
  { intros t Ht. apply list_eq. intros i. rewrite !lookup_take.
    destruct (decide (i < t)%nat); [apply Hrne; lia | reflexivity]. }
  exists rest. split.
  - destruct (Z.le_gt_cases numThreads (ct + 1)) as [Hle|Hgt].
    + replace (seqZ (ct + 1) (numThreads - (ct + 1))) with (@nil Z);
        [reflexivity|].
      symmetry. apply seqZ_nil. lia.
    + replace (numThreads - (ct + 1))
        with (Z.of_nat (Z.to_nat (numThreads - (ct + 1)))) by lia.
      apply zero_loop; [lia | lia |].
      intros t r Ht Hrt. rewrite Hrne in Hrt by lia.
      apply (Hrest t r); [lia | exact Hrt].
  - split; [lia|]. split.
    + rewrite <- (take_drop (Z.to_nat ct) rest). unfold clustersOf at 1.
      rewrite map_app, sumZ_app. fold (clustersOf (take (Z.to_nat ct) rest)).
      fold (clustersOf (drop (Z.to_nat ct) rest)).
      rewrite Htake by lia.
      assert (Hdrop : clustersOf (drop (Z.to_nat ct) rest) = m).
      { destruct (rest !! Z.to_nat ct) as [r|] eqn:Hrc.
        - erewrite drop_S by exact Hrc. unfold clustersOf.
          cbn [map sumZ fold_right].
          fold (sumZ (map numClusters (drop (S (Z.to_nat ct)) rest))).
          fold (clustersOf (drop (S (Z.to_nat ct)) rest)).
          rewrite (clustersOf_zero (drop (S (Z.to_nat ct)) rest)).
          + destruct (Hrct r eq_refl) as [-> _]. lia.
          + intros t r' Hr'. rewrite lookup_drop in Hr'.
            rewrite Hrne in Hr' by lia.
            apply (Hrest (S (Z.to_nat ct) + t)%nat r'); [lia | exact Hr'].
        - apply lookup_ge_None in Hrc. rewrite drop_ge by lia.
          assert (m = 0); [|subst m; reflexivity].
          destruct (Z.eq_dec m 0); [assumption|]. destruct Hopen; lia. }
      rewrite Hdrop. unfold vsize. lia.
    + intros t r Hrt Hpos.
      destruct (Z_lt_ge_dec (Z.of_nat t) ct) as [Hlt|Hge].
      * rewrite Htake by lia. rewrite Hrne in Hrt by lia.
        apply (Hdone t r Hlt Hrt).
      * destruct (decide (t = Z.to_nat ct)) as [-> | Hne].
        -- destruct (Hrct r Hrt) as (Hm & r0 & Hr0 & Hst & Hsi).
           rewrite Htake by lia.
           destruct (Hopen ltac:(lia)) as (_ & r0' & nb0 & Hr0' & Hcs0).
           rewrite Hr0 in Hr0'. injection Hr0' as <-.
           exists nb0. rewrite Hst, Hsi.
           replace (clustersOf (take (Z.to_nat ct) p))
             with (Z.of_nat (length cs) - m) by lia.
           exact Hcs0.
        -- rewrite Hrne in Hrt by exact Hne.
           pose proof (Hrest t r ltac:(lia) Hrt). lia.
Qed.

End fillClusterRanges_facts.

Lemma resize_length (n : Z) (old : list VerletClusterLists.ClusterRange) :
  0 <= n -> Z.of_nat (length (VerletClusterLists.resize n old)) = n.
Proof.
  intros Hn. unfold VerletClusterLists.resize.
  rewrite length_app, length_take, length_replicate. lia.
Qed.

Lemma resize_zero (n : Z) (old : list VerletClusterLists.ClusterRange) :
  Forall (fun r => VerletClusterLists.numClusters r = 0) old ->
  Forall (fun r => VerletClusterLists.numClusters r = 0)
         (VerletClusterLists.resize n old).
Proof.
  intros Hold. unfold VerletClusterLists.resize. apply Forall_app. split.
  - apply Forall_take. exact Hold.
  - apply Forall_replicate. reflexivity.
Qed.

(** X9: [fillClusterRanges], called on a partition vector whose ranges
    are empty and with a threshold the running number of neighbour
    pairs reaches only at the last cluster, gives every cluster to
    exactly one thread: the vector has one range per thread, the ranges
    hold as many clusters as the towers have, and every range that is
    not empty starts at the cluster that follows the ranges before
    it. *)
Theorem fillClusterRanges_partition (numClusterPairsPerThread numThreads : Z)
    (old : list VerletClusterLists.ClusterRange) (towers : list (list Z)) :
  let clusters := VerletClusterLists.clustersInOrder towers in
  1 <= numThreads < 2 ^ 31 ->
  0 <= numClusterPairsPerThread ->
  numClusterPairsPerThread * numThreads < 2 ^ 64 ->
  Forall (fun c => 0 <= snd c) clusters ->
  pairsOf clusters < 2 ^ 64 -> vsize clusters < 2 ^ 64 ->
  Forall (fun r => VerletClusterLists.numClusters r = 0) old ->
  (forall k : nat, (1 <= k < length clusters)%nat ->
     pairsOf (take k clusters) < numClusterPairsPerThread * numThreads) ->
  exists partition,
    VerletClusterLists.fillClusterRanges numClusterPairsPerThread numThreads
      old towers = Some partition /\
    vsize partition = numThreads /\
    clustersOf partition = vsize clusters /\
    forall (t : nat) r,
      partition !! t = Some r -> 0 < VerletClusterLists.numClusters r ->
      exists neighbors,
        clusters !! Z.to_nat (clustersOf (take t partition))
          = Some (VerletClusterLists.startTowerIndex r,
                  VerletClusterLists.startIndexInTower r, neighbors).
Proof.
  intros clusters Hn HP Hmul Hnb Htotal Hsize Hold Hroom.
  unfold VerletClusterLists.fillClusterRanges. fold clusters.
  assert (Hw : wrap64 numThreads = numThreads) by (apply wrap64_small; lia).
  rewrite Hw.
  set (start := VerletClusterLists.mkFillState
                  (VerletClusterLists.resize numThreads old) 0 0 0).
  assert (Hinv0 : fillInv numClusterPairsPerThread numThreads clusters 0 start).
  { constructor; cbn.
    - apply resize_length. lia.
    - lia.
    - lia.
    - lia.
    - reflexivity.
    - lia.
    - reflexivity.
    - intros t r Ht. lia.
    - intros Hm. lia.
    - intros t r _ Hr.
      pose proof (resize_zero numThreads old Hold) as Hz.
      eapply Forall_lookup_1 in Hz; [|exact Hr]. exact Hz. }
  destruct (fill_loop_inv numClusterPairsPerThread numThreads clusters
              Hn HP Hmul Hnb Htotal Hsize Hroom clusters [] start eq_refl Hinv0)
    as (st & Hloop & Hinv).
  change (fold_left _ clusters (Some start)) with
    (fold_left
       (fun acc '(currentTowerIndex, currentClusterInTower, neighbors) =>
          st ← acc;
          VerletClusterLists.fillStep numClusterPairsPerThread st
            currentTowerIndex currentClusterInTower neighbors)
       clusters (Some start)).
  rewrite Hloop. cbn [mbind option_bind].
  edestruct (fill_finish numClusterPairsPerThread numThreads clusters)
    as (final & Hfin & Hlen & Hsum & Hranges); try eassumption.
  rewrite Hw in Hfin.
  exists final. split; [exact Hfin|]. split; [exact Hlen|].
  split; [exact Hsum | exact Hranges].
Qed.

Definition threeTowers : list (list Z) := [[1; 1; 1]; [2; 2]; [1; 1]].

Lemma fillClusterRanges_partition_witness :
  exists partition,
    VerletClusterLists.fillClusterRanges 3 3 [] threeTowers = Some partition /\
    vsize partition = 3 /\
    clustersOf partition = vsize (VerletClusterLists.clustersInOrder threeTowers) /\
    forall (t : nat) r,
      partition !! t = Some r -> 0 < VerletClusterLists.numClusters r ->
      exists neighbors,
        VerletClusterLists.clustersInOrder threeTowers
          !! Z.to_nat (clustersOf (take t partition))
          = Some (VerletClusterLists.startTowerIndex r,
                  VerletClusterLists.startIndexInTower r, neighbors).
Proof.
  apply (fillClusterRanges_partition 3 3 [] threeTowers).
  - lia.
  - lia.
  - lia.
  - vm_compute. repeat constructor; discriminate.
  - vm_compute. reflexivity.
  - vm_compute. reflexivity.
  - constructor.
  - intros k Hk. change (length (VerletClusterLists.clustersInOrder threeTowers))
      with 7%nat in Hk.
    do 7 (destruct k as [|k]; [try lia; vm_compute; reflexivity|]). lia.
Defined.

Example fillClusterRanges_threeTowers :
  VerletClusterLists.fillClusterRanges 3 3 [] threeTowers
  = Some [VerletClusterLists.mkClusterRange 0 0 3;
          VerletClusterLists.mkClusterRange 1 0 2;
          VerletClusterLists.mkClusterRange 2 0 2].
Proof. vm_compute. reflexivity. Qed.

(** When the last thread is full before the last cluster, the next
    cluster is written past the end of the partition vector; and a
    thread that gets no cluster keeps the range it had before. *)
Example fillClusterRanges_edges :
  VerletClusterLists.fillClusterRanges 2 2 [] [[2; 2; 1]] = None /\
  VerletClusterLists.calculateClusterThreadPartition 4 (1, 1) [] [[5; 0]] = None /\
  VerletClusterLists.fillClusterRanges 1000 2
    [VerletClusterLists.mkClusterRange 0 0 3;
     VerletClusterLists.mkClusterRange 1 2 7] [[2000]]
  = Some [VerletClusterLists.mkClusterRange 0 0 1;
          VerletClusterLists.mkClusterRange 1 2 7].
Proof. vm_compute. repeat split; reflexivity. Qed.

(** ** VerletClusterLists: the traversal of the clusters *)

(** The clusters of the tower with the index [i], if there is one. *)
Definition clustersAt {Tower Cluster : Type} (getClusters : Tower -> list Cluster)
    (l : list Tower) (i : Z) : list (Z * Cluster) :=
  match l !! Z.to_nat i with
  | Some tower => map (pair i) (getClusters tower)
  | None => []
  end.

Lemma bind_bind_singleton {B : Type} (xs ys : list Z) (f : Z -> Z -> Z)
    (g : Z -> list B) :
  (x ← xs; y ← ys; g (f x y)) = (x ← xs; y ← ys; [f x y]) ≫= g.
Proof.
  induction xs as [|x xs IH]; [reflexivity|].
  rewrite !bind_cons, bind_app, IH. f_equal. clear IH.
  induction ys as [|y ys IHy]; [reflexivity|].
  rewrite !bind_cons, bind_app, IHy, bind_singleton. reflexivity.
Qed.

Lemma indexed_bind {Tower Cluster : Type} (getClusters : Tower -> list Cluster)
    (l : list Tower) :
  ('(index, tower) ← zip (seqZ 0 (vsize l)) l;
   map (pair index) (getClusters tower))
  = seqZ 0 (vsize l) ≫= clustersAt getClusters l.
Proof.
  induction l as [|tower l IH] using rev_ind; [reflexivity|].
  unfold vsize in *. rewrite length_app. cbn [length].
  rewrite Nat2Z.inj_add, seqZ_app by lia.
  change (Z.of_nat 1) with 1. change (seqZ (0 + Z.of_nat (length l)) 1)
    with [0 + Z.of_nat (length l)].
  rewrite zip_with_app by (rewrite length_seqZ; lia).
  rewrite !bind_app, IH. f_equal.
  - apply Forall_bind_ext. apply Forall_forall. intros i Hi.
    apply elem_of_seqZ in Hi. unfold clustersAt.
    rewrite lookup_app_l by lia. reflexivity.
  - cbn [zip_with]. rewrite !bind_singleton. unfold clustersAt.
    rewrite lookup_app_r by lia.
    replace (Z.to_nat (0 + Z.of_nat (length l)) - length l)%nat with 0%nat by lia.
    reflexivity.
Qed.

Section traverseClusters_facts.

Context {Tower Cluster : Type}.
Variable getClusters : Tower -> list Cluster.
Variable towers : list Tower.
Variable dimX dimY : Z.
Hypothesis HdimX : 0 <= dimX.
Hypothesis HdimY : 0 <= dimY.
Hypothesis Hgrid : vsize towers = dimX * dimY.
Hypothesis Hsmall : dimX * dimY < 2 ^ 64.

Lemma towerIndex2DTo1D_eq (x y : Z) :
  0 <= x < dimX -> 0 <= y < dimY ->
  VerletClusterLists.towerIndex2DTo1D x y (dimX, dimY) = x + y * dimX /\
  0 <= x + y * dimX < dimX * dimY.
Proof.
  intros Hx Hy. unfold VerletClusterLists.towerIndex2DTo1D, size_add, size_mul.
  cbn [fst]. assert (0 <= y * dimX /\ x + y * dimX < dimX * dimY) by nia.
  rewrite (wrap64_small (y * dimX)) by lia.
  rewrite wrap64_small by lia. lia.
Qed.

Lemma traverse_inner (x : Z) (ys : list Z) :
  0 <= x < dimX -> Forall (fun y => 0 <= y < dimY) ys ->
  forall called,
    fold_left
      (fun acc y =>
         called ← acc;
         let index := VerletClusterLists.towerIndex2DTo1D x y (dimX, dimY) in
         tower ← towers !! Z.to_nat index;
         Some (called ++ map (pair index) (getClusters tower)))
      ys (Some called)
    = Some (called ++ (y ← ys; clustersAt getClusters towers (x + y * dimX))).
Proof.
  intros Hx. induction 1 as [|y ys Hy _ IH]; intros called.
  - cbn. now rewrite app_nil_r.
  - cbn [fold_left mbind option_bind].
    destruct (towerIndex2DTo1D_eq x y Hx Hy) as [-> Hr].
    destruct (lookup_lt_is_Some_2 towers (Z.to_nat (x + y * dimX)))
      as [tower Htower]; [unfold vsize in Hgrid; lia|].
    rewrite Htower. cbn [mbind option_bind]. rewrite IH.
    rewrite bind_cons, app_assoc. unfold clustersAt at 2. rewrite Htower.
    reflexivity.
Qed.

Lemma traverse_outer (xs : list Z) :
  Forall (fun x => 0 <= x < dimX) xs ->
  forall called,
    fold_left
      (fun acc x =>
         fold_left
           (fun acc y =>
              called ← acc;
              let index := VerletClusterLists.towerIndex2DTo1D x y (dimX, dimY) in
              tower ← towers !! Z.to_nat index;
              Some (called ++ map (pair index) (getClusters tower)))
           (seqZ 0 dimY) acc)
      xs (Some called)
    = Some (called ++
            (x ← xs; y ← seqZ 0 dimY; clustersAt getClusters towers (x + y * dimX))).
Proof.
  induction 1 as [|x xs Hx _ IH]; intros called.
  - cbn. now rewrite app_nil_r.
  - cbn [fold_left]. rewrite traverse_inner.
    + rewrite IH, bind_cons, app_assoc. reflexivity.
    + exact Hx.
    + apply Forall_forall. intros y Hy. apply elem_of_seqZ in Hy. lia.
Qed.

(** The tower indices in the order of the traversal are the indices of
    the vector, in another order. *)
Lemma grid_indices_Permutation :
  (x ← seqZ 0 dimX; y ← seqZ 0 dimY; [x + y * dimX])
    ≡ₚ seqZ 0 (dimX * dimY).
Proof.
  apply NoDup_Permutation.
  - apply NoDup_bind.
    + intros x1 x2 i Hx1 Hx2 Hi1 Hi2.
      apply elem_of_seqZ in Hx1, Hx2.
      apply list_elem_of_bind in Hi1, Hi2.
      destruct Hi1 as (y1 & Hi1 & Hy1). destruct Hi2 as (y2 & Hi2 & Hy2).
      apply list_elem_of_singleton in Hi1, Hi2.
      apply elem_of_seqZ in Hy1, Hy2.
      rewrite (Z.mod_unique i dimX y1 x1) by lia.
      rewrite (Z.mod_unique i dimX y2 x2) by lia. reflexivity.
    + intros x Hx. apply NoDup_bind.
      * intros y1 y2 i Hy1 Hy2 Hi1 Hi2.
        apply elem_of_seqZ in Hx, Hy1, Hy2.
        apply list_elem_of_singleton in Hi1, Hi2.
        rewrite (Z.div_unique i dimX y1 x) by lia.
        rewrite (Z.div_unique i dimX y2 x) by lia. reflexivity.
      * intros y _. apply NoDup_singleton.
      * apply NoDup_seqZ.
    + apply NoDup_seqZ.
  - apply NoDup_seqZ.
  - intros i. rewrite elem_of_seqZ. split.
    + intros Hi. apply list_elem_of_bind in Hi. destruct Hi as (x & Hi & Hx).
      apply list_elem_of_bind in Hi. destruct Hi as (y & Hi & Hy).
      apply list_elem_of_singleton in Hi. apply elem_of_seqZ in Hx, Hy. nia.
    + intros Hi.
      assert (Hpos : 0 < dimX) by nia.
      apply list_elem_of_bind. exists (i mod dimX). split.
      * apply list_elem_of_bind. exists (i / dimX). split.
        -- apply list_elem_of_singleton.
           pose proof (Z.div_mod i dimX ltac:(lia)). lia.
        -- apply elem_of_seqZ. split; [apply Z.div_pos; lia|].
           rewrite Z.add_0_l. apply Z.div_lt_upper_bound; [lia | nia].
      * apply elem_of_seqZ. pose proof (Z.mod_pos_bound i dimX Hpos). lia.
Qed.

End traverseClusters_facts.

(** X10: on a tower vector that fills the grid [_towersPerDim],
    [traverseClustersSequential] calls the loop body on every cluster of
    every tower exactly once: the calls are the clusters of the towers,
    in the order of the grid coordinates. *)
Theorem traverseClustersSequential_once {Tower Cluster : Type}
    (getClusters : Tower -> list Cluster) (towers : list Tower)
    (dimX dimY : Z) :
  0 <= dimX -> 0 <= dimY -> vsize towers = dimX * dimY ->
  dimX * dimY < 2 ^ 64 ->
  exists called,
    VerletClusterLists.traverseClustersSequential getClusters (dimX, dimY) towers
      = Some called /\
    called ≡ₚ ('(index, tower) ← zip (seqZ 0 (vsize towers)) towers;
               map (pair index) (getClusters tower)).
Proof.
  intros HX HY Hgrid Hsmall.
  unfold VerletClusterLists.traverseClustersSequential. cbn [fst snd].
  pose proof (traverse_outer getClusters towers dimX dimY) as Houter.
  repeat (lapply Houter; [clear Houter; intros Houter | assumption]).
  rewrite Houter.
  - eexists. split; [reflexivity|]. rewrite app_nil_l.
    rewrite (indexed_bind getClusters towers).
    rewrite (bind_bind_singleton (seqZ 0 dimX) (seqZ 0 dimY)
               (fun x y => x + y * dimX)).
    pose proof (grid_indices_Permutation dimX dimY) as Hperm.
    repeat (lapply Hperm; [clear Hperm; intros Hperm | assumption]).
    rewrite Hperm, Hgrid. reflexivity.
  - apply Forall_forall. intros x Hx. apply elem_of_seqZ in Hx. lia.
Qed.


Lemma traverseClustersSequential_once_witness :
  exists called,
    VerletClusterLists.traverseClustersSequential (fun tower : list Z => tower)
      (2, 2) [[1]; [2; 5]; [3]; []] = Some called /\
    called ≡ₚ ('(index, tower) ←
                 zip (seqZ 0 (vsize [[1]; [2; 5]; [3]; @nil Z]))
                     [[1]; [2; 5]; [3]; []];
               map (pair index) tower).
Proof.
  apply (traverseClustersSequential_once (fun tower : list Z => tower)
           [[1]; [2; 5]; [3]; []] 2 2).
  - lia.
  - lia.
  - vm_compute. reflexivity.
  - vm_compute. reflexivity.
Defined.

(** The order of the calls: x runs in the outer loop, so the towers are
    visited column by column; a grid larger than the tower vector reads
    past its end. *)
Example traverseClustersSequential_order :
  VerletClusterLists.traverseClustersSequential (fun tower : list Z => tower)
    (2, 2) [[1]; [2; 5]; [3]; []]
  = Some [(0, 1); (2, 3); (1, 2); (1, 5)] /\
  VerletClusterLists.traverseClustersSequential (fun tower : list Z => tower)
    (2, 2) [[1]; [2; 5]; [3]] = None.
Proof. vm_compute. split; reflexivity. Qed.

(** ** FlopCounterFunctor: the SoA functors *)

(** A square is never the negative zero, so accumulating it onto
    [0.] changes nothing. *)
Lemma zero_add_square (x : double) :
  PrimFloat.add PrimFloat.zero (PrimFloat.mul x x) = PrimFloat.mul x x.
Proof.
  apply Prim2SF_inj.
  rewrite FloatAxioms.add_spec, FloatAxioms.mul_spec.
  change (Prim2SF PrimFloat.zero) with (S754_zero false).
  unfold SF64add, SF64mul.
  destruct (Prim2SF x) as [s|s| |s m e]; cbn [SFmul].
  - destruct s; reflexivity.
  - destruct s; reflexivity.
  - reflexivity.
  - replace (xorb s s) with false by (destruct s; reflexivity).
    unfold binary_round_aux.
    destruct (shr_fexp _ _ _ _ _) as [mrs' e'].
    destruct (shr_fexp _ _ _ _ _) as [mrs'' e''].
    destruct (shr_m mrs'') as [|p|p]; [reflexivity | | reflexivity].
    destruct (e'' <=? _); reflexivity.
Qed.

(** The SoA functors and the AoS functor compute the same squared
    distance. *)
Lemma soa_dr2_dr2 (i j : Particle) :
  FlopCounterFunctor.soa_dr2 (getR i) (getR j) = FlopCounterFunctor.dr2 i j.
Proof.
  unfold FlopCounterFunctor.soa_dr2, FlopCounterFunctor.dr2.
  destruct (getR i) as [[x1 y1] z1], (getR j) as [[x2 y2] z2].
  cbn [ArrayMath.sub ArrayMath.dot]. rewrite zero_add_square. reflexivity.
Qed.

(** A functor whose counters are [size_t] values. *)
Definition counters_ok (f : FlopCounterFunctor.t) : Prop :=
  0 <= FlopCounterFunctor._distanceCalculations f < 2 ^ 64 /\
  0 <= FlopCounterFunctor._kernelCalls f < 2 ^ 64.

(** The AoS functor called on a list of pairs, one after the other. *)
Definition AoSFunctorOn (pairs : list (Particle * Particle))
    (f : FlopCounterFunctor.t) : FlopCounterFunctor.t :=
  fold_left (fun f '(i, j) => FlopCounterFunctor.AoSFunctor f i j false) pairs f.

(** The pairs of a list: every particle with every particle after it. *)
Fixpoint pairsAfter (ps : list Particle) : list (Particle * Particle) :=
  match ps with
  | [] => []
  | p :: rest => map (pair p) rest ++ pairsAfter rest
  end.

Lemma size_add_assoc (c a b : Z) :
  size_add (size_add c a) b = size_add c (size_add a b).
Proof.
  unfold size_add, wrap64.
  rewrite Zplus_mod_idemp_l, Zplus_mod_idemp_r. f_equal. lia.
Qed.

Lemma AoSFunctor_cutoff (f : FlopCounterFunctor.t) (i j : Particle) (n3 : bool) :
  FlopCounterFunctor._cutoffSquare (FlopCounterFunctor.AoSFunctor f i j n3)
  = FlopCounterFunctor._cutoffSquare f.
Proof.
  unfold FlopCounterFunctor.AoSFunctor.
  destruct (isDummy i || isDummy j); [reflexivity|]. cbn.
  destruct (PrimFloat.leb _ _); reflexivity.
Qed.

(** One round of an outer loop is the AoS functor on the pairs of the
    round. *)
Lemma accumulate_AoS (p : Particle) (rest : list Particle) :
  isDummy p = false -> Forall (fun q => isDummy q = false) rest ->
  forall (f : FlopCounterFunctor.t) (acc : Z * Z),
    FlopCounterFunctor.addAccumulators f
      (fold_left (FlopCounterFunctor.accumulate
                    (FlopCounterFunctor._cutoffSquare f) (getR p))
                 (map getR rest) acc)
    = AoSFunctorOn (map (pair p) rest)
        (FlopCounterFunctor.addAccumulators f acc).
Proof.
  intros Hp. induction 1 as [|q rest Hq _ IH]; intros f [d k].
  - reflexivity.
  - cbn [map fold_left]. unfold AoSFunctorOn in *. cbn [fold_left].
    rewrite IH. f_equal.
    unfold FlopCounterFunctor.accumulate, FlopCounterFunctor.AoSFunctor,
      FlopCounterFunctor.addAccumulators, FlopCounterFunctor.fetch_add.
    rewrite Hp, Hq. cbn [orb fst snd FlopCounterFunctor._cutoffSquare
      FlopCounterFunctor._distanceCalculations FlopCounterFunctor._kernelCalls].
    rewrite soa_dr2_dr2.
    destruct (PrimFloat.leb _ _); cbn [fst snd];
      rewrite ?size_add_assoc; reflexivity.
Qed.

Lemma addAccumulators_zero (f : FlopCounterFunctor.t) :
  counters_ok f -> FlopCounterFunctor.addAccumulators f (0, 0) = f.
Proof.
  intros [Hd Hk]. destruct f as [c d k]. cbn in *.
  unfold FlopCounterFunctor.addAccumulators, FlopCounterFunctor.fetch_add,
    size_add. cbn. rewrite !Z.add_0_r, !wrap64_small by lia. reflexivity.
Qed.

Lemma AoSFunctor_counters_ok (f : FlopCounterFunctor.t) (i j : Particle)
    (n3 : bool) :
  counters_ok f -> counters_ok (FlopCounterFunctor.AoSFunctor f i j n3).
Proof.
  intros [Hd Hk]. unfold FlopCounterFunctor.AoSFunctor, counters_ok.
  assert (Hw : forall z, 0 <= wrap64 z < 2 ^ 64).
  { intros z. unfold wrap64. apply Z.mod_pos_bound. lia. }
  destruct (isDummy i || isDummy j); [split; assumption|]. cbn.
  destruct (PrimFloat.leb _ _); cbn; unfold FlopCounterFunctor.fetch_add,
    size_add; auto.
Qed.

Lemma AoSFunctorOn_counters_ok (pairs : list (Particle * Particle)) :
  forall f, counters_ok f -> counters_ok (AoSFunctorOn pairs f).
Proof.
  induction pairs as [|[i j] pairs IH]; intros f Hf; [exact Hf|].
  unfold AoSFunctorOn in *. cbn [fold_left]. apply IH.
  apply AoSFunctor_counters_ok. exact Hf.
Qed.

Lemma AoSFunctorOn_cutoff (pairs : list (Particle * Particle)) :
  forall f,
    FlopCounterFunctor._cutoffSquare (AoSFunctorOn pairs f)
    = FlopCounterFunctor._cutoffSquare f.
Proof.
  induction pairs as [|[i j] pairs IH]; intros f; [reflexivity|].
  unfold AoSFunctorOn in *. cbn [fold_left]. rewrite IH.
  apply AoSFunctor_cutoff.
Qed.

Lemma AoSFunctorOn_app (l k : list (Particle * Particle)) (f : FlopCounterFunctor.t) :
  AoSFunctorOn (l ++ k) f = AoSFunctorOn k (AoSFunctorOn l f).
Proof. unfold AoSFunctorOn. apply fold_left_app. Qed.

Lemma singleLoop_AoS (ps : list Particle) :
  Forall (fun q => isDummy q = false) ps ->
  forall f, counters_ok f ->
    FlopCounterFunctor.singleLoop (map getR ps) f = AoSFunctorOn (pairsAfter ps) f.
Proof.
  induction 1 as [|p rest Hp Hrest IH]; intros f Hf; [reflexivity|].
  cbn [map FlopCounterFunctor.singleLoop pairsAfter].
  rewrite accumulate_AoS by assumption.
  rewrite addAccumulators_zero by exact Hf.
  rewrite AoSFunctorOn_app. apply IH.
  apply AoSFunctorOn_counters_ok. exact Hf.
Qed.

(** X11: on a view of particles none of which is a dummy,
    [SoAFunctorSingle] leaves the functor as [AoSFunctor] called on
    every pair of a particle and a particle after it, in the order of
    the view: same cutoff, same two counters. *)
Theorem SoAFunctorSingle_is_AoS_on_pairs (f : FlopCounterFunctor.t)
    (ps : list Particle) (newton3 : bool) :
  counters_ok f -> Forall (fun q => isDummy q = false) ps ->
  FlopCounterFunctor.SoAFunctorSingle f (map getR ps) newton3
  = AoSFunctorOn (pairsAfter ps) f.
Proof.
  intros Hf Hps. unfold FlopCounterFunctor.SoAFunctorSingle.
  destruct (vsize (map getR ps) =? 0) eqn:E.
  - apply Z.eqb_eq in E. unfold vsize in E. rewrite length_map in E.
    destruct ps; [reflexivity | cbn in E; lia].
  - apply singleLoop_AoS; assumption.
Qed.

Lemma SoAFunctorSingle_is_AoS_on_pairs_witness :
  FlopCounterFunctor.SoAFunctorSingle (FlopCounterFunctor.make 2%float)
    (map getR five_particles) true
  = AoSFunctorOn (pairsAfter five_particles) (FlopCounterFunctor.make 2%float).
Proof.
  apply (SoAFunctorSingle_is_AoS_on_pairs (FlopCounterFunctor.make 2%float)
           five_particles true).
  - unfold counters_ok. cbn. lia.
  - repeat constructor.
Defined.

(** X12: on two views of particles none of which is a dummy,
    [SoAFunctorPair] leaves the functor as [AoSFunctor] called on every
    pair of a particle of the first view and a particle of the second. *)
Theorem SoAFunctorPair_is_AoS_on_product (f : FlopCounterFunctor.t)
    (ps1 ps2 : list Particle) (newton3 : bool) :
  counters_ok f ->
  Forall (fun q => isDummy q = false) ps1 ->
  Forall (fun q => isDummy q = false) ps2 ->
  FlopCounterFunctor.SoAFunctorPair f (map getR ps1) (map getR ps2) newton3
  = AoSFunctorOn (i ← ps1; map (pair i) ps2) f.
Proof.
  intros Hf H1 H2. unfold FlopCounterFunctor.SoAFunctorPair.
  revert f Hf. induction H1 as [|p ps1 Hp _ IH]; intros f Hf; [reflexivity|].
  cbn [map fold_left]. rewrite bind_cons, AoSFunctorOn_app.
  rewrite accumulate_AoS by assumption.
  rewrite addAccumulators_zero by exact Hf.
  apply IH. apply AoSFunctorOn_counters_ok. exact Hf.
Qed.

Lemma SoAFunctorPair_is_AoS_on_product_witness :
  FlopCounterFunctor.SoAFunctorPair (FlopCounterFunctor.make 2%float)
    (map getR five_particles) (map getR (take 2 five_particles)) true
  = AoSFunctorOn (i ← five_particles; map (pair i) (take 2 five_particles))
      (FlopCounterFunctor.make 2%float).
Proof.
  apply (SoAFunctorPair_is_AoS_on_product (FlopCounterFunctor.make 2%float)
           five_particles (take 2 five_particles) true).
  - unfold counters_ok. cbn. lia.
  - repeat constructor.
  - repeat constructor.
Defined.

Lemma triangle_succ (n : Z) :
  0 <= n -> (n + 1) * n / 2 = n * (n - 1) / 2 + n.
Proof.
  intros Hn. replace ((n + 1) * n) with (n * (n - 1) + n * 2) by ring.
  rewrite Z.div_add by lia. reflexivity.
Qed.

Lemma wrap64_add_l (a b : Z) : wrap64 (wrap64 a + b) = wrap64 (a + b).
Proof. unfold wrap64. apply Zplus_mod_idemp_l. Qed.

Lemma wrap64_add_r (a b : Z) : wrap64 (a + wrap64 b) = wrap64 (a + b).
Proof. unfold wrap64. apply Zplus_mod_idemp_r. Qed.

(** The distances an inner loop counts: one for every particle. *)
Lemma accumulate_distances (cutoffSquare : double) (ri : array3)
    (l : list array3) :
  forall (c : Z) (acc : Z * Z),
    wrap64 (c + fst (fold_left (FlopCounterFunctor.accumulate cutoffSquare ri)
                               l acc))
    = wrap64 (c + fst acc + vsize l).
Proof.
  unfold vsize. induction l as [|rj l IH]; intros c [d k].
  - cbn. f_equal. lia.
  - cbn [fold_left length]. rewrite IH.
    unfold FlopCounterFunctor.accumulate. cbn [fst]. unfold size_add.
    rewrite <- Z.add_assoc, (Z.add_comm (wrap64 _)), Z.add_assoc.
    rewrite wrap64_add_r. f_equal. lia.
Qed.

Lemma addAccumulators_distances (f : FlopCounterFunctor.t) (ri : array3)
    (l : list array3) :
  FlopCounterFunctor._distanceCalculations
    (FlopCounterFunctor.addAccumulators f
       (fold_left (FlopCounterFunctor.accumulate
                     (FlopCounterFunctor._cutoffSquare f) ri) l (0, 0)))
  = wrap64 (FlopCounterFunctor._distanceCalculations f + vsize l).
Proof.
  unfold FlopCounterFunctor.addAccumulators, FlopCounterFunctor.fetch_add,
    size_add. cbn [FlopCounterFunctor._distanceCalculations].
  rewrite accumulate_distances. cbn [fst]. f_equal. lia.
Qed.

Lemma singleLoop_distances (soa : list array3) :
  forall f,
    wrap64 (FlopCounterFunctor._distanceCalculations
              (FlopCounterFunctor.singleLoop soa f))
    = wrap64 (FlopCounterFunctor._distanceCalculations f
              + vsize soa * (vsize soa - 1) / 2).
Proof.
  induction soa as [|ri rest IH]; intros f.
  - cbn [FlopCounterFunctor.singleLoop].
    change (vsize (@nil array3) * (vsize (@nil array3) - 1) / 2) with 0.
    rewrite Z.add_0_r. reflexivity.
  - cbn [FlopCounterFunctor.singleLoop]. rewrite IH.
    rewrite addAccumulators_distances, wrap64_add_l.
    f_equal. unfold vsize. cbn [length].
    replace (Z.of_nat (S (length rest))) with (Z.of_nat (length rest) + 1) by lia.
    replace (Z.of_nat (length rest) + 1 - 1) with (Z.of_nat (length rest)) by lia.
    rewrite triangle_succ by lia. lia.
Qed.

Lemma addAccumulators_counters_ok (f : FlopCounterFunctor.t) (acc : Z * Z) :
  counters_ok (FlopCounterFunctor.addAccumulators f acc).
Proof.
  unfold counters_ok, FlopCounterFunctor.addAccumulators,
    FlopCounterFunctor.fetch_add, size_add, wrap64. cbn.
  split; apply Z.mod_pos_bound; lia.
Qed.

Lemma singleLoop_counters_ok (soa : list array3) :
  forall f, counters_ok f -> counters_ok (FlopCounterFunctor.singleLoop soa f).
Proof.
  induction soa as [|ri rest IH]; intros f Hf; [exact Hf|].
  cbn [FlopCounterFunctor.singleLoop]. apply IH.
  apply addAccumulators_counters_ok.
Qed.

Lemma pair_loop_distances (soa2 soa1 : list array3) :
  forall f,
    wrap64 (FlopCounterFunctor._distanceCalculations
              (FlopCounterFunctor.SoAFunctorPair f soa1 soa2 false))
    = wrap64 (FlopCounterFunctor._distanceCalculations f
              + vsize soa1 * vsize soa2).
Proof.
  unfold FlopCounterFunctor.SoAFunctorPair.
  induction soa1 as [|ri rest IH]; intros f.
  - cbn [fold_left]. change (vsize (@nil array3)) with 0.
    rewrite Z.mul_0_l, Z.add_0_r. reflexivity.
  - cbn [fold_left]. rewrite IH.
    rewrite addAccumulators_distances, wrap64_add_l.
    f_equal. unfold vsize. cbn [length]. lia.
Qed.

Lemma pair_loop_counters_ok (soa2 soa1 : list array3) :
  forall f, counters_ok f ->
    counters_ok (FlopCounterFunctor.SoAFunctorPair f soa1 soa2 false).
Proof.
  unfold FlopCounterFunctor.SoAFunctorPair.
  induction soa1 as [|ri rest IH]; intros f Hf; [exact Hf|].
  cbn [fold_left]. apply IH. apply addAccumulators_counters_ok.
Qed.

(** X13: whatever the particles are, dummies too, [SoAFunctorSingle]
    adds [n * (n - 1) / 2] to the distance calculations for a view of
    [n] particles and [SoAFunctorPair] adds [n1 * n2], modulo [2^64]. *)
Theorem SoA_distance_counts (f : FlopCounterFunctor.t)
    (soa1 soa2 : list array3) (newton3 : bool) :
  counters_ok f ->
  FlopCounterFunctor.getDistanceCalculations
    (FlopCounterFunctor.SoAFunctorSingle f soa1 newton3)
  = wrap64 (FlopCounterFunctor.getDistanceCalculations f
            + vsize soa1 * (vsize soa1 - 1) / 2) /\
  FlopCounterFunctor.getDistanceCalculations
    (FlopCounterFunctor.SoAFunctorPair f soa1 soa2 newton3)
  = wrap64 (FlopCounterFunctor.getDistanceCalculations f
            + vsize soa1 * vsize soa2).
Proof.
  intros Hf. unfold FlopCounterFunctor.getDistanceCalculations. split.
  - unfold FlopCounterFunctor.SoAFunctorSingle.
    destruct (vsize soa1 =? 0) eqn:E.
    + apply Z.eqb_eq in E. rewrite E. cbn. rewrite Z.add_0_r.
      symmetry. apply wrap64_small. apply Hf.
    + rewrite <- singleLoop_distances. symmetry. apply wrap64_small.
      apply (singleLoop_counters_ok soa1 f Hf).
  - change (FlopCounterFunctor.SoAFunctorPair f soa1 soa2 newton3)
      with (FlopCounterFunctor.SoAFunctorPair f soa1 soa2 false).
    rewrite <- pair_loop_distances. symmetry. apply wrap64_small.
    apply (pair_loop_counters_ok soa2 soa1 f Hf).
Qed.

Lemma SoA_distance_counts_witness :
  FlopCounterFunctor.getDistanceCalculations
    (FlopCounterFunctor.SoAFunctorSingle (FlopCounterFunctor.make 2%float)
       (map getR five_particles) false)
  = wrap64 (0 + 5 * (5 - 1) / 2) /\
  FlopCounterFunctor.getDistanceCalculations
    (FlopCounterFunctor.SoAFunctorPair (FlopCounterFunctor.make 2%float)
       (map getR five_particles) (map getR five_particles) false)
  = wrap64 (0 + 5 * 5).
Proof.
  apply (SoA_distance_counts (FlopCounterFunctor.make 2%float)
           (map getR five_particles) (map getR five_particles) false).
  unfold counters_ok. cbn. lia.
Defined.

(** A dummy particle of a view is counted by the SoA functors and
    skipped by the AoS functor. *)
Example SoAFunctorSingle_counts_dummies :
  let p := newParticle (0, 0, 0)%float (0, 0, 0)%float 1 in
  let q := mkParticle (0, 0, 1)%float (0, 0, 0)%float 2 dummy in
  let f := FlopCounterFunctor.make 2%float in
  FlopCounterFunctor.SoAFunctorSingle f [getR p; getR q] false
  = FlopCounterFunctor.mk 4%float 1 1 /\
  FlopCounterFunctor.AoSFunctor f p q false = f.
Proof. vm_compute. split; reflexivity. Qed.


Section SoAFunctorVerlet_facts.

Variable soa : list array3.
Variable indexFirst : Z.
Hypothesis HindexFirst : 0 <= indexFirst < vsize soa.




End SoAFunctorVerlet_facts.



(** A neighbour list of twelve indices is read as one block, which
    counts the particle against itself; one index shorter, the list is
    read index by index and the particle itself is skipped. *)
Example SoAFunctorVerlet_self :
  let soa := [(0, 0, 0); (1, 0, 0)]%float in
  FlopCounterFunctor.SoAFunctorVerlet (FlopCounterFunctor.make 1%float)
    soa 0 [0; 0; 0; 0; 0; 0; 0; 0; 0; 0; 0; 0] false
  = Some (FlopCounterFunctor.mk 1%float 12 12) /\
  FlopCounterFunctor.SoAFunctorVerlet (FlopCounterFunctor.make 1%float)
    soa 0 [0; 0; 0; 0; 0; 0; 0; 0; 0; 0; 0] false
  = Some (FlopCounterFunctor.mk 1%float 0 0) /\
  FlopCounterFunctor.SoAFunctorVerlet (FlopCounterFunctor.make 1%float)
    soa 0 [1; 2] false = None.
Proof. vm_compute. repeat split; reflexivity. Qed.

(** ** FullSearchMPI: removing a Newton 3 option while tuning *)

Section removeN3Option_facts.

Context {TraversalOption DataLayoutOption Newton3Option : Type}.
Context `{EqDecision TraversalOption} `{EqDecision DataLayoutOption}
        `{EqDecision Newton3Option}.

Let Configuration : Type :=
  @FullSearchMPI.Configuration TraversalOption DataLayoutOption Newton3Option.

Variable bad : Newton3Option.

(** The configurations that stay. *)
Definition survivors (l : list Configuration) : list Configuration :=
  filter (fun c => FullSearchMPI.newton3 c <> bad) l.

Lemma removeN3Option_loop_searchSpace (rest : list Configuration) :
  forall kept tuningConfig,
    (FullSearchMPI.removeN3Option_loop bad kept rest tuningConfig).1
    = kept ++ survivors rest.
Proof.
  unfold survivors.
  induction rest as [|c rest IH]; intros kept tuningConfig;
    cbn [FullSearchMPI.removeN3Option_loop].
  - cbn. rewrite app_nil_r. reflexivity.
  - destruct (decide (FullSearchMPI.newton3 c = bad)) as [Hbad|Hgood].
    + rewrite filter_cons_False by (intros Hc; apply Hc; exact Hbad).
      case_decide; apply IH.
    + rewrite filter_cons_True by exact Hgood.
      rewrite IH, <- app_assoc. reflexivity.
Qed.

(** An iterator the loop does not meet stays as it is. *)
Lemma removeN3Option_loop_elsewhere (rest : list Configuration) :
  forall kept tuningConfig,
    (forall c, tuningConfig = Some c -> c ∉ rest) ->
    (FullSearchMPI.removeN3Option_loop bad kept rest tuningConfig).2
    = tuningConfig.
Proof.
  induction rest as [|c rest IH]; intros kept tuningConfig Hnot; cbn;
    [reflexivity|].
  assert (Hrest : forall c', tuningConfig = Some c' -> c' ∉ rest).
  { intros c' Hc' Hin. apply (Hnot c' Hc'). right. exact Hin. }
  destruct (decide (FullSearchMPI.newton3 c = bad)).
  - case_decide as Heq.
    + exfalso. apply (Hnot c); [symmetry; exact Heq | left].
    + apply IH. exact Hrest.
  - apply IH. exact Hrest.
Qed.

(** From an iterator at the first element of the rest, the loop moves
    to the first element that stays. *)
Lemma removeN3Option_loop_head (rest : list Configuration) :
  NoDup rest ->
  forall kept,
    (FullSearchMPI.removeN3Option_loop bad kept rest (head rest)).2
    = head (survivors rest).
Proof.
  unfold survivors.
  induction 1 as [|c rest Hc Hnd IH]; intros kept;
    cbn [FullSearchMPI.removeN3Option_loop head]; [reflexivity|].
  destruct (decide (FullSearchMPI.newton3 c = bad)) as [Hbad|Hgood].
  - rewrite filter_cons_False by (intros Hx; apply Hx; exact Hbad).
    rewrite decide_True by reflexivity. apply IH.
  - rewrite filter_cons_True by exact Hgood. cbn.
    apply removeN3Option_loop_elsewhere.
    intros c' Hc'. injection Hc' as <-. exact Hc.
Qed.

Lemma removeN3Option_loop_tuningConfig (before after : list Configuration)
    (c : Configuration) :
  NoDup (before ++ c :: after) ->
  forall kept,
    (FullSearchMPI.removeN3Option_loop bad kept (before ++ c :: after)
       (Some c)).2
    = head (survivors (c :: after)).
Proof.
  induction before as [|x before IH]; intros Hnd kept.
  - apply (removeN3Option_loop_head (c :: after) Hnd kept).
  - cbn [app] in Hnd. apply NoDup_cons in Hnd. destruct Hnd as [Hx Hnd].
    assert (Hxc : Some x <> Some c).
    { intros Heq. injection Heq as ->. apply Hx.
      apply elem_of_app. right. left. }
    cbn [app FullSearchMPI.removeN3Option_loop].
    destruct (decide (FullSearchMPI.newton3 x = bad)).
    + rewrite decide_False by exact Hxc. apply IH. exact Hnd.
    + apply IH. exact Hnd.
Qed.

Lemma survivors_nil (l : list Configuration) :
  survivors l = [] <-> Forall (fun c => FullSearchMPI.newton3 c = bad) l.
Proof.
  unfold survivors. induction l as [|c l IH].
  - split; [constructor | reflexivity].
  - destruct (decide (FullSearchMPI.newton3 c = bad)) as [Hbad|Hgood].
    + rewrite filter_cons_False by (intros Hx; apply Hx; exact Hbad).
      split.
      * intros Hl. constructor; [exact Hbad | apply IH; exact Hl].
      * intros Hl. apply Forall_cons in Hl. apply IH, Hl.
    + rewrite filter_cons_True by exact Hgood.
      split; [discriminate|]. intros Hl. apply Forall_cons in Hl.
      destruct Hl as [Hbad _]. contradiction.
Qed.

(** X15: [removeN3Option] erases exactly the configurations with the
    bad Newton 3 option and keeps the others in their order.  A tuning
    iterator that points into the search space ends at the first
    configuration at or after its element that stays, at [end()] when
    there is none; the optimal configuration is not touched; no
    exception is raised exactly when a configuration stays; and an
    iterator that was at [begin()] is at [begin()] of the new search
    space when no exception is raised. *)
Theorem removeN3Option_tuningConfig (st : FullSearchMPI.state)
    (before after : list Configuration) (c : Configuration) :
  NoDup (FullSearchMPI._searchSpace st) ->
  FullSearchMPI._searchSpace st = before ++ c :: after ->
  FullSearchMPI._tuningConfig st = Some c ->
  let r := FullSearchMPI.removeN3Option st bad in
  FullSearchMPI._searchSpace r.1 = survivors (FullSearchMPI._searchSpace st) /\
  FullSearchMPI._tuningConfig r.1 = head (survivors (c :: after)) /\
  FullSearchMPI._optimalConfig r.1 = FullSearchMPI._optimalConfig st /\
  (r.2 = None <-> exists x, x ∈ FullSearchMPI._searchSpace st /\
                            FullSearchMPI.newton3 x <> bad) /\
  (before = [] -> r.2 = None ->
   FullSearchMPI._tuningConfig r.1 = head (FullSearchMPI._searchSpace r.1)).
Proof.
  intros Hnd Hss Htc r.
  pose proof (removeN3Option_loop_searchSpace (FullSearchMPI._searchSpace st)
                [] (FullSearchMPI._tuningConfig st)) as Hspace.
  pose proof (removeN3Option_loop_tuningConfig before after c
                ltac:(rewrite <- Hss; exact Hnd) []) as Htuning.
  rewrite <- Hss, <- Htc in Htuning.
  subst r. unfold FullSearchMPI.removeN3Option.
  destruct (FullSearchMPI.removeN3Option_loop bad []
              (FullSearchMPI._searchSpace st) (FullSearchMPI._tuningConfig st))
    as [searchSpace tuningConfig].
  cbn [fst snd] in *. cbn [app] in Hspace. subst searchSpace tuningConfig.
  cbn [FullSearchMPI._searchSpace FullSearchMPI._tuningConfig
       FullSearchMPI._optimalConfig].
  split; [reflexivity|]. split; [reflexivity|]. split; [reflexivity|].
  unfold FullSearchMPI.searchSpaceIsEmpty.
  cbn [FullSearchMPI._searchSpace].
  split.
  - destruct (survivors (FullSearchMPI._searchSpace st)) as [|x l] eqn:E.
    + split; [discriminate|]. intros (x & Hx & Hgood). exfalso.
      apply survivors_nil in E.
      apply Hgood. apply (proj1 (Forall_forall _ _) E x Hx).
    + split; [|reflexivity]. intros _. exists x.
      assert (Hin : x ∈ survivors (FullSearchMPI._searchSpace st))
        by (rewrite E; left).
      unfold survivors in Hin. apply list_elem_of_filter in Hin.
      destruct Hin as [Hgood Hin]. split; assumption.
  - intros -> _. rewrite Hss. reflexivity.
Qed.

(** X16: when the configuration under the tuning iterator and all
    configurations after it have the bad option and one before it
    stays, [removeN3Option] raises no exception and leaves the tuning
    iterator at [end()]; as long as no optimal configuration is chosen
    (its cell size factor is -1), [getCurrentConfiguration] then
    dereferences [end()]. *)
Theorem removeN3Option_end (st : FullSearchMPI.state)
    (before after : list Configuration) (c : Configuration) :
  NoDup (FullSearchMPI._searchSpace st) ->
  FullSearchMPI._searchSpace st = before ++ c :: after ->
  FullSearchMPI._tuningConfig st = Some c ->
  Forall (fun x => FullSearchMPI.newton3 x = bad) (c :: after) ->
  Exists (fun x => FullSearchMPI.newton3 x <> bad) before ->
  PrimFloat.eqb (FullSearchMPI.cellSizeFactor (FullSearchMPI._optimalConfig st))
                (-1)%float = true ->
  let r := FullSearchMPI.removeN3Option st bad in
  r.2 = None /\
  FullSearchMPI._searchSpace r.1 = survivors before /\
  FullSearchMPI._tuningConfig r.1 = None /\
  FullSearchMPI.getCurrentConfiguration r.1 = None.
Proof.
  intros Hnd Hss Htc Hbad Hgood Hopt r.
  pose proof (removeN3Option_loop_searchSpace (FullSearchMPI._searchSpace st)
                [] (FullSearchMPI._tuningConfig st)) as Hspace.
  pose proof (removeN3Option_loop_tuningConfig before after c
                ltac:(rewrite <- Hss; exact Hnd) []) as Htuning.
  rewrite <- Hss, <- Htc in Htuning.
  apply survivors_nil in Hbad. rewrite Hbad in Htuning.
  subst r. unfold FullSearchMPI.removeN3Option.
  destruct (FullSearchMPI.removeN3Option_loop bad []
              (FullSearchMPI._searchSpace st) (FullSearchMPI._tuningConfig st))
    as [searchSpace tuningConfig].
  cbn [fst snd] in *. cbn [app] in Hspace. subst searchSpace tuningConfig.
  assert (Hsurv : survivors (FullSearchMPI._searchSpace st) = survivors before).
  { rewrite Hss. unfold survivors at 1. rewrite filter_app.
    change (survivors before ++ survivors (c :: after) = survivors before).
    rewrite Hbad. apply app_nil_r. }
  unfold FullSearchMPI.getCurrentConfiguration, FullSearchMPI.searchSpaceIsEmpty.
  cbn [FullSearchMPI._searchSpace FullSearchMPI._tuningConfig
       FullSearchMPI._optimalConfig].
  rewrite Hopt, Hsurv.
  split; [|split; [reflexivity | split; reflexivity]].
  destruct (survivors before) eqn:E; [|reflexivity].
  exfalso. apply survivors_nil in E. apply Exists_exists in Hgood.
  destruct Hgood as (x & Hx & Hgood).
  apply Hgood. apply (proj1 (Forall_forall _ _) E x Hx).
Qed.

End removeN3Option_facts.

Definition tuning (searchSpace : list FullSearchMPI.Configuration)
    (current : FullSearchMPI.Configuration) : FullSearchMPI.state :=
  {| FullSearchMPI._searchSpace := searchSpace;
     FullSearchMPI._tuningConfig := Some current;
     FullSearchMPI._optimalConfig :=
       FullSearchMPI.mkConfiguration directSum (-1)%float c08 aos disabled |}.

Lemma removeN3Option_tuningConfig_witness :
  let st := tuning [lc aos disabled; lc aos enabled; lc soa disabled;
                    lc soa enabled] (lc aos enabled) in
  let r := FullSearchMPI.removeN3Option st enabled in
  FullSearchMPI._searchSpace r.1
  = survivors enabled (FullSearchMPI._searchSpace st) /\
  FullSearchMPI._tuningConfig r.1
  = head (survivors enabled [lc aos enabled; lc soa disabled; lc soa enabled]) /\
  FullSearchMPI._optimalConfig r.1 = FullSearchMPI._optimalConfig st /\
  (r.2 = None <-> exists x, x ∈ FullSearchMPI._searchSpace st /\
                            FullSearchMPI.newton3 x <> enabled) /\
  ([lc aos disabled] = [] -> r.2 = None ->
   FullSearchMPI._tuningConfig r.1 = head (FullSearchMPI._searchSpace r.1)).
Proof.
  apply (removeN3Option_tuningConfig enabled
           (tuning [lc aos disabled; lc aos enabled; lc soa disabled;
                    lc soa enabled] (lc aos enabled))
           [lc aos disabled] [lc soa disabled; lc soa enabled]
           (lc aos enabled)).
  - apply (bool_decide_unpack _). vm_compute. reflexivity.
  - reflexivity.
  - reflexivity.
Defined.

Lemma removeN3Option_end_witness :
  let st := tuning [lc aos disabled; lc aos enabled] (lc aos enabled) in
  let r := FullSearchMPI.removeN3Option st enabled in
  r.2 = None /\
  FullSearchMPI._searchSpace r.1 = survivors enabled [lc aos disabled] /\
  FullSearchMPI._tuningConfig r.1 = None /\
  FullSearchMPI.getCurrentConfiguration r.1 = None.
Proof.
  apply (removeN3Option_end enabled
           (tuning [lc aos disabled; lc aos enabled] (lc aos enabled))
           [lc aos disabled] [] (lc aos enabled)).
  - apply (bool_decide_unpack _). vm_compute. reflexivity.
  - reflexivity.
  - reflexivity.
  - repeat constructor.
  - apply Exists_cons_hd. discriminate.
  - vm_compute. reflexivity.
Defined.

(** The search space of the first witness after the call: the tuning
    iterator has moved from the erased configuration to the next one. *)
Example removeN3Option_moves :
  FullSearchMPI.removeN3Option
    (tuning [lc aos disabled; lc aos enabled; lc soa disabled; lc soa enabled]
            (lc aos enabled)) enabled
  = (tuning [lc aos disabled; lc soa disabled] (lc soa disabled), None).
Proof. vm_compute. reflexivity. Qed.

(** ** ParticleView: adding particles *)

(** [addParticle] called for the particles of a list, one after the
    other. *)
Definition addParticles (defaultParticle : Particle) (v : ParticleView.t)
    (ps : list Particle) : option ParticleView.t :=
  fold_left (fun acc p => v ← acc; ParticleView.addParticle defaultParticle v p)
            ps (Some v).

Section ParticleView_facts.

Variable defaultParticle : Particle.

(** A view that has doubled [k] times and holds [stored] in its first
    elements. *)
Record grown (v : ParticleView.t) (k : nat) (stored : list Particle) : Prop := {
  grown_extent : vsize (ParticleView._particleViewImp v) = ParticleView._capacity v;
  grown_capacity : ParticleView._capacity v = 8 * 2 ^ Z.of_nat k;
  grown_size : ParticleView._size v = vsize stored;
  grown_room : vsize stored <= ParticleView._capacity v;
  grown_tight : k = 0%nat \/ ParticleView._capacity v < 2 * vsize stored;
  grown_stored : take (length stored) (ParticleView._particleViewImp v) = stored
}.

Lemma grown_make : grown (ParticleView.make defaultParticle) 0 [].
Proof. split; try reflexivity; cbn; unfold vsize; cbn; lia || auto. Qed.

Lemma addParticle_grown (v : ParticleView.t) (k : nat)
    (stored : list Particle) (p : Particle) :
  grown v k stored ->
  vsize stored < 2 ^ 62 ->
  exists v' k',
    ParticleView.addParticle defaultParticle v p = Some v' /\
    grown v' k' (stored ++ [p]).
Proof.
  intros [Hext Hcap Hsize Hroom Htight Hstored] Hsmall.
  assert (Hpow : 0 < 2 ^ Z.of_nat k) by (apply Z.pow_pos_nonneg; lia).
  assert (Hlen : vsize (stored ++ [p]) = vsize stored + 1).
  { unfold vsize. rewrite length_app. cbn. lia. }
  unfold ParticleView.addParticle.
  destruct (ParticleView._size v =? ParticleView._capacity v) eqn:E.
  - apply Z.eqb_eq in E.
    assert (Hmul : size_mul (ParticleView._capacity v) 2
                   = 2 * ParticleView._capacity v).
    { unfold size_mul. rewrite wrap64_small; lia. }
    cbn [ParticleView._size ParticleView._capacity
         ParticleView._particleViewImp].
    rewrite Hmul.
    assert (Hres : vsize (ParticleView.resize defaultParticle
                            (ParticleView._particleViewImp v)
                            (2 * ParticleView._capacity v))
                   = 2 * ParticleView._capacity v).
    { unfold ParticleView.resize, vsize in *.
      rewrite length_app, length_take, length_replicate. lia. }
    rewrite Hres.
    destruct (ParticleView._size v <? 2 * ParticleView._capacity v) eqn:E2;
      [|apply Z.ltb_ge in E2; lia].
    eexists. exists (S k). split; [reflexivity|].
    split; cbn [ParticleView._size ParticleView._capacity
                ParticleView._particleViewImp].
    + unfold vsize in *. rewrite length_insert. exact Hres.
    + rewrite Hcap, Nat2Z.inj_succ, Z.pow_succ_r by lia. lia.
    + rewrite Hlen. unfold size_add, vsize in *. rewrite wrap64_small; lia.
    + lia.
    + right. lia.
    + rewrite length_app. cbn [length].
      replace (length stored + 1)%nat with (S (length stored)) by lia.
      assert (Hidx : Z.to_nat (ParticleView._size v) = length stored)
        by (unfold vsize in Hsize; lia).
      rewrite Hidx.
      erewrite take_S_r;
        [|apply list_lookup_insert_eq; unfold vsize in *; lia].
      rewrite take_insert_ge by lia. f_equal.
      unfold ParticleView.resize. rewrite take_app_le.
      * rewrite take_take. rewrite Nat.min_l by (unfold vsize in *; lia).
        exact Hstored.
      * rewrite length_take. unfold vsize in *. lia.
  - apply Z.eqb_neq in E. rewrite Hext.
    destruct (ParticleView._size v <? ParticleView._capacity v) eqn:E2;
      [|apply Z.ltb_ge in E2; lia].
    eexists. exists k. split; [reflexivity|].
    split; cbn [ParticleView._size ParticleView._capacity
                ParticleView._particleViewImp].
    + unfold vsize in *. rewrite length_insert. exact Hext.
    + exact Hcap.
    + rewrite Hlen. unfold size_add, vsize in *. rewrite wrap64_small; lia.
    + lia.
    + destruct Htight as [->|Ht]; [left; reflexivity | right; lia].
    + rewrite length_app. cbn [length].
      replace (length stored + 1)%nat with (S (length stored)) by lia.
      assert (Hidx : Z.to_nat (ParticleView._size v) = length stored)
        by (unfold vsize in Hsize; lia).
      rewrite Hidx.
      erewrite take_S_r;
        [|apply list_lookup_insert_eq; unfold vsize in *; lia].
      rewrite take_insert_ge by lia. f_equal. exact Hstored.
Qed.

Lemma addParticles_grown (ps : list Particle) :
  forall (v : ParticleView.t) (k : nat) (stored : list Particle),
    grown v k stored ->
    vsize (stored ++ ps) <= 2 ^ 62 ->
    exists v' k',
      addParticles defaultParticle v ps = Some v' /\
      grown v' k' (stored ++ ps).
Proof.
  unfold addParticles.
  induction ps as [|p ps IH]; intros v k stored Hv Hsmall.
  - exists v, k. rewrite app_nil_r. split; [reflexivity | exact Hv].
  - assert (Hlen : vsize (stored ++ p :: ps) = vsize stored + 1 + vsize ps).
    { unfold vsize. rewrite length_app. cbn [length]. lia. }
    destruct (addParticle_grown v k stored p Hv) as (v1 & k1 & Hadd & Hv1).
    { unfold vsize in *. lia. }
    cbn [fold_left mbind option_bind]. rewrite Hadd.
    replace (stored ++ p :: ps) with ((stored ++ [p]) ++ ps)
      by (rewrite <- app_assoc; reflexivity).
    apply (IH v1 k1 (stored ++ [p]) Hv1).
    rewrite <- app_assoc. exact Hsmall.
Qed.

End ParticleView_facts.

(** X17: the particles added to a new view with [addParticle], up to
    [2^62] of them, are all stored: every call returns, [getSize] is
    their number, the first elements of the view are the particles in
    the order they were added, and the capacity is the extent of the
    view and the least [8 * 2^k] that holds them. *)
Theorem ParticleView_addParticle_round_trip (defaultParticle : Particle)
    (ps : list Particle) :
  vsize ps <= 2 ^ 62 ->
  exists (v : ParticleView.t) (k : nat),
    addParticles defaultParticle (ParticleView.make defaultParticle) ps
      = Some v /\
    ParticleView.getSize v = vsize ps /\
    take (length ps) (ParticleView.getParticles v) = ps /\
    vsize (ParticleView.getParticles v) = ParticleView.getCapacity v /\
    ParticleView.getCapacity v = 8 * 2 ^ Z.of_nat k /\
    vsize ps <= ParticleView.getCapacity v /\
    (k = 0%nat \/ ParticleView.getCapacity v < 2 * vsize ps).
Proof.
  intros Hsmall.
  destruct (addParticles_grown defaultParticle ps
              (ParticleView.make defaultParticle) 0 []
              (grown_make defaultParticle) Hsmall)
    as (v & k & Hadd & [Hext Hcap Hsize Hroom Htight Hstored]).
  cbn [app] in *. exists v, k.
  unfold ParticleView.getSize, ParticleView.getParticles,
    ParticleView.getCapacity.
  repeat split; assumption.
Qed.

Lemma ParticleView_addParticle_round_trip_witness :
  exists (v : ParticleView.t) (k : nat),
    addParticles (newParticle (0, 0, 0)%float (0, 0, 0)%float 0)
      (ParticleView.make (newParticle (0, 0, 0)%float (0, 0, 0)%float 0))
      (five_particles ++ five_particles) = Some v /\
    ParticleView.getSize v = vsize (five_particles ++ five_particles) /\
    take (length (five_particles ++ five_particles))
         (ParticleView.getParticles v)
    = five_particles ++ five_particles /\
    vsize (ParticleView.getParticles v) = ParticleView.getCapacity v /\
    ParticleView.getCapacity v = 8 * 2 ^ Z.of_nat k /\
    vsize (five_particles ++ five_particles) <= ParticleView.getCapacity v /\
    (k = 0%nat \/
     ParticleView.getCapacity v < 2 * vsize (five_particles ++ five_particles)).
Proof.
  apply (ParticleView_addParticle_round_trip
           (newParticle (0, 0, 0)%float (0, 0, 0)%float 0)
           (five_particles ++ five_particles)).
  unfold vsize. cbn. lia.
Defined.

(** Ten particles make the view double once; [deleteAll] gives no
    storage back. *)
Example ParticleView_deleteAll :
  let d := newParticle (0, 0, 0)%float (0, 0, 0)%float 0 in
  exists v,
    addParticles d (ParticleView.make d) (five_particles ++ five_particles)
      = Some v /\
    ParticleView.getCapacity v = 16 /\
    ParticleView.getSize (ParticleView.deleteAll v) = 0 /\
    ParticleView.getCapacity (ParticleView.deleteAll v) = 16.
Proof. eexists. split; [vm_compute; reflexivity|]. repeat split. Qed.

(** ** ReferenceLinkedCells: the cells of a region *)

(** The 3D indices between two corners, in the order of the loops. *)
Definition region (startIndex3D stopIndex3D : index3) : list index3 :=
  let '(start0, start1, start2) := startIndex3D in
  let '(stop0, stop1, stop2) := stopIndex3D in
  z ← seqZ start2 (stop2 + 1 - start2);
  y ← seqZ start1 (stop1 + 1 - start1);
  x ← seqZ start0 (stop0 + 1 - start0);
  [(x, y, z)].

Lemma concat_map_bind {A B : Type} (g : A -> list B) (l : list A) :
  concat (map g l) = l ≫= g.
Proof.
  induction l as [|x l IH]; [reflexivity|].
  cbn [map concat]. rewrite bind_cons, IH. reflexivity.
Qed.

Lemma fmap_bind {A B C : Type} (f : B -> C) (g : A -> list B) (l : list A) :
  f <$> (l ≫= g) = l ≫= (fun x => f <$> g x).
Proof.
  induction l as [|x l IH]; [reflexivity|].
  rewrite !bind_cons, fmap_app, IH. reflexivity.
Qed.

Lemma forInclusive_Some {A : Type} (start stop : Z)
    (body : Z -> option (list A)) (g : Z -> list A) :
  stop < 2 ^ 64 - 1 ->
  (forall v, body v = Some (g v)) ->
  ReferenceLinkedCells.forInclusive start stop body
  = Some (seqZ start (stop + 1 - start) ≫= g).
Proof.
  intros Hstop Hbody. unfold ReferenceLinkedCells.forInclusive.
  destruct (stop <? start) eqn:E.
  - apply Z.ltb_lt in E. rewrite seqZ_nil by lia. reflexivity.
  - destruct (stop =? 2 ^ 64 - 1) eqn:E2; [apply Z.eqb_eq in E2; lia|].
    rewrite (mapM_Some_2 body _ (map g (seqZ start (stop + 1 - start)))).
    + cbn. rewrite concat_map_bind. reflexivity.
    + apply Forall2_fmap_r, Forall_Forall2_diag, Forall_forall.
      intros v _. apply Hbody.
Qed.

Lemma store_fold (cells : list Z) :
  forall (vector : list Z) (i : Z),
    0 <= i -> i + vsize cells <= vsize vector -> vsize vector < 2 ^ 31 ->
    fold_left ReferenceLinkedCells.store cells (Some (vector, i))
    = Some (take (Z.to_nat i) vector ++ cells
              ++ drop (Z.to_nat (i + vsize cells)) vector,
            i + vsize cells).
Proof.
  unfold vsize.
  induction cells as [|c cells IH]; intros vector i Hi Hroom Hsmall.
  - cbn [fold_left length app]. rewrite Z.add_0_r, take_drop. reflexivity.
  - cbn [length] in *. cbn [fold_left].
    unfold ReferenceLinkedCells.store at 2. cbn [mbind option_bind].
    rewrite wrap64_small by lia. unfold vsize.
    destruct (i <? Z.of_nat (length vector)) eqn:E;
      [|apply Z.ltb_ge in E; lia].
    rewrite to_int_small by lia.
    rewrite IH by (rewrite ?length_insert; lia).
    f_equal. f_equal; [|lia].
    replace (Z.to_nat (i + 1)) with (S (Z.to_nat i)) by lia.
    erewrite take_S_r by (apply list_lookup_insert_eq; lia).
    rewrite take_insert_ge by lia.
    rewrite drop_insert_lt by lia.
    rewrite <- app_assoc. cbn [app].
    do 4 f_equal. lia.
Qed.

Lemma elem_of_region (startIndex3D stopIndex3D p : index3) :
  p ∈ region startIndex3D stopIndex3D <->
  let '(start0, start1, start2) := startIndex3D in
  let '(stop0, stop1, stop2) := stopIndex3D in
  let '(x, y, z) := p in
  start0 <= x <= stop0 /\ start1 <= y <= stop1 /\ start2 <= z <= stop2.
Proof.
  destruct startIndex3D as [[s0 s1] s2], stopIndex3D as [[e0 e1] e2],
    p as [[x y] z].
  unfold region. split.
  - intros Hin.
    apply list_elem_of_bind in Hin. destruct Hin as (z' & Hin & Hz).
    apply list_elem_of_bind in Hin. destruct Hin as (y' & Hin & Hy).
    apply list_elem_of_bind in Hin. destruct Hin as (x' & Hin & Hx).
    apply list_elem_of_singleton in Hin. injection Hin as -> -> ->.
    apply elem_of_seqZ in Hx, Hy, Hz. lia.
  - intros (Hx & Hy & Hz).
    apply list_elem_of_bind. exists z. split; [|apply elem_of_seqZ; lia].
    apply list_elem_of_bind. exists y. split; [|apply elem_of_seqZ; lia].
    apply list_elem_of_bind. exists x. split; [|apply elem_of_seqZ; lia].
    apply list_elem_of_singleton. reflexivity.
Qed.

Lemma NoDup_region (startIndex3D stopIndex3D : index3) :
  NoDup (region startIndex3D stopIndex3D).
Proof.
  destruct startIndex3D as [[s0 s1] s2], stopIndex3D as [[e0 e1] e2].
  unfold region.
  apply NoDup_bind; [| |apply NoDup_seqZ].
  - intros z1 z2 p _ _ H1 H2.
    apply list_elem_of_bind in H1, H2.
    destruct H1 as (y1 & H1 & _), H2 as (y2 & H2 & _).
    apply list_elem_of_bind in H1, H2.
    destruct H1 as (x1 & H1 & _), H2 as (x2 & H2 & _).
    apply list_elem_of_singleton in H1, H2. congruence.
  - intros z _. apply NoDup_bind; [| |apply NoDup_seqZ].
    + intros y1 y2 p _ _ H1 H2.
      apply list_elem_of_bind in H1, H2.
      destruct H1 as (x1 & H1 & _), H2 as (x2 & H2 & _).
      apply list_elem_of_singleton in H1, H2. congruence.
    + intros y _. apply NoDup_bind; [| |apply NoDup_seqZ].
      * intros x1 x2 p _ _ H1 H2.
        apply list_elem_of_singleton in H1, H2. congruence.
      * intros x _. apply NoDup_singleton.
Qed.

Lemma length_region (startIndex3D stopIndex3D : index3) :
  (let '(start0, start1, start2) := startIndex3D in
   let '(stop0, stop1, stop2) := stopIndex3D in
   start0 <= stop0 /\ start1 <= stop1 /\ start2 <= stop2) ->
  vsize (region startIndex3D stopIndex3D)
  = let '(start0, start1, start2) := startIndex3D in
    let '(stop0, stop1, stop2) := stopIndex3D in
    (stop0 - start0 + 1) * (stop1 - start1 + 1) * (stop2 - start2 + 1).
Proof.
  destruct startIndex3D as [[s0 s1] s2], stopIndex3D as [[e0 e1] e2].
  intros (H0 & H1 & H2). unfold region, vsize.
  rewrite (length_bind_const _ _
             (Z.to_nat ((e0 - s0 + 1) * (e1 - s1 + 1)))).
  - rewrite length_seqZ. nia.
  - intros z.
    rewrite (length_bind_const _ _ (Z.to_nat (e0 - s0 + 1))).
    + rewrite length_seqZ. nia.
    + intros y. rewrite (length_bind_const _ _ 1%nat).
      * rewrite length_seqZ. lia.
      * reflexivity.
Qed.

(** The loops visit the cells of the region. *)
Lemma visited_region (startIndex3D stopIndex3D dims : index3) :
  goodDims dims -> inGrid dims startIndex3D -> inGrid dims stopIndex3D ->
  (let '(start0, start1, start2) := startIndex3D in
   let '(stop0, stop1, stop2) := stopIndex3D in
   z ← seqZ start2 (stop2 + 1 - start2);
   y ← seqZ start1 (stop1 + 1 - start1);
   x ← seqZ start0 (stop0 + 1 - start0);
   [ThreeDimensionalMapping.threeToOneD x y z dims])
  = map (idx3 dims) (region startIndex3D stopIndex3D).
Proof.
  intros Hd Hstart Hstop.
  destruct startIndex3D as [[s0 s1] s2], stopIndex3D as [[e0 e1] e2].
  unfold region.
  assert (Hin : forall x y z,
             s0 <= x <= e0 -> s1 <= y <= e1 -> s2 <= z <= e2 ->
             inGrid dims (x, y, z)).
  { destruct dims as [[dx dy] dz]. cbn in *. lia. }
  change (map (idx3 dims)) with (fmap (M:=list) (idx3 dims)).
  rewrite fmap_bind.
  apply Forall_bind_ext, Forall_forall. intros z Hz.
  apply elem_of_seqZ in Hz.
  rewrite fmap_bind.
  apply Forall_bind_ext, Forall_forall. intros y Hy.
  apply elem_of_seqZ in Hy.
  rewrite fmap_bind.
  apply Forall_bind_ext, Forall_forall. intros x Hx.
  apply elem_of_seqZ in Hx. cbn [fmap list_fmap].
  rewrite threeToOneD_idx3; [reflexivity | exact Hd|].
  apply Hin; lia.
Qed.

(** The vector is filled from its first to its last element with the
    cells of the region. *)
Lemma cellsOfInterest_map (startIndex3D stopIndex3D dims : index3) :
  goodDims dims -> inGrid dims startIndex3D -> inGrid dims stopIndex3D ->
  (let '(start0, start1, start2) := startIndex3D in
   let '(stop0, stop1, stop2) := stopIndex3D in
   start0 <= stop0 /\ start1 <= stop1 /\ start2 <= stop2 /\
   (stop0 - start0 + 1) * (stop1 - start1 + 1) * (stop2 - start2 + 1)
     < 2 ^ 31) ->
  ReferenceLinkedCells.cellsOfInterest startIndex3D stopIndex3D dims
  = Some (map (idx3 dims) (region startIndex3D stopIndex3D)).
Proof.
  intros Hd Hstart Hstop Hle.
  pose proof (visited_region startIndex3D stopIndex3D dims Hd Hstart Hstop)
    as Hvisited.
  pose proof (length_region startIndex3D stopIndex3D) as Hlen.
  set (r := region startIndex3D stopIndex3D) in *.
  destruct startIndex3D as [[s0 s1] s2], stopIndex3D as [[e0 e1] e2].
  destruct Hle as (H0 & H1 & H2 & Hsmall).
  specialize (Hlen ltac:(lia)).
  assert (Hbounds : e0 < 2 ^ 63 /\ e1 < 2 ^ 63 /\ e2 < 2 ^ 63 /\
                    0 <= s0 /\ 0 <= s1 /\ 0 <= s2).
  { destruct dims as [[dx dy] dz]. cbn in Hd, Hstart, Hstop.
    destruct Hd as (Hx & Hy & Hz & Hprod).
    assert (4 <= dx * dy) by nia.
    assert (dx * 2 <= dx * dy) by nia.
    assert (dy * 2 <= dx * dy) by nia.
    assert (dx * dy * 2 <= dx * dy * dz) by nia.
    assert (4 * dz <= dx * dy * dz) by nia.
    lia. }
  unfold ReferenceLinkedCells.cellsOfInterest.
  rewrite (forInclusive_Some s2 e2 _
             (fun z => y ← seqZ s1 (e1 + 1 - s1);
                       x ← seqZ s0 (e0 + 1 - s0);
                       [ThreeDimensionalMapping.threeToOneD x y z dims]))
    by first [lia
             | intros z; apply forInclusive_Some; [lia|]; intros y;
               apply forInclusive_Some; [lia|]; intros x; reflexivity].
  cbn [mbind option_bind]. rewrite Hvisited.
  assert (Hnum : size_mul (size_mul (size_add (size_sub e0 s0) 1)
                                    (size_add (size_sub e1 s1) 1))
                          (size_add (size_sub e2 s2) 1)
                 = vsize r).
  { rewrite Hlen. unfold size_mul, size_add, size_sub.
    rewrite (wrap64_small (e0 - s0)), (wrap64_small (e1 - s1)),
      (wrap64_small (e2 - s2)) by lia.
    rewrite (wrap64_small (e0 - s0 + 1)), (wrap64_small (e1 - s1 + 1)),
      (wrap64_small (e2 - s2 + 1)) by lia.
    assert (0 < (e0 - s0 + 1) * (e1 - s1 + 1)) by nia.
    assert ((e0 - s0 + 1) * (e1 - s1 + 1)
            <= (e0 - s0 + 1) * (e1 - s1 + 1) * (e2 - s2 + 1)) by nia.
    rewrite (wrap64_small ((e0 - s0 + 1) * (e1 - s1 + 1))) by lia.
    apply wrap64_small. lia. }
  rewrite Hnum.
  rewrite store_fold.
  - cbn [fmap option_fmap option_map fst]. f_equal.
    rewrite drop_ge, app_nil_r
      by (unfold vsize; rewrite length_replicate, length_map; lia).
    reflexivity.
  - lia.
  - unfold vsize. rewrite length_replicate, length_map. lia.
  - unfold vsize in *. rewrite length_replicate. lia.
Qed.

(** X18: for two corners inside the cell block, the first not after
    the second in any dimension, and fewer than [2^31] cells between
    them, [getRegionIterator] fills the vector [cellsOfInterest] from
    its first to its last element, never writing past it: the vector
    holds the 1D index of every cell between the two corners, each
    once, and nothing else. *)
Theorem cellsOfInterest_region (start0 start1 start2 stop0 stop1 stop2 : Z)
    (dims : index3) :
  goodDims dims ->
  inGrid dims (start0, start1, start2) ->
  inGrid dims (stop0, stop1, stop2) ->
  start0 <= stop0 -> start1 <= stop1 -> start2 <= stop2 ->
  (stop0 - start0 + 1) * (stop1 - start1 + 1) * (stop2 - start2 + 1)
    < 2 ^ 31 ->
  exists cells,
    ReferenceLinkedCells.cellsOfInterest
      (start0, start1, start2) (stop0, stop1, stop2) dims = Some cells /\
    vsize cells
    = (stop0 - start0 + 1) * (stop1 - start1 + 1) * (stop2 - start2 + 1) /\
    NoDup cells /\
    forall c, c ∈ cells <->
      exists x y z,
        start0 <= x <= stop0 /\ start1 <= y <= stop1 /\
        start2 <= z <= stop2 /\ c = idx3 dims (x, y, z).
Proof.
  intros Hd Hstart Hstop H0 H1 H2 Hsmall.
  pose proof (fun p => elem_of_region (start0, start1, start2)
                         (stop0, stop1, stop2) p) as Hregion.
  exists (map (idx3 dims) (region (start0, start1, start2)
                                  (stop0, stop1, stop2))).
  split; [|split; [|split]].
  - apply cellsOfInterest_map; [exact Hd | exact Hstart | exact Hstop|].
    repeat split; assumption.
  - unfold vsize. rewrite length_map.
    apply (length_region (start0, start1, start2) (stop0, stop1, stop2)).
    repeat split; assumption.
  - apply NoDup_fmap_2_strong; [|apply NoDup_region].
    assert (Hin : forall p, p ∈ region (start0, start1, start2)
                                       (stop0, stop1, stop2) ->
                            inGrid dims p).
    { intros [[x y] z] Hp. apply Hregion in Hp.
      destruct dims as [[dx dy] dz]. cbn in *. lia. }
    intros p q Hp Hq Heq.
    apply (idx3_inj dims p q Hd); [apply Hin; exact Hp | apply Hin; exact Hq|].
    exact Heq.
  - intros c. rewrite list_elem_of_fmap. split.
    + intros ([[x y] z] & -> & Hp). apply Hregion in Hp.
      exists x, y, z. repeat split; lia.
    + intros (x & y & z & Hx & Hy & Hz & ->). exists (x, y, z).
      split; [reflexivity|]. apply Hregion. lia.
Qed.

Lemma cellsOfInterest_region_witness :
  exists cells,
    ReferenceLinkedCells.cellsOfInterest (1, 0, 2) (2, 1, 2) (4, 3, 5)
      = Some cells /\
    vsize cells = (2 - 1 + 1) * (1 - 0 + 1) * (2 - 2 + 1) /\
    NoDup cells /\
    forall c, c ∈ cells <->
      exists x y z,
        1 <= x <= 2 /\ 0 <= y <= 1 /\ 2 <= z <= 2 /\
        c = idx3 (4, 3, 5) (x, y, z).
Proof.
  apply (cellsOfInterest_region 1 0 2 2 1 2 (4, 3, 5)); cbn; lia.
Defined.

(** The cells of the witness; a second corner one cell before the
    first in a dimension gives no cell. *)
Example cellsOfInterest_edges :
  ReferenceLinkedCells.cellsOfInterest (1, 0, 2) (2, 1, 2) (4, 3, 5)
    = Some [25; 26; 29; 30] /\
  ReferenceLinkedCells.cellsOfInterest (2, 0, 2) (1, 1, 2) (4, 3, 5)
    = Some [].
Proof. vm_compute. split; reflexivity. Qed.

(** ** ParticleClassLibrary: the mixing rules are symmetric *)

(** The sum of two [double]s does not depend on their order. *)
Lemma double_add_comm (x y : double) : PrimFloat.add x y = PrimFloat.add y x.
Proof.
  apply Prim2SF_inj. rewrite !FloatAxioms.add_spec.
  unfold SF64add, SFadd.
  destruct (Prim2SF x) as [sx|sx| |sx mx ex], (Prim2SF y) as [sy|sy| |sy my ey];
    try reflexivity; try (destruct sx, sy; reflexivity).
  cbv zeta. rewrite (Z.min_comm ey ex). f_equal. apply Z.add_comm.
Qed.

(** X19: the four mixing rules do not depend on the order of their two
    arguments: [mixingE], [mixing24E], [mixingSS] and [mixingS] return
    the same [double], or throw both, when the arguments are swapped. *)
Theorem mixing_rules_symmetric (lib : ParticleClassLibrary.t) (i j : Z)
    (p q : Particle) :
  ParticleClassLibrary.mixingE lib i j = ParticleClassLibrary.mixingE lib j i /\
  ParticleClassLibrary.mixing24E lib i j
    = ParticleClassLibrary.mixing24E lib j i /\
  ParticleClassLibrary.mixingSS lib i j
    = ParticleClassLibrary.mixingSS lib j i /\
  ParticleClassLibrary.mixingS lib p q = ParticleClassLibrary.mixingS lib q p.
Proof.
  unfold ParticleClassLibrary.mixingE, ParticleClassLibrary.mixing24E,
    ParticleClassLibrary.mixingSS, ParticleClassLibrary.mixingS,
    ParticleClassLibrary.at_.
  repeat split.
  - destruct (ParticleClassLibrary.Epsilon lib !! i) as [ei|],
      (ParticleClassLibrary.Epsilon lib !! j) as [ej|]; cbn;
      try reflexivity.
    rewrite (double_add_comm ei ej). reflexivity.
  - destruct (ParticleClassLibrary.Epsilon lib !! i) as [ei|],
      (ParticleClassLibrary.Epsilon lib !! j) as [ej|]; cbn;
      try reflexivity.
    rewrite (double_add_comm ei ej). reflexivity.
  - destruct (ParticleClassLibrary.Sigma lib !! i) as [si|],
      (ParticleClassLibrary.Sigma lib !! j) as [sj|]; cbn;
      try reflexivity.
    rewrite (double_add_comm si sj). reflexivity.
  - destruct (ParticleClassLibrary.Sigma lib !! getID p) as [si|],
      (ParticleClassLibrary.Sigma lib !! getID q) as [sj|]; cbn;
      try reflexivity.
    rewrite (double_add_comm si sj). reflexivity.
Qed.

(** ** VerletClusterLists: when the partition leaves its vector *)

Lemma sumZ_Permutation (l k : list Z) : l ≡ₚ k -> sumZ l = sumZ k.
Proof.
  unfold sumZ. induction 1; cbn [fold_right]; lia.
Qed.

Lemma fold_None {A B : Type} (f : option B -> A -> option B) (l : list A) :
  (forall a, f None a = None) -> fold_left f l None = None.
Proof.
  intros Hf. induction l as [|a l IH]; [reflexivity|].
  cbn [fold_left]. rewrite Hf. exact IH.
Qed.

Section partition_bounds.

Import VerletClusterLists.

Variable P numThreads : Z.
Variable cs : list (Z * Z * Z).

Hypothesis HnumThreads : 1 <= numThreads < 2 ^ 31.
Hypothesis HP : 1 <= P.
Hypothesis Hmul : P * numThreads < 2 ^ 64.
Hypothesis Hneighbors : Forall (fun c => 0 <= snd c <= P) cs.
Hypothesis Htotal : pairsOf cs < 2 ^ 64.
Hypothesis Hsize : vsize cs < 2 ^ 64.

(** What holds of the local variables after the first [k] clusters:
    the threads move on with the running number of neighbour pairs. *)
Record control (k : nat) (st : fillState) : Prop := mkControl {
  control_length : Z.of_nat (length (partition st)) = numThreads;
  control_total : numClusterPairsTotal st = pairsOf (take k cs);
  control_thread : currentThread st = pairsOf (take k cs) / P;
  control_le : currentThread st <= numThreads;
  control_count : 0 <= numClustersThisThread st <= Z.of_nat k;
  control_open : numClustersThisThread st <> 0 -> currentThread st < numThreads
}.

Lemma pairsOf_prefix (k : nat) (c : Z * Z * Z) :
  cs !! k = Some c ->
  pairsOf (take (S k) cs) = pairsOf (take k cs) + snd c /\
  0 <= pairsOf (take k cs) /\ pairsOf (take (S k) cs) <= pairsOf cs.
Proof.
  intros Hc.
  assert (Hnn : forall l : list (Z * Z * Z),
             Forall (fun c => 0 <= snd c <= P) l -> 0 <= pairsOf l).
  { intros l Hl. unfold pairsOf. apply sumZ_nonneg, Forall_fmap.
    eapply Forall_impl; [exact Hl|]. cbn. intros x Hx. lia. }
  split; [|split].
  - erewrite take_S_r by exact Hc. unfold pairsOf.
    rewrite map_app, sumZ_app. cbn. lia.
  - apply Hnn, Forall_take, Hneighbors.
  - rewrite <- (take_drop (S k) cs) at 2. unfold pairsOf.
    rewrite map_app, sumZ_app.
    pose proof (Hnn (drop (S k) cs) ltac:(apply Forall_drop, Hneighbors)) as H.
    unfold pairsOf in H. lia.
Qed.

Lemma fillStep_control (k : nat) (st : fillState) (tower cluster nb : Z) :
  cs !! k = Some (tower, cluster, nb) -> control k st ->
  (currentThread st = numThreads ->
   fillStep P st tower cluster nb = None) /\
  (currentThread st < numThreads ->
   exists st', fillStep P st tower cluster nb = Some st' /\
               control (S k) st').
Proof.
  intros Hc [Hlen Htot Hth Hle Hcnt Hopen].
  assert (Hk : (k < length cs)%nat) by (eapply lookup_lt_Some; exact Hc).
  destruct (pairsOf_prefix k _ Hc) as (HS & HS0 & HSle). cbn [snd] in HS.
  assert (Hnb : 0 <= nb <= P).
  { eapply Forall_lookup_1 in Hneighbors; [|exact Hc]. exact Hneighbors. }
  destruct st as [p ct m T].
  cbn [partition currentThread numClustersThisThread numClusterPairsTotal] in *.
  assert (Hdiv : P * ct <= pairsOf (take k cs) < P * (ct + 1)).
  { rewrite Hth.
    pose proof (Z.mul_div_le (pairsOf (take k cs)) P ltac:(lia)).
    pose proof (Z.mul_succ_div_gt (pairsOf (take k cs)) P ltac:(lia)).
    lia. }
  unfold fillStep.
  cbn [partition currentThread numClustersThisThread numClusterPairsTotal].
  split.
  - intros Hfull.
    assert (Hm : m = 0).
    { destruct (Z.eq_dec m 0) as [|Hne]; [assumption|].
      specialize (Hopen Hne). lia. }
    subst m. cbn [Z.eqb]. unfold assign.
    rewrite (proj2 (lookup_ge_None p (Z.to_nat ct))) by lia. reflexivity.
  - intros Hlt.
    assert (Hct : (Z.to_nat ct < length p)%nat) by nia.
    assert (Hct0 : 0 <= ct).
    { rewrite Hth. apply Z.div_pos; lia. }
    assert (Hstart : exists started,
               (if m =? 0 then
                  assign p ct (fun _ => mkClusterRange tower cluster 0)
                else Some p) = Some started /\
               length started = length p).
    { destruct (m =? 0).
      - destruct (lookup_lt_is_Some_2 p _ Hct) as [r Hr]. unfold assign.
        rewrite Hr. cbn. eexists. split; [reflexivity|].
        apply length_insert.
      - exists p. split; reflexivity. }
    destruct Hstart as (started & -> & Hslen). cbn [mbind option_bind].
    assert (HT : size_add T nb = pairsOf (take (S k) cs)).
    { unfold size_add. rewrite wrap64_small; lia. }
    assert (Hc1 : size_add ct 1 = ct + 1).
    { unfold size_add. rewrite wrap64_small; lia. }
    assert (Hmu : size_mul P (ct + 1) = P * (ct + 1)).
    { unfold size_mul. rewrite wrap64_small; nia. }
    assert (Hm1 : size_add m 1 = m + 1).
    { unfold size_add, vsize in *. rewrite wrap64_small; lia. }
    rewrite HT, Hc1, Hmu, Hm1.
    destruct (P * (ct + 1) <=? pairsOf (take (S k) cs)) eqn:E.
    + apply Z.leb_le in E.
      destruct (lookup_lt_is_Some_2 started (Z.to_nat ct) ltac:(lia))
        as [r Hr].
      unfold assign. rewrite Hr. cbn [mbind option_bind].
      eexists. split; [reflexivity|].
      split; cbn [partition currentThread numClustersThisThread
                  numClusterPairsTotal].
      * rewrite length_insert. lia.
      * reflexivity.
      * apply (Z.div_unique _ P (ct + 1)
                 (pairsOf (take (S k) cs) - P * (ct + 1))); lia.
      * lia.
      * lia.
      * intros Hne. contradiction.
    + apply Z.leb_gt in E.
      eexists. split; [reflexivity|].
      split; cbn [partition currentThread numClustersThisThread
                  numClusterPairsTotal].
      * lia.
      * reflexivity.
      * apply (Z.div_unique _ P ct
                 (pairsOf (take (S k) cs) - P * ct)); lia.
      * lia.
      * lia.
      * intros _. exact Hlt.
Qed.

Lemma fill_loop_inside (rest done : list (Z * Z * Z)) (st : fillState) :
  cs = done ++ rest -> control (length done) st ->
  (forall j : nat, (length done <= j < length cs)%nat ->
     pairsOf (take j cs) < P * numThreads) ->
  exists st',
    fold_left
      (fun acc '(currentTowerIndex, currentClusterInTower, neighbors) =>
         st ← acc;
         fillStep P st currentTowerIndex currentClusterInTower neighbors)
      rest (Some st) = Some st' /\
    control (length cs) st'.
Proof.
  revert done st. induction rest as [|[[tower cluster] nb] rest IH];
    intros done st Hcs Hctl Hroom.
  - rewrite app_nil_r in Hcs. subst done. exists st. split; [reflexivity|].
    exact Hctl.
  - cbn [fold_left mbind option_bind].
    assert (Hc : cs !! length done = Some (tower, cluster, nb)).
    { rewrite Hcs. rewrite lookup_app_r by lia.
      replace (length done - length done)%nat with 0%nat by lia. reflexivity. }
    assert (Hlt : currentThread st < numThreads).
    { rewrite (control_thread _ _ Hctl).
      apply Z.div_lt_upper_bound; [lia|].
      apply Hroom. split; [lia|]. eapply lookup_lt_Some. exact Hc. }
    destruct (proj2 (fillStep_control _ st tower cluster nb Hc Hctl) Hlt)
      as (st1 & H1 & Hctl1).
    rewrite H1.
    apply (IH (done ++ [(tower, cluster, nb)])).
    + rewrite <- app_assoc. exact Hcs.
    + rewrite length_app. cbn [length].
      replace (length done + 1)%nat with (S (length done)) by lia. exact Hctl1.
    + intros j Hj. apply Hroom. rewrite length_app in Hj. cbn [length] in Hj.
      lia.
Qed.

Lemma fill_loop_outside (rest done : list (Z * Z * Z)) (st : fillState) :
  cs = done ++ rest -> control (length done) st ->
  (exists j : nat, (length done <= j < length cs)%nat /\
     P * numThreads <= pairsOf (take j cs)) ->
  fold_left
    (fun acc '(currentTowerIndex, currentClusterInTower, neighbors) =>
       st ← acc;
       fillStep P st currentTowerIndex currentClusterInTower neighbors)
    rest (Some st) = None.
Proof.
  revert done st. induction rest as [|[[tower cluster] nb] rest IH];
    intros done st Hcs Hctl (j & Hj & Hfull).
  - rewrite app_nil_r in Hcs. subst done. lia.
  - cbn [fold_left mbind option_bind].
    assert (Hc : cs !! length done = Some (tower, cluster, nb)).
    { rewrite Hcs. rewrite lookup_app_r by lia.
      replace (length done - length done)%nat with 0%nat by lia. reflexivity. }
    destruct (fillStep_control _ st tower cluster nb Hc Hctl)
      as [Hstop Hgo].
    pose proof (control_le _ _ Hctl) as Hle.
    destruct (Z.eq_dec (currentThread st) numThreads) as [Heq|Hne].
    + rewrite (Hstop Heq). apply fold_None. intros [[a b] c]. reflexivity.
    + destruct (Hgo ltac:(lia)) as (st1 & H1 & Hctl1). rewrite H1.
      apply (IH (done ++ [(tower, cluster, nb)])).
      * rewrite <- app_assoc. exact Hcs.
      * rewrite length_app. cbn [length].
        replace (length done + 1)%nat with (S (length done)) by lia.
        exact Hctl1.
      * exists j. split; [|exact Hfull].
        rewrite length_app. cbn [length].
        destruct (decide (j = length done)) as [->|Hjne]; [|lia].
        exfalso.
        pose proof (control_thread _ _ Hctl) as Hth.
        assert (numThreads <= pairsOf (take (length done) cs) / P)
          by (apply Z.div_le_lower_bound; lia).
        lia.
Qed.

(** The writes after the loops stay in the vector. *)
Lemma zero_loop_inside (n : nat) :
  forall (p : list ClusterRange) (a : Z),
    0 <= a -> a + Z.of_nat n <= Z.of_nat (length p) ->
    is_Some
      (fold_left
         (fun acc thread =>
            partition ← acc;
            assign partition thread (fun r => setNumClusters r 0))
         (seqZ a (Z.of_nat n)) (Some p)).
Proof.
  induction n as [|n IH]; intros p a Ha Hlen; [eexists; reflexivity|].
  rewrite seqZ_cons by lia. cbn [fold_left mbind option_bind].
  destruct (lookup_lt_is_Some_2 p (Z.to_nat a) ltac:(lia)) as [r Hr].
  unfold assign at 2. rewrite Hr. cbn [mbind option_bind].
  replace (Z.pred (Z.of_nat (S n))) with (Z.of_nat n) by lia.
  apply IH; [lia|]. rewrite length_insert. lia.
Qed.

Lemma fill_finish_inside (st : fillState) :
  control (length cs) st ->
  is_Some
    (rest ←
       (if negb (numClustersThisThread st =? 0) then
          assign (partition st) (currentThread st)
                 (fun r => setNumClusters r (numClustersThisThread st))
        else Some (partition st));
     fold_left
       (fun acc thread =>
          partition ← acc;
          assign partition thread (fun r => setNumClusters r 0))
       (seqZ (size_add (currentThread st) 1)
             (wrap64 numThreads - size_add (currentThread st) 1))
       (Some rest)).
Proof.
  intros [Hlen Htot Hth Hle Hcnt Hopen].
  destruct st as [p ct m T].
  cbn [partition currentThread numClustersThisThread numClusterPairsTotal] in *.
  assert (Hct0 : 0 <= ct).
  { rewrite Hth. apply Z.div_pos; [|lia].
    unfold pairsOf. apply sumZ_nonneg, Forall_fmap, Forall_take.
    eapply Forall_impl; [exact Hneighbors|]. cbn. intros x Hx. lia. }
  assert (Hw : wrap64 numThreads = numThreads) by (apply wrap64_small; lia).
  assert (Hc1 : size_add ct 1 = ct + 1).
  { unfold size_add. apply wrap64_small. lia. }
  rewrite Hw, Hc1.
  assert (Hrest : exists rest,
             (if negb (m =? 0) then
                assign p ct (fun r => setNumClusters r m)
              else Some p) = Some rest /\ length rest = length p).
  { destruct (m =? 0) eqn:Em; cbn [negb].
    - exists p. split; reflexivity.
    - apply Z.eqb_neq in Em. specialize (Hopen Em).
      destruct (lookup_lt_is_Some_2 p (Z.to_nat ct) ltac:(lia)) as [r Hr].
      unfold assign. rewrite Hr. cbn. eexists. split; [reflexivity|].
      apply length_insert. }
  destruct Hrest as (rest & -> & Hrlen). cbn [mbind option_bind].
  destruct (Z.eq_dec ct numThreads) as [->|Hne].
  - rewrite seqZ_nil by lia. eexists. reflexivity.
  - replace (numThreads - (ct + 1))
      with (Z.of_nat (Z.to_nat (numThreads - (ct + 1)))) by lia.
    apply zero_loop_inside; lia.
Qed.

End partition_bounds.

Lemma pairsOf_nonneg (P : Z) (l : list (Z * Z * Z)) :
  Forall (fun c => 0 <= snd c <= P) l -> 0 <= pairsOf l.
Proof.
  intros Hl. unfold pairsOf. apply sumZ_nonneg, Forall_fmap.
  eapply Forall_impl; [exact Hl|]. cbn. intros x Hx. lia.
Qed.

Lemma pairsOf_app (l k : list (Z * Z * Z)) :
  pairsOf (l ++ k) = pairsOf l + pairsOf k.
Proof. unfold pairsOf. rewrite map_app. apply sumZ_app. Qed.

(** [fillClusterRanges] stays in the partition vector exactly when the
    clusters before the last one do not reach the threshold of the last
    thread. *)
Lemma fillClusterRanges_inside (P numThreads : Z)
    (old : list VerletClusterLists.ClusterRange) (towers : list (list Z))
    (front : list (Z * Z * Z)) (c : Z * Z * Z) :
  1 <= numThreads < 2 ^ 31 -> 1 <= P -> P * numThreads < 2 ^ 64 ->
  VerletClusterLists.clustersInOrder towers = front ++ [c] ->
  Forall (fun c => 0 <= snd c <= P) (front ++ [c]) ->
  pairsOf (front ++ [c]) < 2 ^ 64 -> vsize (front ++ [c]) < 2 ^ 64 ->
  is_Some (VerletClusterLists.fillClusterRanges P numThreads old towers)
  <-> pairsOf front < P * numThreads.
Proof.
  intros Hn HP Hmul Hcs Hnb Htotal Hsize.
  unfold VerletClusterLists.fillClusterRanges. rewrite Hcs.
  assert (Hw : wrap64 numThreads = numThreads) by (apply wrap64_small; lia).
  set (start := VerletClusterLists.mkFillState
                  (VerletClusterLists.resize (wrap64 numThreads) old) 0 0 0).
  assert (Hstart : control P numThreads (front ++ [c]) 0 start).
  { split; cbn.
    - rewrite Hw. apply resize_length. lia.
    - reflexivity.
    - reflexivity.
    - lia.
    - lia.
    - intros H. contradiction. }
  assert (Hlen : length (front ++ [c]) = S (length front))
    by (rewrite length_app; cbn; lia).
  assert (Hfront : take (length front) (front ++ [c]) = front)
    by (rewrite take_app_le, take_ge by lia; reflexivity).
  split.
  - intros Hsome.
    destruct (Z_lt_ge_dec (pairsOf front) (P * numThreads)) as [Hlt|Hge];
      [exact Hlt|].
    exfalso.
    rewrite (fill_loop_outside P numThreads (front ++ [c]) Hn HP Hmul Hnb
               Htotal Hsize (front ++ [c]) [] start eq_refl Hstart) in Hsome.
    + destruct Hsome as [x Hx]. discriminate.
    + exists (length front). split; [cbn; lia|]. rewrite Hfront. lia.
  - intros Hlt.
    destruct (fill_loop_inside P numThreads (front ++ [c]) Hn HP Hmul Hnb
                Htotal Hsize (front ++ [c]) [] start eq_refl Hstart)
      as (st & Hloop & Hctl).
    + intros j Hj.
      assert (Hle : pairsOf (take j (front ++ [c])) <= pairsOf front);
        [|lia].
      rewrite take_app_le by lia.
      rewrite <- (take_drop j front) at 2. rewrite pairsOf_app.
      apply Forall_app in Hnb. destruct Hnb as [Hnbf _].
      pose proof (pairsOf_nonneg P (drop j front)
                    ltac:(apply Forall_drop; exact Hnbf)).
      lia.
    + rewrite Hloop. cbn [mbind option_bind].
      apply (fill_finish_inside P numThreads (front ++ [c]) Hn HP Hnb st Hctl).
Qed.

(** The sum the lambda of [calculateClusterThreadPartition] builds. *)
Lemma sum_neighbors (called : list (Z * Z)) :
  forall a : Z,
    fold_left (fun sum '(_, neighbors) => size_add sum neighbors) called
              (wrap64 a)
    = wrap64 (a + sumZ (map snd called)).
Proof.
  induction called as [|[index nb] called IH]; intros a.
  - cbn. f_equal. lia.
  - cbn [fold_left map snd]. unfold size_add at 2.
    rewrite wrap64_add_l, IH. f_equal.
    unfold sumZ. cbn [fold_right]. lia.
Qed.

Lemma sumZ_called (l : list (Z * list Z)) :
  sumZ (map snd ('(index, tower) ← l; map (pair index) tower))
  = sumZ (map (fun it => sumZ (snd it)) l).
Proof.
  induction l as [|[index tower] l IH]; [reflexivity|].
  rewrite bind_cons, map_app, sumZ_app, IH. cbn [map snd].
  rewrite map_map. cbn [snd]. rewrite map_id.
  unfold sumZ at 3. cbn [fold_right]. reflexivity.
Qed.

Lemma pairsOf_clustersInOrder (l : list (Z * list Z)) :
  pairsOf ('(currentTowerIndex, currentTower) ← l;
           '(currentClusterInTower, neighbors) ←
             zip (seqZ 0 (vsize currentTower)) currentTower;
           [(currentTowerIndex, currentClusterInTower, neighbors)])
  = sumZ (map (fun it => sumZ (snd it)) l).
Proof.
  induction l as [|[index tower] l IH]; [reflexivity|].
  rewrite bind_cons, pairsOf_app, IH. cbn [map snd].
  unfold sumZ at 3. cbn [fold_right]. f_equal.
  unfold pairsOf. f_equal.
  assert (Hlen : length (seqZ 0 (vsize tower)) = length tower)
    by (rewrite length_seqZ; unfold vsize; lia).
  revert Hlen. generalize (seqZ 0 (vsize tower)) as indices.
  induction tower as [|nb tower IHt]; intros [|i indices] Hlen;
    try discriminate; [reflexivity|].
  cbn [zip zip_with]. rewrite bind_cons. cbn [app map snd].
  f_equal. apply IHt. cbn in Hlen. lia.
Qed.

Lemma total_along_traversal (towers : list (list Z)) (dimX dimY : Z) :
  0 <= dimX -> 0 <= dimY -> vsize towers = dimX * dimY ->
  dimX * dimY < 2 ^ 64 ->
  0 <= pairsOf (VerletClusterLists.clustersInOrder towers) < 2 ^ 64 ->
  exists called,
    VerletClusterLists.traverseClustersSequential (fun tower => tower)
      (dimX, dimY) towers = Some called /\
    fold_left (fun sum '(_, neighbors) => size_add sum neighbors) called 0
    = pairsOf (VerletClusterLists.clustersInOrder towers).
Proof.
  intros HX HY Hgrid Hsmall Htotal.
  unfold VerletClusterLists.traverseClustersSequential. cbn [fst snd].
  pose proof (traverse_outer (fun tower : list Z => tower) towers dimX dimY)
    as Houter.
  repeat (lapply Houter; [clear Houter; intros Houter | assumption]).
  rewrite Houter
    by (apply Forall_forall; intros x Hx; apply elem_of_seqZ in Hx; lia).
  eexists. split; [reflexivity|]. rewrite app_nil_l.
  rewrite (sum_neighbors _ 0 : fold_left _ _ 0 = _), Z.add_0_l.
  assert (Hperm :
    (x ← seqZ 0 dimX; y ← seqZ 0 dimY;
     clustersAt (fun tower : list Z => tower) towers (x + y * dimX))
    ≡ₚ ('(index, tower) ← zip (seqZ 0 (vsize towers)) towers;
        map (pair index) tower)).
  { rewrite (indexed_bind (fun tower : list Z => tower) towers).
    rewrite (bind_bind_singleton (seqZ 0 dimX) (seqZ 0 dimY)
               (fun x y => x + y * dimX)).
    pose proof (grid_indices_Permutation dimX dimY) as Hp.
    repeat (lapply Hp; [clear Hp; intros Hp | assumption]).
    rewrite Hp, Hgrid. reflexivity. }
  rewrite (sumZ_Permutation _ _ (Permutation_map snd Hperm)).
  rewrite sumZ_called.
  unfold VerletClusterLists.clustersInOrder in *.
  rewrite pairsOf_clustersInOrder in *.
  apply wrap64_small. exact Htotal.
Qed.

Lemma neighbors_le_pairsOf (l : list (Z * Z * Z)) (c : Z * Z * Z) :
  Forall (fun c => 0 <= snd c) l -> c ∈ l -> snd c <= pairsOf l.
Proof.
  intros Hl Hc. apply list_elem_of_split in Hc.
  destruct Hc as (l1 & l2 & ->).
  apply Forall_app in Hl. destruct Hl as [H1 H2].
  apply Forall_cons in H2. destruct H2 as [Hc H2].
  rewrite pairsOf_app. change (c :: l2) with ([c] ++ l2).
  rewrite pairsOf_app.
  assert (pairsOf [c] = snd c) by (unfold pairsOf, sumZ; cbn; lia).
  assert (0 <= pairsOf l1) by (apply sumZ_nonneg, Forall_fmap; exact H1).
  assert (0 <= pairsOf l2) by (apply sumZ_nonneg, Forall_fmap; exact H2).
  lia.
Qed.

(** X20: on a tower grid whose clusters have at most 1000 neighbours
    each, and between 1 and [1000 * 2^31] together,
    [calculateClusterThreadPartition] writes only inside the vector
    [_clusterThreadPartition] exactly when the last cluster has more
    neighbours than the total leaves when it is divided by the number
    of threads, [std::clamp(total / 1000, 1, maxThreads)]; in the other
    case it writes past the end of the vector. *)
Theorem calculateClusterThreadPartition_inside (maxThreads dimX dimY : Z)
    (old : list VerletClusterLists.ClusterRange) (towers : list (list Z))
    (front : list (Z * Z * Z)) (lastTower lastCluster lastNeighbors : Z) :
  let clusters := VerletClusterLists.clustersInOrder towers in
  let total := pairsOf clusters in
  let numThreads := VerletClusterLists.clamp (total / 1000) 1 maxThreads in
  1 <= maxThreads < 2 ^ 31 ->
  0 <= dimX -> 0 <= dimY -> vsize towers = dimX * dimY ->
  dimX * dimY < 2 ^ 64 ->
  clusters = front ++ [(lastTower, lastCluster, lastNeighbors)] ->
  Forall (fun c => 0 <= snd c <= 1000) clusters ->
  vsize clusters < 2 ^ 64 ->
  1 <= total < 1000 * 2 ^ 31 ->
  is_Some (VerletClusterLists.calculateClusterThreadPartition
             maxThreads (dimX, dimY) old towers)
  <-> total mod numThreads < lastNeighbors.
Proof.
  intros clusters total numThreads Hmax HX HY Hgrid Hsmall Hlast Hnb Hsize
    Htotal.
  unfold VerletClusterLists.calculateClusterThreadPartition.
  destruct (total_along_traversal towers dimX dimY HX HY Hgrid Hsmall
              ltac:(fold clusters; fold total; lia))
    as (called & -> & Hsum).
  cbn [mbind option_bind]. rewrite Hsum. fold clusters. fold total.
  assert (Hq : 0 <= total / 1000 < 2 ^ 31).
  { split; [apply Z.div_pos; lia|].
    apply Z.div_lt_upper_bound; lia. }
  assert (Hcast : VerletClusterLists.static_cast_int (total / 1000)
                  = total / 1000).
  { unfold VerletClusterLists.static_cast_int.
    rewrite Z.mod_small; lia. }
  rewrite Hcast. fold numThreads.
  assert (Hthreads : 1 <= numThreads <= maxThreads /\
                     (numThreads = 1 \/ numThreads <= total / 1000)).
  { unfold numThreads, VerletClusterLists.clamp.
    destruct (total / 1000 <? 1) eqn:E1; [lia|].
    apply Z.ltb_ge in E1.
    destruct (maxThreads <? total / 1000) eqn:E2.
    - apply Z.ltb_lt in E2. lia.
    - apply Z.ltb_ge in E2. lia. }
  destruct Hthreads as (Hth & Hcase).
  assert (Hw : wrap64 numThreads = numThreads) by (apply wrap64_small; lia).
  rewrite Hw.
  destruct (numThreads =? 0) eqn:E0; [apply Z.eqb_eq in E0; lia|].
  pose proof (Z.div_mod total numThreads ltac:(lia)) as Hdm.
  pose proof (Z.mod_pos_bound total numThreads ltac:(lia)) as Hmod.
  assert (Hle1000 : 1000 * (total / 1000) <= total)
    by (apply Z.mul_div_le; lia).
  assert (HP : 1 <= total / numThreads).
  { apply Z.div_le_lower_bound; lia. }
  assert (Hbound : Forall (fun c => 0 <= snd c <= total / numThreads)
                          clusters).
  { apply Forall_forall. intros c Hc.
    pose proof (proj1 (Forall_forall _ _) Hnb c Hc) as Hc1000. cbn in Hc1000.
    split; [lia|].
    destruct Hcase as [H1|Hmany].
    - rewrite H1, Z.div_1_r.
      apply neighbors_le_pairsOf; [|exact Hc].
      eapply Forall_impl; [exact Hnb|]. cbn. intros x Hx. lia.
    - assert (1000 <= total / numThreads); [|lia].
      apply Z.div_le_lower_bound; [lia|]. nia. }
  assert (Hsplit : total = pairsOf front + lastNeighbors).
  { unfold total. rewrite Hlast, pairsOf_app.
    unfold pairsOf at 2, sumZ. cbn. lia. }
  rewrite (fillClusterRanges_inside (total / numThreads) numThreads old towers
             front (lastTower, lastCluster, lastNeighbors)).
  - nia.
  - lia.
  - exact HP.
  - nia.
  - exact Hlast.
  - rewrite <- Hlast. exact Hbound.
  - rewrite <- Hlast. fold total. lia.
  - rewrite <- Hlast. exact Hsize.
Qed.

Lemma calculateClusterThreadPartition_inside_witness :
  is_Some (VerletClusterLists.calculateClusterThreadPartition
             4 (2, 1) [] [[5; 2]; [3]])
  <-> pairsOf (VerletClusterLists.clustersInOrder [[5; 2]; [3]])
        mod VerletClusterLists.clamp
              (pairsOf (VerletClusterLists.clustersInOrder [[5; 2]; [3]])
               / 1000) 1 4
      < 3.
Proof.
  apply (calculateClusterThreadPartition_inside 4 2 1 [] [[5; 2]; [3]]
           [(0, 0, 5); (0, 1, 2)] 1 0 3).
  - lia.
  - lia.
  - lia.
  - reflexivity.
  - lia.
  - reflexivity.
  - repeat constructor; cbn; lia.
  - vm_compute. reflexivity.
  - vm_compute. split; [discriminate | reflexivity].
Defined.

(** Seven neighbour pairs on one thread: with the pairs of the last
    cluster the partition is written, with a last cluster without
    neighbours the second write goes past the vector. *)
Example calculateClusterThreadPartition_last_cluster :
  VerletClusterLists.calculateClusterThreadPartition 4 (2, 1) [] [[5; 2]; [3]]
    = Some [VerletClusterLists.mkClusterRange 0 0 3] /\
  VerletClusterLists.calculateClusterThreadPartition 4 (2, 1) [] [[5; 2]; [0]]
    = None.
Proof. vm_compute. split; reflexivity. Qed.

(** ** PredictiveTuning: the evidence of a configuration *)

(** [addEvidence] called for a list of samples [(iteration, time)], one
    after the other. *)
Definition addEvidences {Configuration : Type} `{Countable Configuration}
    (st : PredictiveTuning.t) (samples : list (Z * Z))
    : outcome (@PredictiveTuning.t Configuration _ _) :=
  fold_left
    (fun acc sample =>
       bind_outcome acc (fun st =>
         PredictiveTuning.addEvidence st (snd sample) (fst sample)))
    samples (Done st).

Section evidence_facts.

Context {Configuration : Type} `{Countable Configuration}.

Lemma to_long_small (z : Z) :
  - 2 ^ 63 <= z < 2 ^ 63 -> PredictiveTuning.to_long z = z.
Proof. intros Hz. unfold PredictiveTuning.to_long. rewrite Z.mod_small; lia. Qed.

Lemma sum_times (times : list (Z * Z)) :
  Forall (fun s => 0 <= snd s) times ->
  forall a : Z,
    0 <= a -> a + sumZ (map snd times) < 2 ^ 63 ->
    fold_left (fun result time => PredictiveTuning.to_long (result + snd time))
              times a
    = a + sumZ (map snd times).
Proof.
  induction 1 as [|[iteration time] times Ht Htimes IH]; intros a Ha Hsum.
  - cbn. lia.
  - cbn [fold_left map snd] in *. unfold sumZ in Hsum. cbn [fold_right] in Hsum.
    fold (sumZ (map snd times)) in Hsum.
    assert (0 <= sumZ (map snd times)).
    { apply sumZ_nonneg, Forall_fmap. assumption. }
    rewrite to_long_small by lia.
    rewrite IH by lia.
    unfold sumZ at 2. cbn [fold_right]. fold (sumZ (map snd times)). lia.
Qed.

Lemma addEvidences_storage (samples : list (Z * Z)) :
  forall (st : PredictiveTuning.t) (c : Configuration),
    PredictiveTuning.getCurrentConfiguration st = Done c ->
    exists st',
      addEvidences st samples = Done st' /\
      PredictiveTuning.getCurrentConfiguration st' = Done c /\
      PredictiveTuning._tuningIterationsCounter st'
      = PredictiveTuning._tuningIterationsCounter st /\
      default [] (PredictiveTuning._traversalTimesStorage st' !! c)
      = default [] (PredictiveTuning._traversalTimesStorage st !! c) ++ samples /\
      (samples <> [] ->
       is_Some (PredictiveTuning._traversalTimesStorage st' !! c) /\
       PredictiveTuning._lastTest st' !! c
       = Some (PredictiveTuning._tuningIterationsCounter st)) /\
      forall c', c' <> c ->
        PredictiveTuning._traversalTimesStorage st' !! c'
        = PredictiveTuning._traversalTimesStorage st !! c'.
Proof.
  unfold addEvidences.
  induction samples as [|[iteration time] samples IH] using rev_ind;
    intros st c Hc.
  - exists st. cbn. rewrite app_nil_r.
    repeat split; try reflexivity; try assumption; try congruence.
  - destruct (IH st c Hc) as (st1 & Hadd & Hc1 & Hcnt & Hsto & _ & Hother).
    rewrite fold_left_app, Hadd. cbn [fold_left bind_outcome fst snd].
    unfold PredictiveTuning.addEvidence. rewrite Hc1. cbn [bind_outcome].
    eexists. split; [reflexivity|].
    cbn [PredictiveTuning._traversalTimesStorage PredictiveTuning._lastTest
         PredictiveTuning._tuningIterationsCounter].
    split; [exact Hc1|]. split; [exact Hcnt|]. split; [|split].
    + rewrite lookup_insert_eq. cbn [default]. rewrite Hsto.
      rewrite app_assoc. reflexivity.
    + intros _. rewrite !lookup_insert_eq. split; [eexists; reflexivity|].
      rewrite Hcnt. reflexivity.
    + intros c' Hne. rewrite lookup_insert_ne by congruence.
      apply Hother. exact Hne.
Qed.

End evidence_facts.

(** X21: after [addEvidence] was called for one sample or more while
    the strategy stood at the configuration [c], all times of [c] being
    at least 0 and less than [2^63] together, [getEvidence] of [c] is
    the sum of the times of [c], old and new, divided by their number
    (rounded down); the last test of [c] is the current tuning phase
    and the strategy still stands at [c]. *)
Theorem getEvidence_mean {Configuration : Type} `{Countable Configuration}
    (st : PredictiveTuning.t) (c : Configuration) (samples : list (Z * Z)) :
  let times :=
    default [] (PredictiveTuning._traversalTimesStorage st !! c) ++ samples in
  PredictiveTuning.getCurrentConfiguration st = Done c ->
  samples <> [] ->
  Forall (fun s => 0 <= snd s) times ->
  sumZ (map snd times) < 2 ^ 63 ->
  exists st',
    addEvidences st samples = Done st' /\
    PredictiveTuning.getEvidence st' c
    = Done (sumZ (map snd times) / vsize times) /\
    PredictiveTuning._lastTest st' !! c
    = Some (PredictiveTuning._tuningIterationsCounter st) /\
    PredictiveTuning.getCurrentConfiguration st' = Done c.
Proof.
  intros times Hc Hne Hpos Hsum.
  destruct (addEvidences_storage samples st c Hc)
    as (st' & Hadd & Hc' & _ & Hsto & Hlast & _).
  destruct (Hlast Hne) as ([stored Hstored] & Hlt).
  exists st'. split; [exact Hadd|]. split; [|split; assumption].
  unfold PredictiveTuning.getEvidence. rewrite Hstored.
  rewrite Hstored in Hsto.
  change (stored = times) in Hsto. subst stored.
  assert (Hlen : 0 < vsize times).
  { unfold times, vsize. rewrite length_app.
    destruct samples; [contradiction | cbn; lia]. }
  destruct (vsize times =? 0) eqn:E; [apply Z.eqb_eq in E; lia|].
  assert (Hnn : 0 <= sumZ (map snd times)).
  { apply sumZ_nonneg, Forall_fmap. exact Hpos. }
  rewrite sum_times by (try exact Hpos; lia).
  rewrite Z.add_0_l, wrap64_small by lia.
  f_equal. apply to_long_small.
  split.
  - pose proof (Z.div_pos (sumZ (map snd times)) (vsize times) Hnn Hlen). lia.
  - apply Z.div_lt_upper_bound; [lia|]. nia.
Qed.

Lemma getEvidence_mean_witness :
  let times :=
    default [] (PredictiveTuning._traversalTimesStorage ninePhases !! 0)
    ++ [(90, 120); (91, 130)] in
  exists st',
    addEvidences ninePhases [(90, 120); (91, 130)] = Done st' /\
    PredictiveTuning.getEvidence st' 0
    = Done (sumZ (map snd times) / vsize times) /\
    PredictiveTuning._lastTest st' !! 0
    = Some (PredictiveTuning._tuningIterationsCounter ninePhases) /\
    PredictiveTuning.getCurrentConfiguration st' = Done 0.
Proof.
  apply (getEvidence_mean ninePhases 0 [(90, 120); (91, 130)]).
  - vm_compute. reflexivity.
  - discriminate.
  - vm_compute. repeat constructor; discriminate.
  - vm_compute. reflexivity.
Defined.

(** The four times of the witness have the mean 112.  Without a sample
    the division is by zero, without an entry [at] throws, and a
    negative sum is divided as an [unsigned long]. *)
Example getEvidence_edges :
  (exists st',
     addEvidences ninePhases [(90, 120); (91, 130)] = Done st' /\
     PredictiveTuning.getEvidence st' 0 = Done 112) /\
  PredictiveTuning.getEvidence (tuningState range_1_2 [(0, [])] [] 0) 0
    = Undefined /\
  PredictiveTuning.getEvidence (tuningState range_1_2 [(0, [])] [] 0) 1
    = Thrown "std::out_of_range"%string /\
  PredictiveTuning.getEvidence
    (tuningState range_1_2 [(0, [(1, -3); (2, 0)])] [] 0) 0
    = Done (2 ^ 63 - 2).
Proof.
  split.
  - eexists. split; [vm_compute; reflexivity|]. vm_compute. reflexivity.
  - vm_compute. repeat split; reflexivity.
Qed.
